(** * subdomainbot: candidate generator and concurrent verifier

    A shallow embedding of [generator.py] (class [SubdomainGenerator]) and
    [scanner.py] (class [SubdomainScanner], [get_scanner_for_mode]).

    Python [str] is [string], a Python [set] of strings is [gset string],
    a Python [int] is [Z]. A [for] loop over a list that mutates the
    accumulating set is a left fold of set transformers. An f-string is
    the concatenation of its segments, the literal text in front of
    [{domain}] being split before its final dot.

    A coroutine body is a function of the network that yields the
    requests it sent and either a value or the exception it raised. The
    event loop is a transition system over the tasks handed to [gather]:
    a step takes one task from one suspension point of [check_subdomain]
    to the next. [scan_subdomains] runs the schedule that completes the
    tasks one after the other; the theorems on [step] cover all others.

    Of [utils.py], [validate_domain] and the class [UserSession] are
    embedded, the latter over a store of dict objects, since the
    handlers keep and mutate the dict that [create] and [get] return. Of
    [handlers.py], the path from the message typed to the call of
    [generate_candidates] and the scan of [confirm_scan]. *)

From Stdlib Require Import String Ascii List Arith Lia.
From stdpp Require Import base decidable list strings gmap sets.

Local Open Scope string_scope.
Local Open Scope list_scope.

(** ** Python string primitives used by the sources *)

Module PyStr.

(** [s.startswith(p)] *)
Definition startswith (s p : string) : bool := String.prefix p s.

(** [s[n:]] *)
Fixpoint slice_from (n : nat) (s : string) : string :=
  match n, s with
  | O, _ => s
  | S n', String _ s' => slice_from n' s'
  | S _, EmptyString => EmptyString
  end.

(** [s.replace(old, new)] for one-character [old] and [new] *)
Fixpoint replace (old new : ascii) (s : string) : string :=
  match s with
  | EmptyString => EmptyString
  | String c s' =>
      String (if Ascii.eqb c old then new else c) (replace old new s')
  end.

(** [sep.join(parts)] *)
Definition join (sep : string) (parts : list string) : string :=
  String.concat sep parts.

Definition digit (n : nat) : string :=
  String (ascii_of_nat (48 + n mod 10)) EmptyString.

(** Decimal rendering of a natural number, [fuel] bounding the number
    of digits. *)
Fixpoint decimal (fuel n : nat) : string :=
  match fuel with
  | O => digit n
  | S fuel' =>
      if (n <? 10)%nat then digit n else decimal fuel' (n / 10) +:+ digit n
  end.

(** [f"{i:02d}"]: decimal, zero-padded on the left to width two *)
Definition fmt_02d (i : nat) : string :=
  if (i <? 10)%nat then "0" +:+ digit i else decimal i i.

(** [range(a, b)] *)
Definition range (a b : nat) : list nat := seq a (b - a).

End PyStr.

(** ** The slice of [itertools] used by the generator *)

Module Itertools.
Section Defs.
Context {A : Type}.

(** [combinations(l, k)]: the [k]-element subsequences of [l], in
    lexicographic order of positions. *)
Fixpoint combinations (l : list A) (k : nat) : list (list A) :=
  match k with
  | O => [[]]
  | S k' =>
      match l with
      | [] => []
      | x :: l' => map (cons x) (combinations l' k') ++ combinations l' k
      end
  end.

(** Every way of taking one element out of [l], in position order. *)
Fixpoint selects (l : list A) : list (A * list A) :=
  match l with
  | [] => []
  | x :: l' => (x, l') :: map (λ p, (p.1, x :: p.2)) (selects l')
  end.

Fixpoint arrangements (n : nat) (l : list A) : list (list A) :=
  match n with
  | O => [[]]
  | S n' =>
      flat_map (λ p, map (cons p.1) (arrangements n' p.2)) (selects l)
  end.

(** [permutations(l)]: all orderings of [l], in lexicographic order
    of positions. *)
Definition permutations (l : list A) : list (list A) :=
  arrangements (length l) l.
End Defs.
End Itertools.

(** ** Mutation of a Python set, as set transformers *)

Module PySet.

(** [s.add(x)] *)
Definition add (x : string) (s : gset string) : gset string := {[x]} ∪ s.

(** [s.update(xs)] *)
Definition update (xs : list string) (s : gset string) : gset string :=
  list_to_set xs ∪ s.

(** [for x in xs: body(x)] where the body mutates the set *)
Definition for_each {A} (xs : list A)
    (body : A → gset string → gset string) (s : gset string) : gset string :=
  foldl (λ acc x, body x acc) s xs.

(** Two statements in sequence. *)
Definition seq2 (f g : gset string → gset string) : gset string → gset string :=
  λ s, g (f s).
End PySet.

Notation "f ;> g" := (PySet.seq2 f g) (at level 62, right associativity).

(** ** generator.py *)

Module SubdomainGenerator.
Import PyStr Itertools PySet.

Definition COMMON_PREFIXES : list string :=
  [ "www"; "mail"; "ftp"; "smtp"; "pop"; "imap"; "webmail";
    "admin"; "administrator"; "login"; "dashboard"; "panel";
    "api"; "api2"; "api3"; "vpn"; "remote"; "ssh";
    "dev"; "development"; "staging"; "test"; "qa";
    "blog"; "news"; "forum"; "support"; "help"; "docs";
    "app"; "apps"; "application"; "portal"; "hub";
    "static"; "assets"; "cdn"; "media"; "images"; "img";
    "shop"; "store"; "ecommerce"; "payment"; "pay";
    "m"; "mobile"; "wap"; "i"; "iphone";
    "secure"; "ssl"; "safe"; "private";
    "cpanel"; "whm"; "webdisk"; "webhost";
    "ns1"; "ns2"; "ns3"; "dns"; "mx"; "mx1"; "mx2";
    "git"; "svn"; "repo"; "code";
    "status"; "monitor"; "monitoring"; "metrics";
    "db"; "database"; "sql"; "mysql"; "postgres" ].

Definition ENVIRONMENTS : list string :=
  [ "dev"; "test"; "staging"; "prod"; "production"; "uat"; "qa" ].

Definition GEO_PREFIXES : list string :=
  [ "us"; "uk"; "eu"; "de"; "fr"; "jp"; "sg"; "au"; "in" ].

(** The list literal [base_candidates]. *)
Definition base_candidates (domain : string) : list string :=
  [ "www" +:+ "." +:+ domain; "mail" +:+ "." +:+ domain; "api" +:+ "." +:+ domain;
    "admin" +:+ "." +:+ domain; "blog" +:+ "." +:+ domain; "dev" +:+ "." +:+ domain;
    "staging" +:+ "." +:+ domain; "test" +:+ "." +:+ domain; "mobile" +:+ "." +:+ domain;
    "static" +:+ "." +:+ domain; "cdn" +:+ "." +:+ domain; "portal" +:+ "." +:+ domain;
    "app" +:+ "." +:+ domain; "secure" +:+ "." +:+ domain; "vpn" +:+ "." +:+ domain;
    "m" +:+ "." +:+ domain; "old" +:+ "." +:+ domain; "new" +:+ "." +:+ domain ].

(** Body of the [mode == 'normal'] branch. *)
Definition normal_branch (domain : string) : gset string → gset string :=
  for_each (take 3 ENVIRONMENTS) (λ env,
    add (env +:+ "." +:+ domain) ;>
    add (env +:+ "-web" +:+ "." +:+ domain)) ;>
  for_each ["1"; "2"; "3"; "01"; "02"] (λ num,
    add ("web" +:+ num +:+ "." +:+ domain) ;>
    add ("app" +:+ num +:+ "." +:+ domain) ;>
    add ("api" +:+ num +:+ "." +:+ domain)).

(** Body of the [mode == 'medium'] branch. *)
Definition medium_branch (domain : string) : gset string → gset string :=
  for_each ENVIRONMENTS (λ env,
    add (env +:+ "." +:+ domain) ;>
    add (env +:+ "-web" +:+ "." +:+ domain) ;>
    add ("web-" +:+ env +:+ "." +:+ domain) ;>
    add (env +:+ "-app" +:+ "." +:+ domain)) ;>
  for_each GEO_PREFIXES (λ geo,
    add (geo +:+ "." +:+ domain) ;>
    add (geo +:+ "-web" +:+ "." +:+ domain) ;>
    add ("www-" +:+ geo +:+ "." +:+ domain)) ;>
  for_each (range 1 11) (λ i,
    add ("web" +:+ fmt_02d i +:+ "." +:+ domain) ;>
    add ("app" +:+ fmt_02d i +:+ "." +:+ domain) ;>
    add ("api" +:+ fmt_02d i +:+ "." +:+ domain) ;>
    add ("server" +:+ fmt_02d i +:+ "." +:+ domain)).

(** The list literal [special_patterns]. *)
Definition special_patterns (domain : string) : list string :=
  [ "alpha" +:+ "." +:+ domain; "beta" +:+ "." +:+ domain; "gamma" +:+ "." +:+ domain;
    "prod-" +:+ replace "." "-" domain +:+ "." +:+ domain;
    "internal" +:+ "." +:+ domain; "external" +:+ "." +:+ domain;
    "legacy" +:+ "." +:+ domain; "modern" +:+ "." +:+ domain;
    "cloud" +:+ "." +:+ domain; "aws" +:+ "." +:+ domain; "azure" +:+ "." +:+ domain;
    "office" +:+ "." +:+ domain; "home" +:+ "." +:+ domain; "remote" +:+ "." +:+ domain ].

(** Body of the [mode == 'ultimate'] branch. *)
Definition ultimate_branch (domain : string) : gset string → gset string :=
  for_each ENVIRONMENTS (λ env,
    for_each [""; "www-"; "web-"; "app-"; "api-"] (λ prefix,
      add (prefix +:+ env +:+ "." +:+ domain) ;>
      for_each [""; "1"; "2"; "3"] (λ num,
        add (prefix +:+ env +:+ num +:+ "." +:+ domain)))) ;>
  for_each GEO_PREFIXES (λ geo,
    for_each (take 4 ENVIRONMENTS) (λ env,
      add (geo +:+ "-" +:+ env +:+ "." +:+ domain) ;>
      add (env +:+ "-" +:+ geo +:+ "." +:+ domain))) ;>
  for_each ["app"; "web"; "api"; "service"] (λ prefix1,
    for_each (take 3 ENVIRONMENTS) (λ prefix2,
      add (prefix1 +:+ "-" +:+ prefix2 +:+ "." +:+ domain) ;>
      for_each [""; "1"; "2"] (λ num,
        add (prefix1 +:+ num +:+ "-" +:+ prefix2 +:+ "." +:+ domain)))) ;>
  for_each (range 1 21) (λ i,
    for_each ["web"; "app"; "api"; "server"; "node"; "host"] (λ prefix,
      add (prefix +:+ fmt_02d i +:+ "." +:+ domain) ;>
      add (prefix +:+ "-" +:+ fmt_02d i +:+ "." +:+ domain))) ;>
  update (special_patterns domain).

Definition common_words : list string :=
  [ "admin"; "api"; "web"; "app"; "dev"; "test" ].

(** Body of the [mode in ['medium', 'ultimate']] block. *)
Definition permutation_block (domain mode : string)
    : gset string → gset string :=
  let max_combinations := if String.eqb mode "medium" then 2 else 3 in
  for_each
    (range 2 (Nat.min (max_combinations + 1) (length common_words + 1)))
    (λ i,
      for_each (combinations common_words i) (λ combo,
        for_each (permutations combo) (λ perm,
          if String.eqb mode "ultimate" || (length perm <=? 2)%nat
          then add (join "-" perm +:+ "." +:+ domain)
          else id))).

(** The leading [www.] removal at the top of [generate_candidates]. *)
Definition strip_www (domain : string) : string :=
  if startswith domain "www." then slice_from 4 domain else domain.

Definition generate_candidates (domain mode : string) : gset string :=
  let candidates : gset string := ∅ in
  let domain := strip_www domain in
  let candidates := update (base_candidates domain) candidates in
  let candidates :=
    for_each COMMON_PREFIXES (λ prefix,
      add (prefix +:+ "." +:+ domain)) candidates in
  let candidates :=
    if String.eqb mode "normal" then normal_branch domain candidates
    else if String.eqb mode "medium" then medium_branch domain candidates
    else if String.eqb mode "ultimate" then ultimate_branch domain candidates
    else candidates in
  let candidates :=
    if existsb (String.eqb mode) ["medium"; "ultimate"]
    then permutation_block domain mode candidates
    else candidates in
  candidates.

(** [estimate_count] *)
Definition estimate_count (mode : string) : nat :=
  if String.eqb mode "normal" then 50
  else if String.eqb mode "medium" then 150
  else if String.eqb mode "ultimate" then 500
  else 50.

End SubdomainGenerator.


(** ** utils.py: the pattern of [validate_domain] *)

Module Utils.

Definition is_lower (c : ascii) : bool :=
  let n := nat_of_ascii c in (97 <=? n)%nat && (n <=? 122)%nat.

Definition is_digit (c : ascii) : bool :=
  let n := nat_of_ascii c in (48 <=? n)%nat && (n <=? 57)%nat.

(** The character class [[a-z0-9.-]]. *)
Definition is_host_char (c : ascii) : bool :=
  is_lower c || is_digit c || Ascii.eqb c "." || Ascii.eqb c "-".

Fixpoint all_chars (p : ascii → bool) (s : string) : bool :=
  match s with
  | EmptyString => true
  | String c s' => p c && all_chars p s'
  end.

(** The tail [\.[a-z]{2,}$] of the pattern. *)
Definition matches_tld (s : string) : bool :=
  match s with
  | String "." t => (2 <=? String.length t)%nat && all_chars is_lower t
  | _ => false
  end.

(** [re.match(r'^[a-z0-9.-]+\.[a-z]{2,}$', s)]: some non-empty prefix of
    host characters is followed by a dot and at least two lower-case
    letters up to the end of the string. [seen] records that the
    prefix read so far is non-empty. *)
Fixpoint matches_from (seen : bool) (s : string) : bool :=
  (seen && matches_tld s) ||
  match s with
  | EmptyString => false
  | String c s' => is_host_char c && matches_from true s'
  end.

Definition matches_domain_pattern (s : string) : bool :=
  matches_from false s.

End Utils.

(** ** scanner.py *)

(** *** Python exceptions: the classes the scanner names, and [isinstance] *)

Module PyExc.

Inductive exn_class : Set :=
| BaseException
| Exception
| CancelledError        (* asyncio.CancelledError, a BaseException *)
| DNSException          (* dns.exception.DNSException *)
| NXDOMAIN
| NoAnswer
| Timeout               (* dns.exception.Timeout *)
| ClientError           (* aiohttp.ClientError *)
| TimeoutError          (* asyncio.TimeoutError *)
| OSError
| gaierror              (* socket.gaierror *)
| ValueError
| UnicodeDecodeError
| RuntimeError
| AttributeError.

#[global] Instance exn_class_eq_dec : EqDecision exn_class.
Proof. solve_decision. Defined.

(** Direct base class. *)
Definition base (c : exn_class) : option exn_class :=
  match c with
  | BaseException => None
  | Exception | CancelledError => Some BaseException
  | DNSException | ClientError | TimeoutError | OSError
  | ValueError | RuntimeError | AttributeError => Some Exception
  | NXDOMAIN | NoAnswer | Timeout => Some DNSException
  | gaierror => Some OSError
  | UnicodeDecodeError => Some ValueError
  end.

Fixpoint subclass_upto (depth : nat) (c cls : exn_class) : bool :=
  bool_decide (c = cls) ||
  match depth with
  | O => false
  | S depth' =>
      match base c with
      | Some b => subclass_upto depth' b cls
      | None => false
      end
  end.

(** [isinstance(e, cls)], an exception being identified with its class;
    no class above is more than three steps below [BaseException]. *)
Definition isinstance (e cls : exn_class) : bool := subclass_upto 3 e cls.

(** [except (c1, ..., cn):] catches [e]. *)
Definition caught_by (classes : list exn_class) (e : exn_class) : bool :=
  existsb (isinstance e) classes.

(** [dns.asyncresolver.<name>] for the names the scanner writes. The
    module binds [NXDOMAIN] and [NoAnswer], which it imports from
    [dns.resolver]; it binds no [Timeout]. [None] stands for the
    [AttributeError] of a name the module does not have. *)
Definition asyncresolver_attribute (name : string) : option exn_class :=
  if String.eqb name "NXDOMAIN" then Some NXDOMAIN
  else if String.eqb name "NoAnswer" then Some NoAnswer
  else None.

(** The value of a tuple of class expressions, read from left to right;
    [None] when one of them raises. *)
Fixpoint evaluate (exprs : list (option exn_class))
    : option (list exn_class) :=
  match exprs with
  | [] => Some []
  | x :: exprs' =>
      match x, evaluate exprs' with
      | Some c, Some cs => Some (c :: cs)
      | _, _ => None
      end
  end.

End PyExc.

(** *** The network, as seen by one scan *)

Module Net.
Import PyExc.

Inductive rdtype : Set := A | CNAME.

(** Result of [await resolver.resolve(name, rdtype)]. *)
Inductive lookup : Set :=
| Answer
| LookupRaises (e : exn_class).

(** How [session.head(url, allow_redirects=True)] ends: with the last
    response, or with an exception. *)
Inductive head_result : Set :=
| Response (status : Z)
| HeadRaises (e : exn_class).

(** What one [session.head(url, allow_redirects=True)] does: the client
    follows redirects inside the call, so that after the request to
    [url] it sends a request to each of [redirects], in this order,
    wherever they point; [final] is how the call ends. *)
Record head_outcome : Set := {
  redirects : list string;
  final : head_result;
}.

(** A request that is answered without a redirect. *)
Definition direct (r : head_result) : head_outcome :=
  {| redirects := []; final := r |}.

#[global] Instance rdtype_eq_dec : EqDecision rdtype.
Proof. solve_decision. Defined.

#[global] Instance lookup_eq_dec : EqDecision lookup.
Proof. solve_decision. Defined.

#[global] Instance head_result_eq_dec : EqDecision head_result.
Proof. solve_decision. Defined.

#[global] Instance head_outcome_eq_dec : EqDecision head_outcome.
Proof. solve_decision. Defined.

Record network : Type := {
  resolve : string → rdtype → lookup;
  head : string → head_outcome;
}.

(** The requests a scan sends: a DNS query; the HEAD request to the
    [url] that a [session.head] call of the given total timeout is made
    with; a HEAD request that the client sends within such a call to a
    [url] it was redirected to. *)
Inductive net_event : Set :=
| Query (name : string) (rd : rdtype)
| Head (url : string) (total_timeout : Z)
| Follow (url : string) (total_timeout : Z).

End Net.

(** *** Coroutine bodies: network reads, a log of requests, exceptions *)

Module Coro.
Import PyExc Net.

Definition coro (R : Type) : Type :=
  network → list net_event * (R + exn_class).

Definition ret {R} (r : R) : coro R := λ _, ([], inl r).

Definition raise {R} (e : exn_class) : coro R := λ _, ([], inr e).

Definition bind {R S} (m : coro R) (k : R → coro S) : coro S :=
  λ net,
    match m net with
    | (t1, inl r) => let '(t2, s) := k r net in (t1 ++ t2, s)
    | (t1, inr e) => (t1, inr e)
    end.

(** [try: body  except classes: handler] *)
Definition try_except {R} (body : coro R) (classes : list exn_class)
    (handler : coro R) : coro R :=
  λ net,
    match body net with
    | (t1, inl r) => (t1, inl r)
    | (t1, inr e) =>
        if caught_by classes e
        then let '(t2, s) := handler net in (t1 ++ t2, s)
        else (t1, inr e)
    end.

(** [try: body  except (x1, ..., xn): handler] where the [xi] are
    expressions that may fail: Python evaluates the tuple only once
    [body] has raised, and an [AttributeError] of that evaluation leaves
    the statement in place of the exception of [body], whatever that
    was; no handler of the statement runs. *)
Definition try_except_lookup {R} (body : coro R)
    (exprs : list (option exn_class)) (handler : coro R) : coro R :=
  λ net,
    match body net with
    | (t1, inl r) => (t1, inl r)
    | (t1, inr e) =>
        match evaluate exprs with
        | None => (t1, inr AttributeError)
        | Some classes =>
            if caught_by classes e
            then let '(t2, s) := handler net in (t1 ++ t2, s)
            else (t1, inr e)
        end
    end.

(** [await self.resolver.resolve(name, rd)] *)
Definition await_resolve (name : string) (rd : rdtype) : coro unit :=
  λ net,
    ([Query name rd],
     match resolve net name rd with
     | Answer => inl ()
     | LookupRaises e => inr e
     end).

(** [async with session.head(url, allow_redirects=True) as response]
    yielding [response.status]: the request to [url], the requests to
    the redirects the client follows, and the status of the last
    response. *)
Definition await_head (url : string) (total_timeout : Z) : coro Z :=
  λ net,
    (Head url total_timeout
       :: ((λ u, Follow u total_timeout) <$> redirects (head net url)),
     match final (head net url) with
     | Response status => inl status
     | HeadRaises e => inr e
     end).

End Coro.

#[global] Instance coro_ret : MRet Coro.coro := @Coro.ret.
#[global] Instance coro_bind : MBind Coro.coro := λ R S k m, Coro.bind m k.

(** *** class SubdomainScanner *)

Module Scanner.
Import PyExc Net Coro.

(** The instance attributes set by [__init__]; of the resolver object
    only the two attributes the constructor assigns. *)
Record SubdomainScanner : Set := {
  concurrency : Z;
  timeout : Z;
  resolver_timeout : Z;
  resolver_lifetime : Z;
}.

(** [SubdomainScanner(concurrency, timeout)] *)
Definition init (concurrency timeout : Z) : SubdomainScanner :=
  {| concurrency := concurrency;
     timeout := timeout;
     resolver_timeout := timeout;
     resolver_lifetime := timeout |}.

(** [self.concurrency = v] *)
Definition set_concurrency (v : Z) (self : SubdomainScanner)
    : SubdomainScanner :=
  {| concurrency := v;
     timeout := timeout self;
     resolver_timeout := resolver_timeout self;
     resolver_lifetime := resolver_lifetime self |}.

(** [resolve_dns]: the first handler names five classes, three of them
    as attributes of [dns.asyncresolver]; the second is a bare
    [except:], which catches every [BaseException]. *)
Definition resolve_dns (self : SubdomainScanner) (subdomain : string)
    : coro bool :=
  try_except_lookup
    (await_resolve subdomain A;;
     mret true)
    [asyncresolver_attribute "NXDOMAIN";
     asyncresolver_attribute "NoAnswer";
     asyncresolver_attribute "Timeout";
     Some DNSException;             (* dns.exception.DNSException *)
     Some Exception]
    (try_except
       (await_resolve subdomain CNAME;;
        mret true)
       [BaseException]              (* a bare [except:] *)
       (mret false)).

(** [check_https]: the connector and the client session send nothing by
    themselves; the [finally] clause only closes the connector. An
    exception outside the five classes leaves the coroutine. The
    requests are those of the one [session.head] call, redirects
    included. *)
Definition check_https (self : SubdomainScanner) (subdomain : string)
    : coro bool :=
  let url := "https://" +:+ subdomain in
  try_except
    (status ← await_head url (timeout self);
     mret (status <? 400)%Z)
    [ClientError; TimeoutError; gaierror; OSError; UnicodeDecodeError]
    (mret false).

(** **** The event loop under [scan_subdomains]

    [asyncio.Semaphore(value)] raises [ValueError] for a negative
    [value]; [acquire] takes a slot when the value is positive and
    otherwise suspends the task until a slot is released. *)
Definition Semaphore (value : Z) : Z + exn_class :=
  if (value <? 0)%Z then inr ValueError else inl value.

(** Where one [check_subdomain(subdomain)] task stands. *)
Inductive task_state : Set :=
| Pending                            (* at [async with semaphore] *)
| Resolving                          (* slot held, at [await self.resolve_dns] *)
| Probing                            (* slot held, at [await self.check_https] *)
| Finished (exc : option exn_class). (* slot released; the task's exception *)

#[global] Instance task_state_eq_dec : EqDecision task_state.
Proof. solve_decision. Defined.

(** The closure variables of [scan_subdomains], the tasks handed to
    [gather], and the requests sent so far. *)
Record loop_state : Type := {
  semaphore : Z;
  tasks : gmap string task_state;
  dns_resolved : gset string;
  https_alive : gset string;
  requests : list net_event;
}.

Definition finish (exc : option exn_class) (subdomain : string)
    (sent : list net_event) (dns https : gset string)
    (st : loop_state) : loop_state :=
  {| semaphore := semaphore st + 1;
     tasks := <[subdomain := Finished exc]> (tasks st);
     dns_resolved := dns;
     https_alive := https;
     requests := requests st ++ sent |}.

(** The task of [subdomain] runs from its current suspension point to
    the next one; [None] when it cannot run (it waits for a slot, it is
    over, or there is no such task). *)
Definition fire (self : SubdomainScanner) (net : network)
    (subdomain : string) (st : loop_state) : option loop_state :=
  match tasks st !! subdomain with
  | Some Pending =>
      if (0 <? semaphore st)%Z
      then Some {| semaphore := semaphore st - 1;
                   tasks := <[subdomain := Resolving]> (tasks st);
                   dns_resolved := dns_resolved st;
                   https_alive := https_alive st;
                   requests := requests st |}
      else None
  | Some Resolving =>
      match resolve_dns self subdomain net with
      | (sent, inl true) =>
          Some {| semaphore := semaphore st;
                  tasks := <[subdomain := Probing]> (tasks st);
                  dns_resolved := {[subdomain]} ∪ dns_resolved st;
                  https_alive := https_alive st;
                  requests := requests st ++ sent |}
      | (sent, inl false) =>
          Some (finish None subdomain sent
                  (dns_resolved st) (https_alive st) st)
      | (sent, inr e) =>
          Some (finish (Some e) subdomain sent
                  (dns_resolved st) (https_alive st) st)
      end
  | Some Probing =>
      match check_https self subdomain net with
      | (sent, inl true) =>
          Some (finish None subdomain sent
                  (dns_resolved st) ({[subdomain]} ∪ https_alive st) st)
      | (sent, inl false) =>
          Some (finish None subdomain sent
                  (dns_resolved st) (https_alive st) st)
      | (sent, inr e) =>
          Some (finish (Some e) subdomain sent
                  (dns_resolved st) (https_alive st) st)
      end
  | Some (Finished _) | None => None
  end.

(** One step of the loop: some task that can run, runs. *)
Definition step (self : SubdomainScanner) (net : network)
    (st st' : loop_state) : Prop :=
  ∃ subdomain, fire self net subdomain st = Some st'.

Definition is_finished (t : task_state) : bool :=
  match t with Finished _ => true | _ => false end.

(** [gather] is over: every task has a result or an exception. *)
Definition all_finished (st : loop_state) : bool :=
  bool_decide (map_Forall (λ _ t, is_finished t = true) (tasks st)).

(** The state [gather] starts from. *)
Definition start (value : Z) (subdomains : gset string) : loop_state :=
  {| semaphore := value;
     tasks := gset_to_gmap Pending subdomains;
     dns_resolved := ∅;
     https_alive := ∅;
     requests := [] |}.

Definition fire_if_able (self : SubdomainScanner) (net : network)
    (subdomain : string) (st : loop_state) : loop_state :=
  default st (fire self net subdomain st).

(** The schedule in which every task, in turn, runs through its three
    suspension points as far as it can. *)
Definition run_task (self : SubdomainScanner) (net : network)
    (subdomain : string) (st : loop_state) : loop_state :=
  fire_if_able self net subdomain
    (fire_if_able self net subdomain
       (fire_if_able self net subdomain st)).

Definition run_all (self : SubdomainScanner) (net : network)
    (order : list string) (st : loop_state) : loop_state :=
  foldl (λ st subdomain, run_task self net subdomain st) st order.

(** How a call ends. *)
Inductive outcome (R : Type) : Type :=
| Returns (r : R)
| Raises (e : exn_class)
| Blocks.                            (* [gather] never completes *)
Arguments Returns {R} r.
Arguments Raises {R} e.
Arguments Blocks {R}.

(** A call's outcome, the requests it sent, and the object afterwards. *)
Record call (R : Type) : Type := {
  self_after : SubdomainScanner;
  result : outcome R;
  sent : list net_event;
}.
Arguments self_after {R} c.
Arguments result {R} c.
Arguments sent {R} c.

Definition scan_subdomains (self : SubdomainScanner) (net : network)
    (subdomains : gset string) : call (gset string * gset string) :=
  match Semaphore (concurrency self) with
  | inr e => {| self_after := self; result := Raises e; sent := [] |}
  | inl value =>
      let st :=
        run_all self net (elements subdomains) (start value subdomains) in
      {| self_after := self;
         result :=
           if all_finished st
           then Returns (https_alive st, dns_resolved st)
           else Blocks;
         sent := requests st |}
  end.

Definition quick_scan (self : SubdomainScanner) (net : network)
    (subdomains : gset string) : call (gset string * gset string) :=
  let self := set_concurrency 20 self in
  scan_subdomains self net subdomains.

(** [get_scanner_for_mode] *)
Definition get_scanner_for_mode (mode : string) : SubdomainScanner :=
  if String.eqb mode "normal" then init 20 5
  else if String.eqb mode "medium" then init 30 8
  else init 50 10.

End Scanner.

(** ** Properties stated about the generator *)

Module GeneratorSpec.
Import SubdomainGenerator.

(** [c] is [domain] with at least one label in front: a non-empty
    string, a dot, then [domain]. *)
Definition is_subdomain_of (domain c : string) : Prop :=
  ∃ label, label ≠ "" ∧ c = label +:+ "." +:+ domain.

(** [c] ends with a dot followed by [domain]. *)
Definition ends_with_dot (domain c : string) : Prop :=
  ∃ front, c = front +:+ "." +:+ domain.

(** The Domain invariant: the pattern [validate_domain] matches. *)
Definition Domain (d : string) : Prop :=
  Utils.matches_domain_pattern d = true.

(** Every element of a set satisfies [P]. *)
Definition all_in (P : string → Prop) (s : gset string) : Prop :=
  ∀ c, c ∈ s → P c.

(** A set transformer keeps [all_in P]. *)
Definition preserves (P : string → Prop)
    (f : gset string → gset string) : Prop :=
  ∀ s, all_in P s → all_in P (f s).

(** All of [xs] are elements of [G], as a boolean. *)
Definition all_members (G : gset string) (xs : list string) : bool :=
  forallb (λ x, bool_decide (x ∈ G)) xs.

End GeneratorSpec.

(** ** The labels of the generator *)

Module LabelSpec.
Import PySet SubdomainGenerator.

(** A candidate of the empty domain, that is a label and a dot, with
    [d] put after the dot. *)
Definition at_domain (d c : string) : string := c +:+ d.

(** A candidate set of the empty domain, read at [d]. *)
Definition retarget (d : string) (S0 : gset string) : gset string :=
  set_map (at_domain d) S0.

(** At [d] and beside the candidates [T], [f] does to a set what [f0]
    does at the empty domain. *)
Definition tracks (d : string) (T : gset string)
    (f0 f : gset string → gset string) : Prop :=
  ∀ S0, f (T ∪ retarget d S0) = T ∪ retarget d (f0 S0).

(** A set transformer that only adds. *)
Definition extensive (f : gset string → gset string) : Prop :=
  ∀ S, S ⊆ f S.

(** The candidate of mode ["ultimate"] whose label is made from the
    domain. *)
Definition domain_token (d : string) : string :=
  "prod-" +:+ PyStr.replace "." "-" d +:+ "." +:+ d.

(** The characters of one DNS label as the generator writes them:
    [[a-z0-9-]]. *)
Definition is_label_char (c : ascii) : bool :=
  Utils.is_lower c || Utils.is_digit c || Ascii.eqb c "-".

(** [r] is a run of label characters, possibly empty, a dot, then [d]. *)
Definition label_tail (d r : string) : Prop :=
  ∃ l, Utils.all_chars is_label_char l = true ∧ r = l +:+ "." +:+ d.

(** [c] is a non-empty run of label characters, a dot, then [d]. *)
Definition labelled (d c : string) : Prop :=
  ∃ l, l ≠ "" ∧ Utils.all_chars is_label_char l = true
       ∧ c = l +:+ "." +:+ d.

(** [c] is one label in front of [d]: a non-empty string without a dot,
    a dot, then [d]. *)
Definition one_label_below (d c : string) : Prop :=
  ∃ label, label ≠ ""
           ∧ Utils.all_chars (λ x, negb (Ascii.eqb x ".")) label = true
           ∧ c = label +:+ "." +:+ d.

(** What a candidate of [d] looks like: a label in front of [d], or the
    candidate made from [d] itself. *)
Definition candidate_form (d c : string) : Prop :=
  labelled d c ∨ c = domain_token d.

(** The statements of [ultimate_branch] before its last one. *)
Definition ultimate_loops (domain : string) : gset string → gset string :=
  for_each ENVIRONMENTS (λ env,
    for_each [""; "www-"; "web-"; "app-"; "api-"] (λ prefix,
      add (prefix +:+ env +:+ "." +:+ domain) ;>
      for_each [""; "1"; "2"; "3"] (λ num,
        add (prefix +:+ env +:+ num +:+ "." +:+ domain)))) ;>
  for_each GEO_PREFIXES (λ geo,
    for_each (take 4 ENVIRONMENTS) (λ env,
      add (geo +:+ "-" +:+ env +:+ "." +:+ domain) ;>
      add (env +:+ "-" +:+ geo +:+ "." +:+ domain))) ;>
  for_each ["app"; "web"; "api"; "service"] (λ prefix1,
    for_each (take 3 ENVIRONMENTS) (λ prefix2,
      add (prefix1 +:+ "-" +:+ prefix2 +:+ "." +:+ domain) ;>
      for_each [""; "1"; "2"] (λ num,
        add (prefix1 +:+ num +:+ "-" +:+ prefix2 +:+ "." +:+ domain)))) ;>
  for_each (PyStr.range 1 21) (λ i,
    for_each ["web"; "app"; "api"; "server"; "node"; "host"] (λ prefix,
      add (prefix +:+ PyStr.fmt_02d i +:+ "." +:+ domain) ;>
      add (prefix +:+ "-" +:+ PyStr.fmt_02d i +:+ "." +:+ domain))).

End LabelSpec.

(** ** Properties stated about the scanner *)

Module ScannerSpec.
Import PyExc Net Coro Scanner.

(** [await self.resolve_dns(subdomain)] returns [True]. *)
Definition resolves (self : SubdomainScanner) (net : network)
    (subdomain : string) : bool :=
  match (resolve_dns self subdomain net).2 with
  | inl true => true
  | _ => false
  end.

(** [await self.check_https(subdomain)] returns [True]. *)
Definition answers_https (self : SubdomainScanner) (net : network)
    (subdomain : string) : bool :=
  match (check_https self subdomain net).2 with
  | inl true => true
  | _ => false
  end.

(** The candidates for which [resolve_dns] returns [True]. *)
Definition dns_resolved_of (self : SubdomainScanner) (net : network)
    (subdomains : gset string) : gset string :=
  filter (λ s, resolves self net s = true) subdomains.

(** Those of them for which [check_https] returns [True] as well. *)
Definition https_alive_of (self : SubdomainScanner) (net : network)
    (subdomains : gset string) : gset string :=
  filter (λ s, resolves self net s = true ∧ answers_https self net s = true)
    subdomains.

(** The exception, if any, that the task [check_subdomain(subdomain)]
    ends with. *)
Definition task_exception (self : SubdomainScanner) (net : network)
    (subdomain : string) : option exn_class :=
  match (resolve_dns self subdomain net).2 with
  | inr e => Some e
  | inl false => None
  | inl true =>
      match (check_https self subdomain net).2 with
      | inr e => Some e
      | inl _ => None
      end
  end.

(** The states the loop can be in, under any schedule. *)
Definition reachable (self : SubdomainScanner) (net : network)
    (subdomains : gset string) (st : loop_state) : Prop :=
  rtc (step self net) (start (concurrency self) subdomains) st.

Definition holds_slot (t : task_state) : bool :=
  match t with Resolving | Probing => true | _ => false end.

(** The loop state once the task of [subdomain] has run from its start
    to its end with no other task in between. *)
Definition after_task (self : SubdomainScanner) (net : network)
    (subdomain : string) (st : loop_state) : loop_state :=
  {| semaphore := semaphore st;
     tasks :=
       <[subdomain := Finished (task_exception self net subdomain)]>
         (tasks st);
     dns_resolved :=
       if resolves self net subdomain
       then {[subdomain]} ∪ dns_resolved st
       else dns_resolved st;
     https_alive :=
       if resolves self net subdomain && answers_https self net subdomain
       then {[subdomain]} ∪ https_alive st
       else https_alive st;
     requests :=
       requests st ++ (resolve_dns self subdomain net).1 ++
       (if resolves self net subdomain
        then (check_https self subdomain net).1
        else []) |}.

(** What the two result sets must say about one task, given where the
    task stands. *)
Definition task_consistent (self : SubdomainScanner) (net : network)
    (st : loop_state) (s : string) (t : task_state) : Prop :=
  match t with
  | Pending | Resolving =>
      (s ∉ dns_resolved st) ∧ (s ∉ https_alive st)
  | Probing =>
      resolves self net s = true
      ∧ s ∈ dns_resolved st ∧ (s ∉ https_alive st)
  | Finished exc =>
      exc = task_exception self net s
      ∧ (s ∈ dns_resolved st ↔ resolves self net s = true)
      ∧ (s ∈ https_alive st ↔
         resolves self net s = true ∧ answers_https self net s = true)
  end.

(** The loop state agrees with the network about every candidate. *)
Definition consistent (self : SubdomainScanner) (net : network)
    (subdomains : gset string) (st : loop_state) : Prop :=
  dom (tasks st) = subdomains
  ∧ (∀ s t, tasks st !! s = Some t → task_consistent self net st s t)
  ∧ (∀ s, s ∈ dns_resolved st → s ∈ subdomains)
  ∧ (∀ s, s ∈ https_alive st → s ∈ subdomains).

Definition slot_count (t : task_state) : nat :=
  if holds_slot t then 1 else 0.

(** The steps a task still has to take. *)
Definition remaining (t : task_state) : nat :=
  match t with
  | Pending => 3
  | Resolving => 2
  | Probing => 1
  | Finished _ => 0
  end.

(** An upper bound on the steps all tasks together still have to take
    (a task whose name does not resolve skips one). *)
Definition work (m : gmap string task_state) : nat :=
  map_fold (λ _ t acc, remaining t + acc)%nat 0%nat m.

(** The tasks that hold a slot of the semaphore. *)
Definition slot_holders (m : gmap string task_state)
    : gmap string task_state :=
  filter (λ kv : string * task_state, holds_slot kv.2 = true) m.

(** The number of checks in flight. *)
Definition in_flight (st : loop_state) : nat :=
  size (slot_holders (tasks st)).

(** Two networks answer alike except, possibly, about one candidate. *)
Definition agree_except (bad : string) (net net' : network) : Prop :=
  ∀ name, name ≠ bad →
    (∀ rd, resolve net name rd = resolve net' name rd)
    ∧ head net ("https://" +:+ name) = head net' ("https://" +:+ name).

(** A network in which [api.example.com] has an address and answers
    HTTPS with status 200; [old.example.com] has an address and its
    HTTPS request times out; [go.example.com] has an address and
    redirects to another host, which answers with status 200;
    [alias.example.com] has a canonical name and no address; and no
    other name exists. *)
Definition example_network : network :=
  {| resolve := λ name rd,
       if String.eqb name "api.example.com" then Answer
       else if String.eqb name "old.example.com" then Answer
       else if String.eqb name "go.example.com" then Answer
       else if String.eqb name "alias.example.com" then
         match rd with A => LookupRaises NoAnswer | CNAME => Answer end
       else LookupRaises NXDOMAIN;
     head := λ url,
       if String.eqb url "https://api.example.com"
       then direct (Response 200)
       else if String.eqb url "https://go.example.com"
       then {| redirects := ["https://www.example.org/"];
               final := Response 200 |}
       else direct (HeadRaises TimeoutError) |}.

(** A network in which the HTTPS request to [bad.example.com] fails in
    a way [check_https] does not expect. *)
Definition faulty_network : network :=
  {| resolve := λ name rd, Answer;
     head := λ url,
       if String.eqb url "https://bad.example.com"
       then direct (HeadRaises RuntimeError)
       else direct (Response 200) |}.

(** A network whose address lookup is cancelled. *)
Definition cancelling_network : network :=
  {| resolve := λ name rd,
       match rd with A => LookupRaises CancelledError | CNAME => Answer end;
     head := λ url, direct (Response 200) |}.

End ScannerSpec.

(** ** The requests of a scan, counted *)

Module TraceSpec.
Import PyExc Net Coro Scanner ScannerSpec.

#[global] Instance net_event_eq_dec : EqDecision net_event.
Proof. solve_decision. Defined.

(** How often [ev] occurs in [l]. *)
Definition occurrences (ev : net_event) (l : list net_event) : nat :=
  length (filter (λ x, x = ev) l).

(** What the task of [s] has sent by the time it stands at [t]. *)
Definition sent_by_task (self : SubdomainScanner) (net : network)
    (s : string) (t : task_state) : list net_event :=
  match t with
  | Pending | Resolving => []
  | Probing => (resolve_dns self s net).1
  | Finished _ =>
      (resolve_dns self s net).1 ++
      (if resolves self net s then (check_https self s net).1 else [])
  end.

(** [ev] is what the task of the candidate [s] may send: its address
    query, and, once that is answered, the HEAD request to
    [https://s] and the requests to the redirects followed from
    there. *)
Definition request_of (self : SubdomainScanner) (net : network)
    (s : string) (ev : net_event) : Prop :=
  ev = Query s A
  ∨ (resolve net s A = Answer
     ∧ (ev = Head ("https://" +:+ s) (timeout self)
        ∨ ∃ u, u ∈ redirects (head net ("https://" +:+ s))
               ∧ ev = Follow u (timeout self))).

(** The sum of [f] over the tasks. *)
Definition total (f : string → task_state → nat)
    (m : gmap string task_state) : nat :=
  map_fold (λ s t acc, f s t + acc)%nat 0%nat m.

End TraceSpec.

(** ** handlers.py: the core of [confirm_scan] *)

Module Handlers.
Import Net Scanner SubdomainGenerator.

(** The dictionary [mode_map] of [select_mode], read with [.get]. *)
Definition mode_map (data : string) : option string :=
  if String.eqb data "normal_mode" then Some "normal"
  else if String.eqb data "medium_mode" then Some "medium"
  else if String.eqb data "ultimate_mode" then Some "ultimate"
  else None.

(** [confirm_scan], from [generate_candidates] to the result of
    [scan_subdomains]: the candidates of the domain and mode are scanned
    with the scanner of the same mode. *)
Definition generate_and_scan (domain mode : string) (net : network)
    : call (gset string * gset string) :=
  let candidates := generate_candidates domain mode in
  let scanner := get_scanner_for_mode mode in
  scan_subdomains scanner net candidates.

End Handlers.

(** ** utils.py: [validate_domain]

    Here a [string] is a Python [str] whose code points are all below
    256, one character for each. *)

Module Validate.
Import PyStr Utils.

(** [c.lower()] for one character: the letters [A-Z], and the
    upper-case letters from U+00C0 to U+00DE, which leaves out the
    multiplication sign U+00D7. *)
Definition lower_char (c : ascii) : ascii :=
  let n := nat_of_ascii c in
  if ((65 <=? n)%nat && (n <=? 90)%nat)
     || ((192 <=? n)%nat && (n <=? 222)%nat && negb (n =? 215)%nat)
  then ascii_of_nat (n + 32) else c.

(** [s.lower()] *)
Fixpoint lower (s : string) : string :=
  match s with
  | EmptyString => EmptyString
  | String c s' => String (lower_char c) (lower s')
  end.

(** [c.isspace()]: U+0009 to U+000D, U+001C to U+0020, U+0085 and
    U+00A0. *)
Definition is_space (c : ascii) : bool :=
  let n := nat_of_ascii c in
  ((9 <=? n)%nat && (n <=? 13)%nat)
  || ((28 <=? n)%nat && (n <=? 32)%nat)
  || (n =? 133)%nat || (n =? 160)%nat.

Fixpoint lstrip (s : string) : string :=
  match s with
  | EmptyString => EmptyString
  | String c s' => if is_space c then lstrip s' else s
  end.

Fixpoint rstrip (s : string) : string :=
  match s with
  | EmptyString => EmptyString
  | String c s' =>
      let r := rstrip s' in
      if String.eqb r "" && is_space c then EmptyString else String c r
  end.

(** [s.strip()] *)
Definition strip (s : string) : string := rstrip (lstrip s).

(** [c in s] for a one-character [c] *)
Fixpoint contains_char (c : ascii) (s : string) : bool :=
  match s with
  | EmptyString => false
  | String x s' => Ascii.eqb x c || contains_char c s'
  end.

(** [s.count(c)] for a one-character [c] *)
Fixpoint count_char (c : ascii) (s : string) : nat :=
  match s with
  | EmptyString => 0
  | String x s' => (if Ascii.eqb x c then 1 else 0) + count_char c s'
  end.

(** [s.split(sep)] for a non-empty [sep], read from the left: [cur] is
    the part being read, [skip] the number of characters of a separator
    just found that are still to pass. *)
Fixpoint split_go (sep : string) (skip : nat) (cur s : string)
    : list string :=
  match s with
  | EmptyString => [cur]
  | String c s' =>
      match skip with
      | S k => split_go sep k cur s'
      | O =>
          if String.prefix sep s
          then cur :: split_go sep (String.length sep - 1) "" s'
          else split_go sep 0 (cur +:+ String c "") s'
      end
  end.

Definition split (sep s : string) : list string := split_go sep 0 "" s.

(** [s] without its last character, if that is a newline. *)
Fixpoint chop_newline (s : string) : option string :=
  match s with
  | EmptyString => None
  | String c EmptyString =>
      if Ascii.eqb c "010" then Some EmptyString else None
  | String c s' => String c <$> chop_newline s'
  end.

(** [re.match(pattern, s)] for the pattern of [validate_domain]: [$]
    matches at the end of the string and also just before a newline
    that ends it. *)
Definition re_match_pattern (s : string) : bool :=
  matches_domain_pattern s
  || from_option matches_domain_pattern false (chop_newline s).

(** [validate_domain]; [None] stands for the [IndexError] of an index
    that a list does not have. *)
Definition validate_domain (domain : string) : option bool :=
  if String.eqb domain "" || contains_char " " domain then Some false
  else
    let domain := strip (lower domain) in
    domain ← (if startswith domain "http://" || startswith domain "https://"
              then split "://" domain !! 1%nat
              else Some domain);
    domain ← split "/" domain !! 0%nat;
    Some (re_match_pattern domain && (1 <=? count_char "." domain)%nat).

End Validate.

(** ** Properties stated about [validate_domain] *)

Module ValidateSpec.

(** The first colon or slash of [s], if it has one. *)
Fixpoint first_mark (s : string) : option ascii :=
  match s with
  | EmptyString => None
  | String c s' =>
      if Ascii.eqb c ":" || Ascii.eqb c "/" then Some c else first_mark s'
  end.

(** What may follow the host name in an input: nothing, or a slash and
    a path without a blank. *)
Definition path_part (r : string) : Prop :=
  r = "" ∨ ∃ p, r = "/" +:+ p ∧ Validate.contains_char " " p = false.

(** [s] without the newline it ends with, if it ends with one: the
    part of [s] that [re.match] with [$] compares with the pattern. *)
Definition without_final_newline (s : string) : string :=
  default s (Validate.chop_newline s).

(** What may stand in front of it: nothing or one of the two schemes. *)
Definition scheme_part (sch : string) : Prop :=
  sch = "" ∨ sch = "http://" ∨ sch = "https://".

End ValidateSpec.

(** ** utils.py: class [UserSession]

    A session is a Python dict, an object that [create] stores and also
    returns, so that the caller's assignments to it are seen through
    [get]. The dict objects live in [objects], under references;
    [sessions] is the attribute [self.sessions], from user ids to
    references. *)

Module UserSession.

(** The values the bot keeps in a session. *)
Inductive value : Type :=
| VNone
| VStr (s : string)
| VBool (b : bool)
| VSet (s : gset string).

Definition dict : Type := gmap string value.

Definition ref : Type := nat.

Record store : Type := {
  objects : gmap ref dict;
  sessions : gmap Z ref;
}.

(** [UserSession()]: no session yet. *)
Definition init : store := {| objects := ∅; sessions := ∅ |}.

(** The dict literal of [create]. *)
Definition new_session : dict :=
  <["domain" := VNone]>
    (<["mode" := VNone]>
       (<["candidates" := VSet ∅]>
          (<["https_alive" := VSet ∅]>
             (<["dns_resolved" := VSet ∅]>
                (<["scanning" := VBool false]> ∅))))).

(** [create]: a new dict object is stored under [user_id], replacing
    what was there, and returned. *)
Definition create (user_id : Z) (st : store) : ref * store :=
  let r := fresh (dom (objects st)) in
  (r, {| objects := <[r := new_session]> (objects st);
         sessions := <[user_id := r]> (sessions st) |}).

(** [get]: [self.sessions.get(user_id)], [None] when there is none. *)
Definition get (user_id : Z) (st : store) : option ref :=
  sessions st !! user_id.

(** [update]: [self.sessions[user_id].update(kwargs)] if the user has a
    session, nothing otherwise. *)
Definition update (user_id : Z) (kwargs : dict) (st : store) : store :=
  match sessions st !! user_id with
  | Some r =>
      {| objects := alter (λ d, kwargs ∪ d) r (objects st);
         sessions := sessions st |}
  | None => st
  end.

(** [delete]: [self.sessions.pop(user_id, None)]. *)
Definition delete (user_id : Z) (st : store) : store :=
  {| objects := objects st;
     sessions := base.delete user_id (sessions st) |}.

(** [session[key] = v] on the dict behind [r]. *)
Definition setitem (r : ref) (key : string) (v : value) (st : store)
    : store :=
  {| objects := alter (<[key := v]>) r (objects st);
     sessions := sessions st |}.

(** [session[key]] on the dict behind [r]; [None] for a [KeyError]. *)
Definition getitem (r : ref) (key : string) (st : store) : option value :=
  d ← objects st !! r; d !! key.

(** The dict that [get] gives for [user_id], if any. *)
Definition session_of (user_id : Z) (st : store) : option dict :=
  r ← get user_id st; objects st !! r.

(** [session = user_session.get(user_id)] followed, if there is a
    session, by [session[key] = v], as the handlers do. *)
Definition assign (user_id : Z) (key : string) (v : value) (st : store)
    : store :=
  match get user_id st with
  | Some r => setitem r key v st
  | None => st
  end.

(** The calls the handlers make on [user_session]. *)
Inductive op : Type :=
| Create (user_id : Z)
| Update (user_id : Z) (kwargs : dict)
| Delete (user_id : Z)
| Assign (user_id : Z) (key : string) (v : value).

Definition op_user (o : op) : Z :=
  match o with
  | Create u | Update u _ | Delete u | Assign u _ _ => u
  end.

Definition apply_op (st : store) (o : op) : store :=
  match o with
  | Create u => (create u st).2
  | Update u kwargs => update u kwargs st
  | Delete u => delete u st
  | Assign u key v => assign u key v st
  end.

(** The store after a sequence of calls, from the empty one. *)
Definition run (ops : list op) : store := foldl apply_op init ops.

(** Every session refers to a dict object, and no two users to the
    same one. *)
Definition well_formed (st : store) : Prop :=
  (∀ u r, sessions st !! u = Some r → is_Some (objects st !! r))
  ∧ (∀ u u' r, sessions st !! u = Some r → sessions st !! u' = Some r →
               u = u').

End UserSession.

(** ** handlers.py: what the conversation does with the session

    The handlers are followed up to their [return]; the messages they
    send are left out, and each [await] on the Telegram API is taken to
    return. *)

Module Conversation.
Import UserSession Validate Handlers.

(** The conversation states. *)
Inductive route : Type :=
| START_ROUTES
| AWAITING_DOMAIN
| AWAITING_MODE
| AWAITING_CONFIRMATION
| SCANNING.

Definition CONFIRM_CANCEL : string := "confirm_cancel".

(** [not session] for what [user_session.get] gave: true for [None] and
    for an empty dict. *)
Definition not_session (session : option dict) : bool :=
  match session with
  | None => true
  | Some d => bool_decide (d = ∅)
  end.

(** [receive_domain] on the message [text] of [user_id]; [None] for an
    exception of [validate_domain]. *)
Definition receive_domain (user_id : Z) (text : string) (st : store)
    : option (route * store) :=
  let domain := strip text in
  valid ← validate_domain domain;
  if negb valid then Some (AWAITING_DOMAIN, st)
  else
    let '(session, st) := create user_id st in
    let st := setitem session "domain" (VStr domain) st in
    Some (AWAITING_MODE, st).

(** [select_mode] on the button [data] pressed by [user_id]; [None] for
    the [KeyError] of [session['domain']]. *)
Definition select_mode (user_id : Z) (data : string) (st : store)
    : option (route * store) :=
  let session := session_of user_id st in
  if not_session session then Some (START_ROUTES, st)
  else
    match mode_map data with
    | None => Some (START_ROUTES, st)
    | Some mode =>
        let st := assign user_id "mode" (VStr mode) st in
        d ← session_of user_id st;
        _ ← d !! "domain";
        Some (AWAITING_CONFIRMATION, st)
    end.

(** [confirm_scan] up to the two values it reads from the session and
    hands to [generate_candidates]; [None] when it goes back to the
    start menu instead. *)
Definition confirm_scan_inputs (user_id : Z) (data : string) (st : store)
    : option (value * value) :=
  let session := session_of user_id st in
  if String.eqb data CONFIRM_CANCEL then None
  else if not_session session then None
  else
    d ← session;
    match d !! "domain", d !! "mode" with
    | Some domain, Some mode => Some (domain, mode)
    | _, _ => None
    end.

End Conversation.

(** * Proofs *)

(** ** The primitives on small inputs *)

Example fmt_02d_examples :
  PyStr.fmt_02d 1 = "01" ∧ PyStr.fmt_02d 10 = "10" ∧ PyStr.fmt_02d 20 = "20".
Proof. repeat split. Qed.

Example replace_example :
  PyStr.replace "." "-" "example.co.uk" = "example-co-uk".
Proof. reflexivity. Qed.

Example join_example : PyStr.join "-" ["admin"; "api"; "web"] = "admin-api-web".
Proof. reflexivity. Qed.

Example combinations_example :
  Itertools.combinations [1; 2; 3] 2 = [[1; 2]; [1; 3]; [2; 3]].
Proof. reflexivity. Qed.

Example permutations_example :
  Itertools.permutations [1; 2; 3]
  = [[1; 2; 3]; [1; 3; 2]; [2; 1; 3]; [2; 3; 1]; [3; 1; 2]; [3; 2; 1]].
Proof. reflexivity. Qed.

Example strip_www_examples :
  SubdomainGenerator.strip_www "www.example.com" = "example.com"
  ∧ SubdomainGenerator.strip_www "example.com" = "example.com"
  ∧ SubdomainGenerator.strip_www "www.www.example.com" = "www.example.com".
Proof. repeat split. Qed.

Example domain_pattern_examples :
  Utils.matches_domain_pattern "example.com" = true
  ∧ Utils.matches_domain_pattern "www.example.com" = true
  ∧ Utils.matches_domain_pattern "example" = false
  ∧ Utils.matches_domain_pattern "Example.com" = false
  ∧ Utils.matches_domain_pattern "example.c" = false
  ∧ Utils.matches_domain_pattern "http://example.com" = false.
Proof. repeat split. Qed.

Example isinstance_examples :
  PyExc.isinstance PyExc.NXDOMAIN PyExc.Exception = true
  ∧ PyExc.isinstance PyExc.gaierror PyExc.OSError = true
  ∧ PyExc.isinstance PyExc.UnicodeDecodeError PyExc.ValueError = true
  ∧ PyExc.isinstance PyExc.CancelledError PyExc.Exception = false
  ∧ PyExc.isinstance PyExc.RuntimeError PyExc.OSError = false.
Proof. repeat split. Qed.

(** One scan of five names: one answers HTTPS, one has an address and
    its HTTPS request times out, one is redirected to another host, one
    has a canonical name only, one does not exist. The last two end in
    neither set, and no CNAME query is sent. *)
Example scan_example_network :
  Scanner.scan_subdomains (Scanner.get_scanner_for_mode "normal")
    ScannerSpec.example_network
    {[ "api.example.com"; "old.example.com"; "go.example.com";
       "alias.example.com"; "gone.example.com" ]}
  = {| Scanner.self_after := Scanner.init 20 5;
       Scanner.result :=
         Scanner.Returns
           ({[ "api.example.com"; "go.example.com" ]},
            {[ "api.example.com"; "old.example.com"; "go.example.com" ]});
       Scanner.sent :=
         [ Net.Query "old.example.com" Net.A;
           Net.Head "https://old.example.com" 5;
           Net.Query "gone.example.com" Net.A;
           Net.Query "go.example.com" Net.A;
           Net.Head "https://go.example.com" 5;
           Net.Follow "https://www.example.org/" 5;
           Net.Query "alias.example.com" Net.A;
           Net.Query "api.example.com" Net.A;
           Net.Head "https://api.example.com" 5 ] |}.
Proof. vm_compute. reflexivity. Qed.

(** ** Strings *)

Section StringFacts.

Lemma append_nil_l (b : string) : "" +:+ b = b.
Proof. reflexivity. Qed.

Lemma append_cons (x : ascii) (a b : string) :
  String x a +:+ b = String x (a +:+ b).
Proof. reflexivity. Qed.

Lemma append_assoc (a b c : string) : (a +:+ b) +:+ c = a +:+ (b +:+ c).
Proof.
  induction a as [|x a IH]; [done |].
  rewrite !append_cons. by f_equal.
Qed.

Lemma length_append (a b : string) :
  String.length (a +:+ b) = String.length a + String.length b.
Proof.
  induction a as [|x a IH]; [done |].
  rewrite append_cons. simpl. by f_equal.
Qed.

Lemma append_nonempty_l (a b : string) : a ≠ "" → a +:+ b ≠ "".
Proof. destruct a; [done | by rewrite append_cons]. Qed.

Lemma append_nonempty_r (a b : string) : b ≠ "" → a +:+ b ≠ "".
Proof. destruct a; [done | by rewrite append_cons]. Qed.

Lemma length_nonempty (a : string) : a ≠ "" → 0 < String.length a.
Proof. destruct a; [done | simpl; lia]. Qed.

Lemma startswith_append (p s : string) :
  PyStr.startswith (p +:+ s) p = true.
Proof.
  unfold PyStr.startswith.
  induction p as [|x p IH]; [by destruct s |].
  rewrite append_cons. simpl.
  destruct (ascii_dec x x); [exact IH | done].
Qed.

Lemma slice_from_append (p s : string) :
  PyStr.slice_from (String.length p) (p +:+ s) = s.
Proof.
  induction p as [|x p IH]; [done |].
  rewrite append_cons. exact IH.
Qed.

(** [join] of two or more parts contains the separator. *)
Lemma join_two_or_more (sep a b : string) (rest : list string) :
  PyStr.join sep (a :: b :: rest)
  = a +:+ sep +:+ PyStr.join sep (b :: rest).
Proof. reflexivity. Qed.

End StringFacts.

(** ** itertools: lengths of the generated tuples *)

Section ItertoolsFacts.
Context {A : Type}.
Import Itertools.

Lemma combinations_length (l : list A) : ∀ k c,
  c ∈ combinations l k → length c = k.
Proof.
  induction l as [|x l IH]; intros [|k] c; simpl.
  - intros ->%list_elem_of_singleton. done.
  - intros H. by apply elem_of_nil in H.
  - intros ->%list_elem_of_singleton. done.
  - rewrite elem_of_app. intros [H|H].
    + apply list_elem_of_fmap in H as (c' & -> & Hc').
      simpl. f_equal. by apply IH.
    + by apply IH.
Qed.

Lemma selects_length (l : list A) : ∀ x r,
  (x, r) ∈ selects l → S (length r) = length l.
Proof.
  induction l as [|y l IH]; intros x r; simpl.
  - intros H. by apply elem_of_nil in H.
  - rewrite elem_of_cons. intros [H|H].
    + by inversion H.
    + apply list_elem_of_fmap in H as ([x' r'] & Heq & Hin).
      simpl in Heq. inversion Heq; subst. simpl.
      f_equal. by eapply IH.
Qed.

Lemma arrangements_length (n : nat) : ∀ (l : list A) p,
  p ∈ arrangements n l → length p = n.
Proof.
  induction n as [|n IH]; intros l p; simpl.
  - intros ->%list_elem_of_singleton. done.
  - rewrite list_elem_of_In, in_flat_map.
    intros ([x r] & _ & Hin). simpl in Hin.
    apply list_elem_of_In, list_elem_of_fmap in Hin as (p' & -> & Hp').
    simpl. f_equal. by eapply IH.
Qed.

Lemma permutations_length (l p : list A) :
  p ∈ permutations l → length p = length l.
Proof. apply arrangements_length. Qed.

End ItertoolsFacts.

(** ** Set transformers that keep a property of every element *)

Section Preservation.
Import PySet GeneratorSpec.
Variable P : string → Prop.

Lemma all_in_empty : all_in P ∅.
Proof. intros c Hc. by apply not_elem_of_empty in Hc. Qed.

Lemma preserves_add (c : string) : P c → preserves P (add c).
Proof.
  intros Hc s Hs x. unfold add. rewrite elem_of_union, elem_of_singleton.
  intros [->|Hx]; [done | by apply Hs].
Qed.

Lemma preserves_update (xs : list string) :
  Forall P xs → preserves P (update xs).
Proof.
  intros Hxs s Hs x. unfold update.
  rewrite elem_of_union, elem_of_list_to_set.
  intros [Hx|Hx]; [| by apply Hs].
  by eapply Forall_forall in Hxs.
Qed.

Lemma preserves_seq2 (f g : gset string → gset string) :
  preserves P f → preserves P g → preserves P (f ;> g).
Proof. intros Hf Hg s Hs. unfold seq2. by apply Hg, Hf. Qed.

Lemma preserves_id : preserves P id.
Proof. by intros s Hs. Qed.

Lemma preserves_for_each {A} (xs : list A)
    (body : A → gset string → gset string) :
  (∀ x, x ∈ xs → preserves P (body x)) → preserves P (for_each xs body).
Proof.
  unfold for_each.
  induction xs as [|x xs IH]; intros Hbody s Hs; simpl; [done |].
  apply IH.
  - intros y Hy. apply Hbody. by right.
  - apply Hbody; [by left | done].
Qed.

End Preservation.

(** ** Every candidate is a label in front of the domain *)

Section Subdomains.
Import PyStr PySet Itertools SubdomainGenerator GeneratorSpec.
Variable d : string.

Lemma ends_last : ends_with_dot d ("." +:+ d).
Proof. by exists "". Qed.

Lemma ends_app (a c : string) :
  ends_with_dot d c → ends_with_dot d (a +:+ c).
Proof. intros [front ->]. exists (a +:+ front). by rewrite append_assoc. Qed.

Lemma subdomain_app_nonempty (a c : string) :
  a ≠ "" → ends_with_dot d c → is_subdomain_of d (a +:+ c).
Proof.
  intros Ha [front ->]. exists (a +:+ front). split.
  - by apply append_nonempty_l.
  - by rewrite append_assoc.
Qed.

Lemma subdomain_app (a c : string) :
  is_subdomain_of d c → is_subdomain_of d (a +:+ c).
Proof.
  intros (label & Hl & ->). exists (a +:+ label). split.
  - by apply append_nonempty_r.
  - by rewrite append_assoc.
Qed.

Lemma subdomain_ends (c : string) :
  is_subdomain_of d c → ends_with_dot d c.
Proof. intros (label & _ & ->). by exists label. Qed.

(** A subdomain is strictly longer than its domain. *)
Lemma subdomain_longer (c : string) :
  is_subdomain_of d c → String.length d < String.length c.
Proof.
  intros (label & Hl & ->). apply length_nonempty in Hl.
  rewrite !length_append. simpl. lia.
Qed.

Lemma subdomain_irrefl : ¬ is_subdomain_of d d.
Proof. intros H%subdomain_longer. lia. Qed.

End Subdomains.

(** Membership in a list whose entries are all non-empty. *)
Lemma elem_nonempty (l : list string) (x : string) :
  forallb (λ s, negb (String.eqb s "")) l = true → x ∈ l → x ≠ "".
Proof.
  intros Hall Hx ->. apply list_elem_of_In in Hx.
  rewrite forallb_forall in Hall. by apply Hall in Hx.
Qed.

Ltac nonempty_tac :=
  first [ discriminate
        | match goal with
          | H : ?x ∈ ?l |- ?x ≠ _ => exact (elem_nonempty l x eq_refl H)
          end ].

Ltac ends_tac :=
  first [ apply ends_last | apply ends_app; ends_tac ].

Ltac sub_tac :=
  first [ apply subdomain_app_nonempty; [nonempty_tac | ends_tac]
        | apply subdomain_app; sub_tac ].

Ltac pres_tac :=
  repeat lazymatch goal with
         | |- GeneratorSpec.preserves _ (PySet.seq2 _ _) =>
             apply preserves_seq2
         | |- GeneratorSpec.preserves _ (PySet.add _) =>
             apply preserves_add; sub_tac
         | |- GeneratorSpec.preserves _ (PySet.for_each _ _) =>
             apply preserves_for_each; intros ? ?
         end.

Section GeneratorFacts.
Import PyStr PySet Itertools SubdomainGenerator GeneratorSpec.
Variable d : string.

Lemma base_candidates_subdomains :
  Forall (is_subdomain_of d) (base_candidates d).
Proof.
  unfold base_candidates.
  repeat (apply Forall_cons_2; [sub_tac |]). apply Forall_nil_2.
Qed.

Lemma special_patterns_subdomains :
  Forall (is_subdomain_of d) (special_patterns d).
Proof.
  unfold special_patterns.
  repeat (apply Forall_cons_2; [sub_tac |]). apply Forall_nil_2.
Qed.

Lemma common_prefixes_preserve :
  preserves (is_subdomain_of d)
    (for_each COMMON_PREFIXES (λ prefix, add (prefix +:+ "." +:+ d))).
Proof. pres_tac. Qed.

Lemma normal_branch_preserves :
  preserves (is_subdomain_of d) (normal_branch d).
Proof. unfold normal_branch. pres_tac. Qed.

Lemma medium_branch_preserves :
  preserves (is_subdomain_of d) (medium_branch d).
Proof. unfold medium_branch. pres_tac. Qed.

Lemma ultimate_branch_preserves :
  preserves (is_subdomain_of d) (ultimate_branch d).
Proof.
  unfold ultimate_branch. pres_tac.
  apply preserves_update, special_patterns_subdomains.
Qed.

End GeneratorFacts.

Section GeneratorTheorems.
Import PyStr PySet Itertools SubdomainGenerator GeneratorSpec.

Lemma range_lower (a b i : nat) : i ∈ range a b → (a ≤ i)%nat.
Proof. unfold range. rewrite elem_of_seq. lia. Qed.

(** A hyphen-joined arrangement of two or more words is not empty. *)
Lemma join_arrangement_nonempty (i : nat) (combo perm : list string) :
  (2 ≤ i)%nat →
  combo ∈ combinations common_words i →
  perm ∈ permutations combo →
  join "-" perm ≠ "".
Proof.
  intros Hi Hcombo Hperm.
  apply combinations_length in Hcombo.
  apply permutations_length in Hperm.
  destruct perm as [|a [|b rest]]; simpl in Hperm; [lia | lia |].
  rewrite join_two_or_more.
  apply append_nonempty_r, append_nonempty_l. discriminate.
Qed.

Lemma permutation_block_preserves (d mode : string) :
  preserves (is_subdomain_of d) (permutation_block d mode).
Proof.
  unfold permutation_block.
  apply preserves_for_each. intros i Hi%range_lower.
  apply preserves_for_each. intros combo Hcombo.
  apply preserves_for_each. intros perm Hperm.
  destruct (_ || _); [| apply preserves_id].
  apply preserves_add, subdomain_app_nonempty; [| apply ends_last].
  by eapply join_arrangement_nonempty.
Qed.

(** Whatever the mode string, every candidate is a non-empty label, a
    dot, and the domain after removal of one leading [www.]. *)
Lemma generate_candidates_all_subdomains (domain mode : string) :
  all_in (is_subdomain_of (strip_www domain))
    (generate_candidates domain mode).
Proof.
  unfold generate_candidates.
  set (d := strip_www domain).
  assert (H1 : all_in (is_subdomain_of d)
                 (update (base_candidates d) ∅)).
  { apply preserves_update, all_in_empty. apply base_candidates_subdomains. }
  apply common_prefixes_preserve in H1.
  set (c1 := for_each COMMON_PREFIXES _ _) in *.
  assert (H2 : all_in (is_subdomain_of d)
                 (if String.eqb mode "normal" then normal_branch d c1
                  else if String.eqb mode "medium" then medium_branch d c1
                  else if String.eqb mode "ultimate"
                       then ultimate_branch d c1
                  else c1)).
  { destruct (String.eqb mode "normal");
      [by apply normal_branch_preserves |].
    destruct (String.eqb mode "medium");
      [by apply medium_branch_preserves |].
    destruct (String.eqb mode "ultimate");
      [by apply ultimate_branch_preserves | done]. }
  destruct (existsb _ _); [| done].
  by apply permutation_block_preserves.
Qed.

(** The generator only looks at the domain once [www.] is removed. *)
Lemma generate_candidates_strip_www (domain domain' mode : string) :
  strip_www domain = strip_www domain' →
  generate_candidates domain mode = generate_candidates domain' mode.
Proof. unfold generate_candidates. by intros ->. Qed.

Lemma strip_www_prepended (domain : string) :
  strip_www ("www." +:+ domain) = domain.
Proof.
  unfold strip_www. rewrite startswith_append.
  exact (slice_from_append "www." domain).
Qed.

Lemma strip_www_id (domain : string) :
  startswith domain "www." = false → strip_www domain = domain.
Proof. unfold strip_www. by intros ->. Qed.

End GeneratorTheorems.

Section GeneratorClaims.
Import PyStr PySet Itertools SubdomainGenerator GeneratorSpec.

(** A subdomain has at least two characters more than its domain. *)
Lemma subdomain_length (d c : string) :
  is_subdomain_of d c → (String.length d + 2 ≤ String.length c)%nat.
Proof.
  intros (label & Hl & ->). apply length_nonempty in Hl.
  rewrite !length_append. simpl. lia.
Qed.

(** Membership of several strings at once, decided by evaluation. *)
Lemma members_by_evaluation (G : gset string) (xs : list string) :
  all_members G xs = true → Forall (λ x, x ∈ G) xs.
Proof.
  unfold all_members. rewrite forallb_forall, Forall_forall.
  intros H x Hx. apply list_elem_of_In in Hx.
  by apply H, bool_decide_eq_true in Hx.
Qed.

Lemma members_example_normal :
  Forall (λ x, x ∈ generate_candidates "example.com" "normal")
    [ "www.example.com"; "api.example.com"; "dev-web.example.com";
      "mail.example.com" ].
Proof. apply members_by_evaluation. vm_compute. reflexivity. Qed.

Lemma member_example_normal (x : string) :
  x ∈ [ "www.example.com"; "api.example.com"; "dev-web.example.com";
        "mail.example.com" ] →
  x ∈ generate_candidates "example.com" "normal".
Proof.
  intros Hx. pose proof members_example_normal as H.
  rewrite Forall_forall in H. by apply H.
Qed.

Lemma domain_not_candidate (domain mode : string) :
  strip_www domain ∉ generate_candidates domain mode.
Proof.
  intros H%generate_candidates_all_subdomains.
  by apply subdomain_irrefl in H.
Qed.

(** C3 as stated fails at the valid domain [www.example.com]: that
    domain is itself returned, and [mail.example.com] is returned
    although it does not end with [.www.example.com]. *)
Lemma generate_candidates_www_domain_breaks_suffix :
  Domain "www.example.com"
  ∧ "www.example.com" ∈ generate_candidates "www.example.com" "normal"
  ∧ "mail.example.com" ∈ generate_candidates "www.example.com" "normal"
  ∧ ¬ ends_with_dot "www.example.com" "mail.example.com".
Proof.
  rewrite (generate_candidates_strip_www "www.example.com" "example.com")
    by reflexivity.
  split; [reflexivity |].
  split; [apply member_example_normal; left |].
  split; [apply member_example_normal; do 3 right; left |].
  intros [front Heq].
  assert (Hlen : String.length "mail.example.com"
                 = String.length (front +:+ "." +:+ "www.example.com"))
    by (by rewrite <- Heq).
  rewrite !length_append in Hlen. simpl in Hlen.
  destruct front as [|x front]; [discriminate | simpl in Hlen; lia].
Qed.

(** C7 (as amended). For every domain [d] that does not itself start
    with [www.], and every mode [m], [generate_candidates ("www." + d) m]
    equals [generate_candidates d m]. *)
Theorem generate_candidates_leading_www (d m : string) :
  startswith d "www." = false →
  generate_candidates ("www." +:+ d) m = generate_candidates d m.
Proof.
  intros Hd. apply generate_candidates_strip_www.
  by rewrite strip_www_prepended, strip_www_id.
Qed.

Lemma generate_candidates_leading_www_example :
  generate_candidates "www.example.com" "normal"
  = generate_candidates "example.com" "normal".
Proof.
  apply (generate_candidates_leading_www "example.com" "normal").
  reflexivity.
Defined.

(** C7 as stated fails when [d] itself starts with [www.]: only one
    [www.] is removed. *)
Lemma generate_candidates_double_www_differs :
  generate_candidates ("www." +:+ "www.example.com") "normal"
  ≠ generate_candidates "www.example.com" "normal".
Proof.
  intros Heq.
  assert (H : "mail.example.com"
              ∈ generate_candidates "www.example.com" "normal").
  { rewrite (generate_candidates_strip_www "www.example.com" "example.com")
      by reflexivity.
    apply member_example_normal. do 3 right. left. }
  rewrite <- Heq in H.
  apply generate_candidates_all_subdomains in H.
  rewrite strip_www_prepended in H.
  apply subdomain_length in H. simpl in H. lia.
Qed.

(** C8. [generate_candidates("example.com", "normal")] contains
    [www.example.com], [api.example.com] and [dev-web.example.com],
    and does not contain [example.com]. *)
Theorem generate_candidates_example_com_normal :
  "www.example.com" ∈ generate_candidates "example.com" "normal"
  ∧ "api.example.com" ∈ generate_candidates "example.com" "normal"
  ∧ "dev-web.example.com" ∈ generate_candidates "example.com" "normal"
  ∧ "example.com" ∉ generate_candidates "example.com" "normal".
Proof.
  split; [apply member_example_normal; left |].
  split; [apply member_example_normal; right; left |].
  split; [apply member_example_normal; do 2 right; left |].
  exact (domain_not_candidate "example.com" "normal").
Qed.

End GeneratorClaims.

(** ** The two per-candidate checks *)

Section Checks.
Import PyExc Net Coro Scanner ScannerSpec.
Variables (self : SubdomainScanner) (net : network).

(** The tuple of [resolve_dns]'s first handler cannot be evaluated:
    its third expression names an attribute the module does not have. *)
Lemma resolve_handler_fails :
  evaluate [asyncresolver_attribute "NXDOMAIN";
            asyncresolver_attribute "NoAnswer";
            asyncresolver_attribute "Timeout";
            Some DNSException; Some Exception] = None.
Proof. reflexivity. Qed.

Lemma bare_except_catches (e : exn_class) :
  caught_by [BaseException] e = true.
Proof. by destruct e. Qed.

Lemma resolve_dns_unfold (subdomain : string) :
  resolve_dns self subdomain net =
  ([Query subdomain A],
   match resolve net subdomain A with
   | Answer => inl true
   | LookupRaises _ => inr AttributeError
   end).
Proof.
  unfold resolve_dns, try_except_lookup. unfold mbind, coro_bind, bind.
  unfold await_resolve at 1.
  destruct (resolve net subdomain A) as [|e]; [done |].
  by rewrite resolve_handler_fails.
Qed.

Lemma check_https_unfold (subdomain : string) :
  check_https self subdomain net =
  (Head ("https://" +:+ subdomain) (timeout self)
     :: ((λ u, Follow u (timeout self))
           <$> redirects (head net ("https://" +:+ subdomain))),
   match final (head net ("https://" +:+ subdomain)) with
   | Response status => inl (status <? 400)%Z
   | HeadRaises e =>
       if caught_by
            [ClientError; TimeoutError; gaierror; OSError;
             UnicodeDecodeError] e
       then inl false
       else inr e
   end).
Proof.
  unfold check_https, try_except, mbind, coro_bind, bind, await_head.
  destruct (final (head net _)) as [status|e].
  - simpl. by rewrite app_nil_r.
  - destruct (caught_by _ e); simpl; by rewrite ?app_nil_r.
Qed.

(** [check_https] sends the requests of one [session.head] call,
    whatever comes back. *)
Lemma check_https_requests (subdomain : string) :
  (check_https self subdomain net).1
  = Head ("https://" +:+ subdomain) (timeout self)
      :: ((λ u, Follow u (timeout self))
            <$> redirects (head net ("https://" +:+ subdomain))).
Proof. by rewrite check_https_unfold. Qed.

(** [resolve_dns] returns [True] exactly when the address lookup
    answers. *)
Lemma resolves_spec (subdomain : string) :
  resolves self net subdomain = true ↔ resolve net subdomain A = Answer.
Proof.
  unfold resolves. rewrite resolve_dns_unfold. simpl.
  by destruct (resolve net subdomain A).
Qed.

(** [check_https] returns [True] exactly when the call ends with a
    response of a status below 400. *)
Lemma answers_https_spec (subdomain : string) :
  answers_https self net subdomain = true ↔
  ∃ status, final (head net ("https://" +:+ subdomain)) = Response status
            ∧ (status < 400)%Z.
Proof.
  unfold answers_https. rewrite check_https_unfold. simpl.
  destruct (final (head net _)) as [status|e].
  - destruct (status <? 400)%Z eqn:Hlt.
    + apply Z.ltb_lt in Hlt. split; [eauto | done].
    + apply Z.ltb_ge in Hlt. split; [done |].
      intros (status' & [= <-] & H). lia.
  - split; [| by intros (? & ? & _)].
    by destruct e.
Qed.

End Checks.

Section SimpleClaims.
Import PyExc Net Coro Scanner ScannerSpec.

(** C6 (fails on the code). [alias.example.com] has no address and
    has a canonical name. The claim has [resolve_dns] go on to the
    CNAME lookup, return [True] and raise nothing; the code sends the
    address query only and raises [AttributeError]: the handler that
    holds the fallback names [dns.asyncresolver.Timeout], which does
    not exist. *)
Theorem resolve_dns_raises_instead_of_falling_back :
  resolve example_network "alias.example.com" A = LookupRaises NoAnswer
  ∧ resolve example_network "alias.example.com" CNAME = Answer
  ∧ resolve_dns (init 20 5) "alias.example.com" example_network
    = ([Query "alias.example.com" A], inr AttributeError).
Proof. repeat split. Qed.

(** A cancellation delivered at the address lookup does not leave
    [resolve_dns] as such either. *)
Lemma resolve_dns_cancelled (self : SubdomainScanner) :
  resolve_dns self "x.example.com" cancelling_network
  = ([Query "x.example.com" A], inr AttributeError).
Proof. reflexivity. Qed.

(** C10. Every mode string other than ["normal"] and ["medium"] gets
    the scanner with concurrency 50 and timeout 10. *)
Theorem get_scanner_for_mode_default (mode : string) :
  mode ≠ "normal" → mode ≠ "medium" →
  get_scanner_for_mode mode = init 50 10
  ∧ concurrency (get_scanner_for_mode mode) = 50%Z
  ∧ timeout (get_scanner_for_mode mode) = 10%Z.
Proof.
  intros Hn%String.eqb_neq Hm%String.eqb_neq.
  unfold get_scanner_for_mode. by rewrite Hn, Hm.
Qed.

Lemma get_scanner_for_mode_default_example :
  get_scanner_for_mode "turbo" = init 50 10
  ∧ concurrency (get_scanner_for_mode "turbo") = 50%Z
  ∧ timeout (get_scanner_for_mode "turbo") = 10%Z.
Proof.
  apply (get_scanner_for_mode_default "turbo"); discriminate.
Defined.

Lemma scan_subdomains_self (self : SubdomainScanner) (net : network)
    (subdomains : gset string) :
  self_after (scan_subdomains self net subdomains) = self.
Proof. unfold scan_subdomains. by destruct (Semaphore _). Qed.

(** C9 (as amended). [scan_subdomains] leaves the scanner as it was;
    [quick_scan] leaves the timeout (and the resolver's timeouts) as
    they were and sets the concurrency to 20, so it keeps the
    concurrency only of a scanner that already had 20. *)
Theorem scan_operations_frame (self : SubdomainScanner) (net : network)
    (subdomains : gset string) :
  self_after (scan_subdomains self net subdomains) = self
  ∧ timeout (self_after (quick_scan self net subdomains)) = timeout self
  ∧ resolver_timeout (self_after (quick_scan self net subdomains))
    = resolver_timeout self
  ∧ resolver_lifetime (self_after (quick_scan self net subdomains))
    = resolver_lifetime self
  ∧ concurrency (self_after (quick_scan self net subdomains)) = 20%Z.
Proof.
  split; [apply scan_subdomains_self |].
  unfold quick_scan. by rewrite scan_subdomains_self.
Qed.

(** C9 as stated fails: after [quick_scan] the scanner made for mode
    ["medium"] has concurrency 20, not 30. *)
Lemma quick_scan_changes_concurrency :
  concurrency (get_scanner_for_mode "medium") = 30%Z
  ∧ concurrency
      (self_after
         (quick_scan (get_scanner_for_mode "medium") example_network
            {[ "api.example.com" ]})) = 20%Z.
Proof.
  split; [reflexivity |].
  unfold quick_scan. by rewrite scan_subdomains_self.
Qed.

End SimpleClaims.

(** ** The event loop: one task at a time *)

Section Sequential.
Import PyExc Net Coro Scanner ScannerSpec.
Variables (self : SubdomainScanner) (net : network).

Lemma loop_state_eq (st st' : loop_state) :
  semaphore st = semaphore st' →
  tasks st = tasks st' →
  dns_resolved st = dns_resolved st' →
  https_alive st = https_alive st' →
  requests st = requests st' →
  st = st'.
Proof. destruct st, st'; simpl; by intros -> -> -> -> ->. Qed.

Lemma fire_pending (subdomain : string) (st : loop_state) :
  tasks st !! subdomain = Some Pending →
  (0 < semaphore st)%Z →
  fire self net subdomain st
  = Some {| semaphore := semaphore st - 1;
            tasks := <[subdomain := Resolving]> (tasks st);
            dns_resolved := dns_resolved st;
            https_alive := https_alive st;
            requests := requests st |}.
Proof.
  intros Hpending Hsem. unfold fire. rewrite Hpending.
  by rewrite (proj2 (Z.ltb_lt _ _) Hsem).
Qed.

Lemma fire_resolving (subdomain : string) (st : loop_state) :
  tasks st !! subdomain = Some Resolving →
  fire self net subdomain st
  = Some (if resolves self net subdomain
          then {| semaphore := semaphore st;
                  tasks := <[subdomain := Probing]> (tasks st);
                  dns_resolved := {[subdomain]} ∪ dns_resolved st;
                  https_alive := https_alive st;
                  requests :=
                    requests st ++ (resolve_dns self subdomain net).1 |}
          else finish (task_exception self net subdomain) subdomain
                 (resolve_dns self subdomain net).1
                 (dns_resolved st) (https_alive st) st).
Proof.
  intros H. unfold fire, resolves, task_exception. rewrite H.
  by destruct (resolve_dns self subdomain net) as [sent1 [[|]|e]].
Qed.

Lemma fire_probing (subdomain : string) (st : loop_state) :
  tasks st !! subdomain = Some Probing →
  resolves self net subdomain = true →
  fire self net subdomain st
  = Some (finish (task_exception self net subdomain) subdomain
            (check_https self subdomain net).1
            (dns_resolved st)
            (if answers_https self net subdomain
             then {[subdomain]} ∪ https_alive st
             else https_alive st)
            st).
Proof.
  intros H. unfold fire, resolves, answers_https, task_exception.
  rewrite H.
  destruct (resolve_dns self subdomain net) as [sent1 [[|]|e]];
    try discriminate.
  intros _. simpl.
  by destruct (check_https self subdomain net) as [sent2 [[|]|e]].
Qed.

Lemma fire_finished (subdomain : string) (st : loop_state)
    (exc : option exn_class) :
  tasks st !! subdomain = Some (Finished exc) →
  fire self net subdomain st = None.
Proof. intros H. unfold fire. by rewrite H. Qed.

Lemma fire_if_able_Some (subdomain : string) (st st' : loop_state) :
  fire self net subdomain st = Some st' →
  fire_if_able self net subdomain st = st'.
Proof. unfold fire_if_able. by intros ->. Qed.

Lemma fire_if_able_None (subdomain : string) (st : loop_state) :
  fire self net subdomain st = None →
  fire_if_able self net subdomain st = st.
Proof. unfold fire_if_able. by intros ->. Qed.

(** Rewrites the innermost [fire_if_able] with the outcome of its
    [fire], found by [tac]. *)
Ltac fire_inner tac :=
  match goal with
  | |- context [fire_if_able _ _ ?s ?X] =>
      lazymatch X with
      | context [fire_if_able] => fail
      | _ => idtac
      end;
      first [ erewrite (fire_if_able_Some s X) by tac
            | erewrite (fire_if_able_None s X) by tac ]
  end.

(** With a free slot, a pending task runs through to its end. *)
Lemma run_task_spec (subdomain : string) (st : loop_state) :
  tasks st !! subdomain = Some Pending →
  (0 < semaphore st)%Z →
  run_task self net subdomain st = after_task self net subdomain st.
Proof.
  intros Hpending Hsem. unfold run_task.
  fire_inner ltac:(by apply fire_pending).
  fire_inner ltac:(apply fire_resolving; simpl; apply lookup_insert_eq).
  unfold after_task.
  destruct (resolves self net subdomain) eqn:Hr; simpl.
  - fire_inner
      ltac:(apply fire_probing; [simpl; apply lookup_insert_eq | done]).
    apply loop_state_eq; simpl;
      rewrite ?insert_insert_eq, <- ?app_assoc; try done; lia.
  - fire_inner
      ltac:(eapply fire_finished; simpl; apply lookup_insert_eq).
    apply loop_state_eq; simpl;
      rewrite ?insert_insert_eq, ?app_nil_r; try done; lia.
Qed.

(** Without a free slot, a pending task stays where it is. *)
Lemma run_task_blocked (subdomain : string) (st : loop_state) :
  tasks st !! subdomain = Some Pending →
  (semaphore st ≤ 0)%Z →
  run_task self net subdomain st = st.
Proof.
  intros Hpending Hsem.
  assert (Hfire : fire self net subdomain st = None).
  { unfold fire. rewrite Hpending.
    by rewrite (proj2 (Z.ltb_ge _ _) Hsem). }
  unfold run_task. by rewrite !(fire_if_able_None _ _ Hfire).
Qed.

Lemma run_all_blocked (order : list string) (st : loop_state) :
  (∀ s, s ∈ order → tasks st !! s = Some Pending) →
  (semaphore st ≤ 0)%Z →
  run_all self net order st = st.
Proof.
  intros Hpending Hsem. unfold run_all.
  induction order as [|s order IH]; simpl; [done |].
  rewrite run_task_blocked; [| apply Hpending; by left | done].
  apply IH. intros s' Hs'. apply Hpending. by right.
Qed.

(** With a free slot at the start, the tasks of [order], all pending
    and pairwise distinct, all run to their end. *)
Lemma run_all_spec (order : list string) : ∀ st : loop_state,
  NoDup order →
  (∀ s, s ∈ order → tasks st !! s = Some Pending) →
  (0 < semaphore st)%Z →
  semaphore (run_all self net order st) = semaphore st
  ∧ (∀ s, s ∈ order →
       tasks (run_all self net order st) !! s
       = Some (Finished (task_exception self net s)))
  ∧ (∀ s, s ∉ order →
       tasks (run_all self net order st) !! s = tasks st !! s)
  ∧ (∀ s, s ∈ dns_resolved (run_all self net order st) ↔
       (s ∈ order ∧ resolves self net s = true) ∨ s ∈ dns_resolved st)
  ∧ (∀ s, s ∈ https_alive (run_all self net order st) ↔
       (s ∈ order ∧ resolves self net s = true
        ∧ answers_https self net s = true) ∨ s ∈ https_alive st).
Proof.
  unfold run_all.
  induction order as [|x order IH]; intros st Hnodup Hpending Hsem; simpl.
  { split; [done |]. split; [by intros s Hs%elem_of_nil |].
    split; [done |].
    split; intros s; (split; [by right |]);
      by intros [[[]%elem_of_nil _]|H]. }
  apply NoDup_cons in Hnodup as [Hx Hnodup].
  rewrite run_task_spec; [| apply Hpending; by left | done].
  destruct (IH (after_task self net x st)) as (H1 & H2 & H3 & H4 & H5);
    [done | | done |].
  { intros s Hs. simpl. rewrite lookup_insert_ne by (by intros ->).
    apply Hpending. by right. }
  clear IH Hpending Hsem Hnodup.
  split; [done |]. split; [| split; [| split]].
  - intros s [->|Hs]%elem_of_cons; [| by apply H2].
    rewrite H3 by done. simpl. by rewrite lookup_insert_eq.
  - intros s [Hne Hs]%not_elem_of_cons.
    rewrite H3 by done. simpl. by rewrite lookup_insert_ne.
  - intros s. rewrite H4, elem_of_cons. simpl.
    clear H1 H2 H3 H4 H5 Hx.
    destruct (resolves self net x) eqn:Hr.
    + rewrite elem_of_union, elem_of_singleton.
      split; [intros [[? ?]|[->|?]]; auto | intros [[[->|?] ?]|?]; auto].
    + split; [intros [[? ?]|?]; auto | intros [[[->|?] ?]|?]; auto].
      congruence.
  - intros s. rewrite H5, elem_of_cons. simpl.
    clear H1 H2 H3 H4 H5 Hx.
    destruct (resolves self net x) eqn:Hr;
      destruct (answers_https self net x) eqn:Ha; simpl;
      rewrite ?elem_of_union, ?elem_of_singleton;
      (split;
       [ intros [(? & ? & ?)|H]; [by auto |];
         try (destruct H as [->|H]); auto
       | intros [([->|?] & ? & ?)|?]; auto; congruence ]).
Qed.

End Sequential.

(** ** What [scan_subdomains] returns *)

Section ScanResult.
Import PyExc Net Coro Scanner ScannerSpec.
Variables (self : SubdomainScanner) (net : network).

Lemma start_lookup_elem (value : Z) (subdomains : gset string)
    (s : string) :
  s ∈ subdomains → tasks (start value subdomains) !! s = Some Pending.
Proof. intros Hs. simpl. by apply lookup_gset_to_gmap_Some. Qed.

Lemma start_lookup_not_elem (value : Z) (subdomains : gset string)
    (s : string) :
  s ∉ subdomains → tasks (start value subdomains) !! s = None.
Proof. intros Hs. simpl. by apply lookup_gset_to_gmap_None. Qed.

Lemma all_finished_true (st : loop_state) :
  all_finished st = true ↔
  ∀ s t, tasks st !! s = Some t → is_finished t = true.
Proof. unfold all_finished. by rewrite bool_decide_eq_true. Qed.

Lemma all_finished_false (st : loop_state) (s : string) (t : task_state) :
  tasks st !! s = Some t → is_finished t = false →
  all_finished st = false.
Proof.
  intros Hs Ht. apply not_true_is_false. rewrite all_finished_true.
  intros H. apply H in Hs. congruence.
Qed.

Lemma Semaphore_nonnegative (value : Z) :
  (0 ≤ value)%Z → Semaphore value = inl value.
Proof.
  intros H. unfold Semaphore. by rewrite (proj2 (Z.ltb_ge _ _) H).
Qed.

Lemma Semaphore_negative (value : Z) :
  (value < 0)%Z → Semaphore value = inr ValueError.
Proof.
  intros H. unfold Semaphore. by rewrite (proj2 (Z.ltb_lt _ _) H).
Qed.

(** With a positive concurrency the call returns, first the
    HTTPS-alive candidates, then the DNS-resolved ones. *)
Lemma scan_subdomains_positive (subdomains : gset string) :
  (0 < concurrency self)%Z →
  result (scan_subdomains self net subdomains)
  = Returns (https_alive_of self net subdomains,
             dns_resolved_of self net subdomains).
Proof.
  intros Hc. unfold scan_subdomains.
  rewrite Semaphore_nonnegative by lia. simpl.
  destruct (run_all_spec self net (elements subdomains)
              (start (concurrency self) subdomains))
    as (_ & Hfin & Hother & Hdns & Hhttps).
  { apply NoDup_elements. }
  { intros s Hs%elem_of_elements. by apply start_lookup_elem. }
  { done. }
  set (st := run_all _ _ _ _) in *.
  assert (Hall : all_finished st = true).
  { apply all_finished_true. intros s t Hs.
    destruct (decide (s ∈ subdomains)) as [Hin|Hout].
    - rewrite Hfin in Hs by (by apply elem_of_elements).
      by injection Hs as <-.
    - rewrite Hother in Hs by (by rewrite elem_of_elements).
      by rewrite start_lookup_not_elem in Hs. }
  rewrite Hall. f_equal. f_equal.
  - apply set_eq. intros s.
    rewrite Hhttps. unfold https_alive_of.
    rewrite elem_of_filter, elem_of_elements. simpl.
    rewrite elem_of_empty. tauto.
  - apply set_eq. intros s.
    rewrite Hdns. unfold dns_resolved_of.
    rewrite elem_of_filter, elem_of_elements. simpl.
    rewrite elem_of_empty. tauto.
Qed.

(** With concurrency 0 no task ever gets a slot. *)
Lemma scan_subdomains_zero (subdomains : gset string) :
  concurrency self = 0%Z →
  scan_subdomains self net subdomains
  = {| self_after := self;
       result := if bool_decide (subdomains = ∅)
                 then Returns (∅, ∅) else Blocks;
       sent := [] |}.
Proof.
  intros Hc. unfold scan_subdomains. rewrite Hc. simpl.
  rewrite run_all_blocked; [| | simpl; lia].
  2: { intros s Hs%elem_of_elements. by apply start_lookup_elem. }
  f_equal. case_bool_decide as Hempty.
  - subst. by rewrite (proj2 (all_finished_true _)).
  - apply set_choose_L in Hempty as [s Hs].
    by rewrite (all_finished_false _ s Pending)
      by (by try apply start_lookup_elem).
Qed.

Lemma scan_subdomains_negative (subdomains : gset string) :
  (concurrency self < 0)%Z →
  scan_subdomains self net subdomains
  = {| self_after := self; result := Raises ValueError; sent := [] |}.
Proof.
  intros Hc. unfold scan_subdomains.
  by rewrite Semaphore_negative.
Qed.

(** From the start state with no slot, no task can run at all. *)
Lemma start_zero_stuck (subdomains : gset string) (st' : loop_state) :
  ¬ step self net (start 0 subdomains) st'.
Proof.
  intros [s Hfire]. unfold fire in Hfire.
  destruct (decide (s ∈ subdomains)) as [Hin|Hout].
  - by rewrite start_lookup_elem in Hfire.
  - by rewrite start_lookup_not_elem in Hfire.
Qed.

(** The two sets in terms of the network: a candidate is DNS-resolved
    when its address lookup answers, and HTTPS-alive when moreover its
    [session.head] call ends with a status below 400. *)
Lemma dns_resolved_of_spec (subdomains : gset string) (s : string) :
  s ∈ dns_resolved_of self net subdomains ↔
  s ∈ subdomains ∧ resolve net s A = Answer.
Proof.
  unfold dns_resolved_of. rewrite elem_of_filter, resolves_spec. tauto.
Qed.

Lemma https_alive_of_spec (subdomains : gset string) (s : string) :
  s ∈ https_alive_of self net subdomains ↔
  s ∈ subdomains ∧ resolve net s A = Answer
  ∧ ∃ status, final (head net ("https://" +:+ s)) = Response status
              ∧ (status < 400)%Z.
Proof.
  unfold https_alive_of.
  rewrite elem_of_filter, resolves_spec, answers_https_spec. tauto.
Qed.

Lemma https_alive_of_subset (subdomains : gset string) :
  https_alive_of self net subdomains ⊆ dns_resolved_of self net subdomains.
Proof.
  intros s. unfold https_alive_of, dns_resolved_of.
  rewrite !elem_of_filter. tauto.
Qed.

End ScanResult.

(** ** The event loop under every schedule *)

Section Schedules.
Import PyExc Net Coro Scanner ScannerSpec.
Variables (self : SubdomainScanner) (net : network).

(** The three ways a task can run. *)
Lemma fire_inv (s : string) (st st' : loop_state) :
  fire self net s st = Some st' →
  (tasks st !! s = Some Pending ∧ (0 < semaphore st)%Z
   ∧ st' = {| semaphore := semaphore st - 1;
              tasks := <[s := Resolving]> (tasks st);
              dns_resolved := dns_resolved st;
              https_alive := https_alive st;
              requests := requests st |})
  ∨ (tasks st !! s = Some Resolving ∧ resolves self net s = true
     ∧ st' = {| semaphore := semaphore st;
                tasks := <[s := Probing]> (tasks st);
                dns_resolved := {[s]} ∪ dns_resolved st;
                https_alive := https_alive st;
                requests := requests st ++ (resolve_dns self s net).1 |})
  ∨ (tasks st !! s = Some Resolving ∧ resolves self net s = false
     ∧ st' = finish (task_exception self net s) s
               (resolve_dns self s net).1
               (dns_resolved st) (https_alive st) st)
  ∨ (tasks st !! s = Some Probing
     ∧ ∃ exc,
         (resolves self net s = true → exc = task_exception self net s)
         ∧ st' = finish exc s (check_https self s net).1
                   (dns_resolved st)
                   (if answers_https self net s
                    then {[s]} ∪ https_alive st
                    else https_alive st)
                   st).
Proof.
  intros Hfire.
  destruct (tasks st !! s) as [[| | |exc]|] eqn:Ht.
  - left. unfold fire in Hfire. rewrite Ht in Hfire.
    destruct (0 <? semaphore st)%Z eqn:Hsem; [| discriminate].
    apply Z.ltb_lt in Hsem. by injection Hfire as <-.
  - rewrite fire_resolving in Hfire by done. injection Hfire as <-.
    destruct (resolves self net s); [right; left | right; right; left];
      done.
  - right. right. right. split; [done |].
    unfold fire in Hfire. rewrite Ht in Hfire.
    unfold answers_https, task_exception, resolves.
    destruct (check_https self s net) as [sent2 [[|]|e]];
      injection Hfire as <-; simpl;
      (eexists; split; [| reflexivity]);
      destruct (resolve_dns self s net) as [sent1 [[|]|e1]]; simpl; done.
  - by rewrite (fire_finished self net _ _ _ Ht) in Hfire.
  - unfold fire in Hfire. by rewrite Ht in Hfire.
Qed.

Lemma task_consistent_ext (st st' : loop_state) (s : string)
    (t : task_state) :
  (s ∈ dns_resolved st' ↔ s ∈ dns_resolved st) →
  (s ∈ https_alive st' ↔ s ∈ https_alive st) →
  task_consistent self net st s t → task_consistent self net st' s t.
Proof.
  intros Hd Hh. unfold task_consistent.
  destruct t; rewrite Hd, Hh; done.
Qed.

(** A step keeps the loop state consistent with the network. *)
Lemma consistent_step (subdomains : gset string) (st st' : loop_state) :
  consistent self net subdomains st →
  step self net st st' →
  consistent self net subdomains st'.
Proof.
  intros (Hdom & Htasks & Hdns & Hhttps) [s Hfire].
  apply fire_inv in Hfire
    as [(Ht & _ & ->)|[(Ht & Hr & ->)|[(Ht & Hr & ->)|(Ht & exc & Hexc & ->)]]];
    pose proof (Htasks s _ Ht) as Hs; simpl in Hs;
    (assert (Hin : s ∈ subdomains)
       by (rewrite <- Hdom; apply elem_of_dom; eauto));
    (split; [simpl; rewrite dom_insert_lookup_L; eauto |]);
    (split; [| split; simpl; intros s';
               rewrite ?elem_of_union, ?elem_of_singleton;
               try destruct (answers_https self net s);
               rewrite ?elem_of_union, ?elem_of_singleton;
               intros; intuition (subst; auto)]);
    intros s' t'; simpl;
    (destruct (decide (s' = s)) as [->|Hne];
     [ rewrite lookup_insert_eq; intros [= <-]
     | rewrite lookup_insert_ne by done; intros Hs';
       apply (task_consistent_ext st); [| | by apply Htasks]; simpl;
       try destruct (answers_https self net s);
       rewrite ?elem_of_union, ?elem_of_singleton; intuition congruence ]);
    unfold task_consistent; simpl.
  - done.
  - rewrite elem_of_union, elem_of_singleton. intuition.
  - destruct Hs as [Hd Hh]. split; [done |].
    rewrite Hr. intuition congruence.
  - destruct Hs as (Hr & Hd & Hh). split; [by apply Hexc |].
    rewrite Hr. destruct (answers_https self net s);
      rewrite ?elem_of_union, ?elem_of_singleton; intuition congruence.
Qed.

Lemma consistent_start (subdomains : gset string) (value : Z) :
  consistent self net subdomains (start value subdomains).
Proof.
  split; [simpl; apply dom_gset_to_gmap |].
  split; [| split; simpl; intros s Hs; by apply elem_of_empty in Hs].
  intros s t [_ <-]%lookup_gset_to_gmap_Some.
  simpl. split; apply not_elem_of_empty.
Qed.

Lemma consistent_reachable (subdomains : gset string) (st : loop_state) :
  reachable self net subdomains st →
  consistent self net subdomains st.
Proof.
  unfold reachable. intros Hrtc.
  apply rtc_ind_r with (x := start (concurrency self) subdomains)
                       (P := consistent self net subdomains) in Hrtc;
    [done | apply consistent_start |].
  intros y z _ Hstep Hy. by eapply consistent_step.
Qed.

(** Under a consistent state, what is HTTPS-alive is DNS-resolved. *)
Lemma consistent_subset (subdomains : gset string) (st : loop_state) :
  consistent self net subdomains st →
  https_alive st ⊆ dns_resolved st.
Proof.
  intros (Hdom & Htasks & Hdns & Hhttps) s Hs.
  assert (Hin : s ∈ dom (tasks st)) by (rewrite Hdom; by apply Hhttps).
  apply elem_of_dom in Hin as [t Ht].
  apply Htasks in Ht. destruct t; simpl in Ht.
  - by destruct Ht.
  - by destruct Ht.
  - by destruct Ht as (_ & _ & ?).
  - destruct Ht as (_ & Hd & Hh). apply Hd. by apply Hh.
Qed.

(** Once [gather] is over, the two sets are determined by the network,
    whatever the schedule was. *)
Lemma consistent_finished (subdomains : gset string) (st : loop_state) :
  consistent self net subdomains st →
  all_finished st = true →
  https_alive st = https_alive_of self net subdomains
  ∧ dns_resolved st = dns_resolved_of self net subdomains.
Proof.
  intros (Hdom & Htasks & Hdns & Hhttps) Hfin.
  rewrite all_finished_true in Hfin.
  assert (Hdone : ∀ s, s ∈ subdomains →
            (s ∈ dns_resolved st ↔ resolves self net s = true)
            ∧ (s ∈ https_alive st ↔
               resolves self net s = true
               ∧ answers_https self net s = true)).
  { intros s Hs. rewrite <- Hdom in Hs.
    apply elem_of_dom in Hs as [t Ht].
    pose proof (Hfin _ _ Ht) as Hf. apply Htasks in Ht.
    destruct t; try discriminate. by destruct Ht as (_ & ? & ?). }
  split; apply set_eq; intros s;
    unfold https_alive_of, dns_resolved_of; rewrite elem_of_filter.
  - split.
    + intros Hs. pose proof (Hhttps _ Hs) as Hin.
      destruct (Hdone _ Hin) as [_ Hh]. split; [by apply Hh | done].
    + intros [Hs Hin]. destruct (Hdone _ Hin) as [_ Hh]. by apply Hh.
  - split.
    + intros Hs. pose proof (Hdns _ Hs) as Hin.
      destruct (Hdone _ Hin) as [Hd _]. split; [by apply Hd | done].
    + intros [Hs Hin]. destruct (Hdone _ Hin) as [Hd _]. by apply Hd.
Qed.

End Schedules.

(** ** The semaphore: slots in use, and progress *)

Section SemaphoreAccounting.
Import PyExc Net Coro Scanner ScannerSpec.
Variables (self : SubdomainScanner) (net : network).

(** Moving one task from [t] to [t'] changes the number of slot
    holders by the difference of what the two states hold. *)
Lemma slot_holders_insert (m : gmap string task_state) (s : string)
    (t t' : task_state) :
  m !! s = Some t →
  size (slot_holders (<[s := t']> m)) + slot_count t
  = size (slot_holders m) + slot_count t'.
Proof.
  intros Hs. unfold slot_holders, slot_count.
  destruct (holds_slot t') eqn:Ht'.
  - rewrite map_filter_insert_True by done.
    destruct (holds_slot t) eqn:Ht.
    + rewrite map_size_insert_Some; [done |].
      exists t. by apply map_lookup_filter_Some.
    + rewrite map_size_insert_None; [lia |].
      apply map_lookup_filter_None. right. intros t0 Ht0. simpl.
      rewrite Hs in Ht0. injection Ht0 as <-. by rewrite Ht.
  - rewrite map_filter_insert_False by (simpl; by rewrite Ht').
    rewrite map_filter_delete.
    destruct (holds_slot t) eqn:Ht.
    + assert (Hlook : filter (λ kv : string * task_state,
                         holds_slot kv.2 = true) m !! s = Some t)
        by (by apply map_lookup_filter_Some).
      rewrite map_size_delete, Hlook.
      assert (size (filter (λ kv : string * task_state,
                      holds_slot kv.2 = true) m) ≠ 0)%nat.
      { apply map_size_ne_0_lookup. eauto. }
      lia.
    + rewrite map_size_delete_None; [lia |].
      apply map_lookup_filter_None. right. intros t0 Ht0. simpl.
      rewrite Hs in Ht0. injection Ht0 as <-. by rewrite Ht.
Qed.

(** A step keeps the sum of free and used slots. *)
Lemma slots_step (st st' : loop_state) :
  step self net st st' →
  (semaphore st' + Z.of_nat (in_flight st')
   = semaphore st + Z.of_nat (in_flight st))%Z.
Proof.
  intros [s Hfire]. unfold in_flight.
  apply fire_inv in Hfire
    as [(Ht & _ & ->)|[(Ht & Hr & ->)|[(Ht & Hr & ->)|(Ht & exc & _ & ->)]]];
    simpl;
    match goal with
    | |- context [<[s := ?t']> (tasks st)] =>
        pose proof (slot_holders_insert (tasks st) s _ t' Ht) as H
    end;
    unfold slot_count in H; simpl in H; lia.
Qed.

Lemma slots_start (value : Z) (subdomains : gset string) :
  in_flight (start value subdomains) = 0%nat.
Proof.
  unfold in_flight, slot_holders. simpl.
  apply map_size_empty_iff, map_empty. intros s.
  apply map_lookup_filter_None. right.
  intros t [_ <-]%lookup_gset_to_gmap_Some. simpl. discriminate.
Qed.

(** Under every schedule the free slots and the checks in flight add
    up to the concurrency. *)
Lemma slots_reachable (subdomains : gset string) (st : loop_state) :
  reachable self net subdomains st →
  (semaphore st + Z.of_nat (in_flight st) = concurrency self)%Z.
Proof.
  unfold reachable. intros Hrtc.
  apply rtc_ind_r
    with (x := start (concurrency self) subdomains)
         (P := λ st, (semaphore st + Z.of_nat (in_flight st)
                      = concurrency self)%Z) in Hrtc; [done | |].
  - rewrite slots_start. simpl. lia.
  - intros y z _ Hstep Hy. apply slots_step in Hstep. lia.
Qed.

Lemma semaphore_step_nonnegative (st st' : loop_state) :
  step self net st st' → (0 ≤ semaphore st)%Z → (0 ≤ semaphore st')%Z.
Proof.
  intros [s Hfire] Hsem.
  apply fire_inv in Hfire
    as [(Ht & ? & ->)|[(Ht & Hr & ->)|[(Ht & Hr & ->)|(Ht & exc & _ & ->)]]];
    simpl; lia.
Qed.

Lemma semaphore_reachable_nonnegative (subdomains : gset string)
    (st : loop_state) :
  (0 ≤ concurrency self)%Z →
  reachable self net subdomains st →
  (0 ≤ semaphore st)%Z.
Proof.
  unfold reachable. intros Hc Hrtc.
  apply rtc_ind_r
    with (x := start (concurrency self) subdomains)
         (P := λ st, (0 ≤ semaphore st)%Z) in Hrtc; [done | done |].
  intros y z _ Hstep Hy. by eapply semaphore_step_nonnegative.
Qed.

(** No more checks are in flight than the concurrency allows. *)
Lemma in_flight_bounded (subdomains : gset string) (st : loop_state) :
  (0 ≤ concurrency self)%Z →
  reachable self net subdomains st →
  (Z.of_nat (in_flight st) ≤ concurrency self)%Z.
Proof.
  intros Hc Hreach.
  pose proof (slots_reachable _ _ Hreach).
  pose proof (semaphore_reachable_nonnegative _ _ Hc Hreach). lia.
Qed.

(** With a positive concurrency, as long as some task is not over,
    some task can run: there is no deadlock under any schedule. *)
Lemma progress (subdomains : gset string) (st : loop_state) :
  (0 < concurrency self)%Z →
  reachable self net subdomains st →
  all_finished st = false →
  ∃ st', step self net st st'.
Proof.
  intros Hc Hreach Hnot.
  pose proof (slots_reachable _ _ Hreach) as Hslots.
  pose proof (consistent_reachable _ _ _ _ Hreach)
    as (_ & Htasks & _ & _).
  apply not_true_iff_false in Hnot. rewrite all_finished_true in Hnot.
  destruct (map_choose_or_empty (slot_holders (tasks st)))
    as [(s & t & Hs)|Hempty].
  - apply map_lookup_filter_Some in Hs as [Hs Hholds]. simpl in Hholds.
    destruct t; try discriminate.
    + eexists. exists s. by apply fire_resolving.
    + eexists. exists s. apply fire_probing; [done |].
      apply Htasks in Hs. by destruct Hs.
  - assert (Hsem : (0 < semaphore st)%Z).
    { unfold in_flight in Hslots. rewrite Hempty, map_size_empty in Hslots.
      lia. }
    destruct (decide (map_Exists (λ _ t, t = Pending) (tasks st)))
      as [(s & t & Hs & ->)|Hno].
    { eexists. exists s. by apply fire_pending. }
    destruct Hnot. intros s t Hs.
    destruct t; [| | | done].
    + destruct Hno. by exists s, Pending.
    + assert (H : slot_holders (tasks st) !! s = Some Resolving)
        by (by apply map_lookup_filter_Some).
      by rewrite Hempty in H.
    + assert (H : slot_holders (tasks st) !! s = Some Probing)
        by (by apply map_lookup_filter_Some).
      by rewrite Hempty in H.
Qed.

End SemaphoreAccounting.

(** ** Every schedule is finite, and the sequential one is a schedule *)

Section Termination.
Import PyExc Net Coro Scanner ScannerSpec.
Variables (self : SubdomainScanner) (net : network).

Lemma work_insert_fresh (m : gmap string task_state) (s : string)
    (t : task_state) :
  m !! s = None → work (<[s := t]> m) = (remaining t + work m)%nat.
Proof.
  intros Hs. unfold work.
  rewrite map_fold_insert_L; [done | | done].
  intros. lia.
Qed.

Lemma work_insert (m : gmap string task_state) (s : string)
    (t t' : task_state) :
  m !! s = Some t →
  (work (<[s := t']> m) + remaining t = work m + remaining t')%nat.
Proof.
  intros Hs.
  rewrite <- (insert_delete_id m s t) at 2 by done.
  rewrite <- (insert_delete_eq m).
  rewrite !work_insert_fresh by apply lookup_delete_eq. lia.
Qed.

Lemma work_start (value : Z) (subdomains : gset string) :
  work (tasks (start value subdomains)) = (3 * size subdomains)%nat.
Proof.
  simpl. induction subdomains as [|s X Hs IH] using set_ind_L.
  - by rewrite gset_to_gmap_empty.
  - rewrite gset_to_gmap_union_singleton.
    rewrite work_insert_fresh by (by apply lookup_gset_to_gmap_None).
    rewrite IH, size_union, size_singleton by set_solver. simpl. lia.
Qed.

(** Each step uses up some of the remaining work. *)
Lemma work_step (st st' : loop_state) :
  step self net st st' →
  (work (tasks st') < work (tasks st))%nat.
Proof.
  intros [s Hfire].
  apply fire_inv in Hfire
    as [(Ht & _ & ->)|[(Ht & Hr & ->)|[(Ht & Hr & ->)|(Ht & exc & _ & ->)]]];
    simpl;
    match goal with
    | |- context [<[s := ?t']> (tasks st)] =>
        pose proof (work_insert (tasks st) s _ t' Ht) as H
    end;
    simpl in H; lia.
Qed.

(** No schedule takes more than three steps per candidate. *)
Lemma schedule_bounded (subdomains : gset string) (n : nat)
    (st : loop_state) :
  nsteps (step self net) n (start (concurrency self) subdomains) st →
  (n + work (tasks st) ≤ 3 * size subdomains)%nat.
Proof.
  intros Hn. rewrite <- (work_start (concurrency self)).
  induction Hn as [st|n st1 st2 st3 Hstep _ IH]; [lia |].
  apply work_step in Hstep. lia.
Qed.

Lemma fire_if_able_rtc (s : string) (st : loop_state) :
  rtc (step self net) st (fire_if_able self net s st).
Proof.
  unfold fire_if_able.
  destruct (fire self net s st) as [st'|] eqn:Hfire; simpl; [| done].
  apply rtc_once. by exists s.
Qed.

Lemma run_task_rtc (s : string) (st : loop_state) :
  rtc (step self net) st (run_task self net s st).
Proof.
  unfold run_task.
  etrans; [apply fire_if_able_rtc |].
  etrans; apply fire_if_able_rtc.
Qed.

(** The sequential schedule is one of the schedules of the loop. *)
Lemma run_all_rtc (order : list string) : ∀ st : loop_state,
  rtc (step self net) st (run_all self net order st).
Proof.
  unfold run_all.
  induction order as [|s order IH]; intros st; simpl; [done |].
  etrans; [apply run_task_rtc | apply IH].
Qed.

Lemma run_all_reachable (subdomains : gset string) :
  reachable self net subdomains
    (run_all self net (elements subdomains)
       (start (concurrency self) subdomains)).
Proof. apply run_all_rtc. Qed.

End Termination.

(** ** The claims about [scan_subdomains] *)

Section ScanClaims.
Import PyExc Net Coro Scanner ScannerSpec.

Lemma Returns_pair_inj {X Y : Type} (a c : X) (b d : Y) :
  Returns (a, b) = Returns (c, d) → a = c ∧ b = d.
Proof. by intros [= -> ->]. Qed.

Lemma scan_subdomains_result_reachable (self : SubdomainScanner)
    (net : network) (subdomains h d : gset string) :
  result (scan_subdomains self net subdomains) = Returns (h, d) →
  ∃ st, reachable self net subdomains st
        ∧ all_finished st = true
        ∧ h = https_alive st ∧ d = dns_resolved st.
Proof.
  unfold scan_subdomains, Semaphore.
  destruct (concurrency self <? 0)%Z; simpl; [discriminate |].
  destruct (all_finished _) eqn:Hfin; [| discriminate].
  intros [= <- <-]. eexists. split; [apply run_all_reachable |]. done.
Qed.

(** C1. Under every schedule and at every moment of a scan, what is
    in [https_alive] is in [dns_resolved]; in particular, when
    [scan_subdomains] returns a pair, its HTTPS-alive component is a
    subset of its DNS-resolved component. *)
Theorem https_alive_subset_dns_resolved (self : SubdomainScanner)
    (net : network) (subdomains : gset string) :
  (∀ st, reachable self net subdomains st →
         https_alive st ⊆ dns_resolved st)
  ∧ (∀ h d,
       result (scan_subdomains self net subdomains) = Returns (h, d) →
       h ⊆ d).
Proof.
  split.
  - intros st Hreach.
    by eapply consistent_subset, consistent_reachable.
  - intros h d (st & Hreach & _ & -> & ->)%scan_subdomains_result_reachable.
    by eapply consistent_subset, consistent_reachable.
Qed.

Lemma https_alive_subset_dns_resolved_example :
  result (scan_subdomains (get_scanner_for_mode "normal") example_network
            {[ "api.example.com"; "old.example.com" ]})
  = Returns ({[ "api.example.com" ]},
             {[ "api.example.com"; "old.example.com" ]})
  ∧ ({[ "api.example.com" ]} : gset string)
    ⊆ {[ "api.example.com"; "old.example.com" ]}.
Proof.
  assert (Hres :
    result (scan_subdomains (get_scanner_for_mode "normal")
              example_network
              {[ "api.example.com"; "old.example.com" ]})
    = Returns ({[ "api.example.com" ]},
               {[ "api.example.com"; "old.example.com" ]})).
  { vm_compute. reflexivity. }
  split; [exact Hres |].
  exact (proj2 (https_alive_subset_dns_resolved
                  (get_scanner_for_mode "normal") example_network
                  {[ "api.example.com"; "old.example.com" ]})
           _ _ Hres).
Defined.

(** C2 (as amended). With a positive concurrency [scan_subdomains]
    returns the pair (HTTPS-alive, DNS-resolved), in that order: the
    first component is the set of candidates for which [resolve_dns]
    and [check_https] return [True], the second the set of candidates
    for which [resolve_dns] returns [True]; every schedule of the loop
    ends with these two sets. In terms of the network, the second
    component holds the candidates whose address lookup answers, the
    first those of them whose HTTPS request ends with a status below
    400. *)
Theorem scan_subdomains_returns_alive_then_resolved
    (self : SubdomainScanner) (net : network) (subdomains : gset string) :
  (0 < concurrency self)%Z →
  result (scan_subdomains self net subdomains)
  = Returns (https_alive_of self net subdomains,
             dns_resolved_of self net subdomains)
  ∧ (∀ st, reachable self net subdomains st →
           all_finished st = true →
           https_alive st = https_alive_of self net subdomains
           ∧ dns_resolved st = dns_resolved_of self net subdomains)
  ∧ (∀ s, s ∈ dns_resolved_of self net subdomains ↔
          s ∈ subdomains ∧ resolve net s A = Answer)
  ∧ (∀ s, s ∈ https_alive_of self net subdomains ↔
          s ∈ subdomains ∧ resolve net s A = Answer
          ∧ ∃ status,
              final (head net ("https://" +:+ s)) = Response status
              ∧ (status < 400)%Z).
Proof.
  intros Hc. split; [by apply scan_subdomains_positive |].
  split; [| split].
  - intros st Hreach Hfin.
    apply consistent_finished; [| done].
    by apply consistent_reachable.
  - apply dns_resolved_of_spec.
  - apply https_alive_of_spec.
Qed.

Lemma scan_subdomains_returns_alive_then_resolved_example :
  result (scan_subdomains (get_scanner_for_mode "normal") example_network
            {[ "api.example.com"; "old.example.com" ]})
  = Returns
      (https_alive_of (get_scanner_for_mode "normal") example_network
         {[ "api.example.com"; "old.example.com" ]},
       dns_resolved_of (get_scanner_for_mode "normal") example_network
         {[ "api.example.com"; "old.example.com" ]})
  ∧ https_alive_of (get_scanner_for_mode "normal") example_network
      {[ "api.example.com"; "old.example.com" ]}
    = {[ "api.example.com" ]}
  ∧ dns_resolved_of (get_scanner_for_mode "normal") example_network
      {[ "api.example.com"; "old.example.com" ]}
    = {[ "api.example.com"; "old.example.com" ]}.
Proof.
  destruct (scan_subdomains_returns_alive_then_resolved
              (get_scanner_for_mode "normal") example_network
              {[ "api.example.com"; "old.example.com" ]}) as [H _];
    [reflexivity |].
  split; [exact H |]. split; vm_compute; reflexivity.
Defined.

(** C2 as stated fails: the first component of the returned pair is
    not the DNS-resolved set. [old.example.com] has an address and its
    HTTPS request times out; it is in the second component, not in the
    first: the call returns [({api}, {api, old})]. *)
Lemma scan_subdomains_first_component_not_resolved :
  result (scan_subdomains (get_scanner_for_mode "normal") example_network
            {[ "api.example.com"; "old.example.com" ]})
  ≠ Returns
      (dns_resolved_of (get_scanner_for_mode "normal") example_network
         {[ "api.example.com"; "old.example.com" ]},
       https_alive_of (get_scanner_for_mode "normal") example_network
         {[ "api.example.com"; "old.example.com" ]}).
Proof.
  rewrite scan_subdomains_positive by reflexivity.
  intros [Heq _]%Returns_pair_inj.
  assert (Hold : "old.example.com"
                 ∈ dns_resolved_of (get_scanner_for_mode "normal")
                     example_network
                     {[ "api.example.com"; "old.example.com" ]}).
  { apply elem_of_filter. split; [reflexivity |].
    apply elem_of_union. right. by apply elem_of_singleton. }
  rewrite <- Heq in Hold.
  apply elem_of_filter in Hold as [[_ Hanswers] _].
  vm_compute in Hanswers. discriminate Hanswers.
Qed.

End ScanClaims.

(** ** Configuration and batch isolation *)

Section Isolation.
Import PyExc Net Coro Scanner ScannerSpec.
Variables (self : SubdomainScanner) (net : network).

(** The two checks of a candidate look at the network only under that
    candidate's name. *)
Lemma resolves_agree (bad s : string) (net' : network) :
  agree_except bad net net' → s ≠ bad →
  resolves self net s = resolves self net' s.
Proof.
  intros Hagree Hs. destruct (Hagree s Hs) as [Hres _].
  unfold resolves. rewrite !resolve_dns_unfold.
  by rewrite !Hres.
Qed.

Lemma answers_https_agree (bad s : string) (net' : network) :
  agree_except bad net net' → s ≠ bad →
  answers_https self net s = answers_https self net' s.
Proof.
  intros Hagree Hs. destruct (Hagree s Hs) as [_ Hhead].
  unfold answers_https. rewrite !check_https_unfold. simpl.
  by rewrite Hhead.
Qed.

(** A candidate whose task ends with an exception is not HTTPS-alive. *)
Lemma task_exception_not_alive (s : string) (e : exn_class) :
  task_exception self net s = Some e →
  ¬ (resolves self net s = true ∧ answers_https self net s = true).
Proof.
  unfold task_exception, resolves, answers_https.
  destruct (resolve_dns self s net) as [sent1 [[|]|e1]]; simpl;
    [| by intros _ [? _] | by intros _ [? _]].
  destruct (check_https self s net) as [sent2 [[|]|e2]]; simpl;
    [done | by intros _ [_ ?] | by intros _ [_ ?]].
Qed.

End Isolation.

Section ConfigurationClaims.
Import PyExc Net Coro Scanner ScannerSpec.

(** C4 (as amended). A negative concurrency makes [scan_subdomains]
    raise [ValueError] when it builds the semaphore, before any task
    exists and with no request sent. Concurrency 0 is not rejected:
    over the empty set the call returns two empty sets, over any other
    set no task can ever take a slot and the call never returns. With a
    positive concurrency, whatever the timeout, the call returns, and
    under no schedule does the loop stop before every task is over. *)
Theorem scan_subdomains_configuration (self : SubdomainScanner)
    (net : network) (subdomains : gset string) :
  ((concurrency self < 0)%Z →
     scan_subdomains self net subdomains
     = {| self_after := self; result := Raises ValueError; sent := [] |})
  ∧ (concurrency self = 0%Z →
       scan_subdomains self net subdomains
       = {| self_after := self;
            result := if bool_decide (subdomains = ∅)
                      then Returns (∅, ∅) else Blocks;
            sent := [] |}
       ∧ ∀ st', ¬ step self net (start (concurrency self) subdomains) st')
  ∧ ((0 < concurrency self)%Z →
       (∃ h d, result (scan_subdomains self net subdomains)
               = Returns (h, d))
       ∧ ∀ st, reachable self net subdomains st →
               all_finished st = false →
               ∃ st', step self net st st').
Proof.
  split; [apply scan_subdomains_negative |]. split.
  - intros Hc. split; [by apply scan_subdomains_zero |].
    rewrite Hc. apply start_zero_stuck.
  - intros Hc. split.
    + eexists _, _. by apply scan_subdomains_positive.
    + intros st. by apply progress.
Qed.

Lemma scan_subdomains_configuration_example :
  scan_subdomains (init (-1) 5) example_network {[ "api.example.com" ]}
  = {| self_after := init (-1) 5; result := Raises ValueError; sent := [] |}
  ∧ scan_subdomains (init 0 5) example_network {[ "api.example.com" ]}
    = {| self_after := init 0 5;
         result := if bool_decide
                        (({[ "api.example.com" ]} : gset string) = ∅)
                   then Returns (∅, ∅) else Blocks;
         sent := [] |}
  ∧ ∃ h d,
      result (scan_subdomains (init 1 5) example_network
                {[ "api.example.com" ]})
      = Returns (h, d).
Proof.
  split; [| split].
  - apply (scan_subdomains_configuration (init (-1) 5) example_network
             {[ "api.example.com" ]}).
    reflexivity.
  - apply (scan_subdomains_configuration (init 0 5) example_network
             {[ "api.example.com" ]}).
    reflexivity.
  - apply (scan_subdomains_configuration (init 1 5) example_network
             {[ "api.example.com" ]}).
    reflexivity.
Defined.

(** C4 as stated fails at concurrency 0: the call is not rejected. Over
    the empty set it returns; over a non-empty set it blocks. *)
Lemma scan_subdomains_zero_concurrency_not_rejected :
  result (scan_subdomains (init 0 5) example_network ∅) = Returns (∅, ∅)
  ∧ result (scan_subdomains (init 0 5) example_network
              {[ "api.example.com" ]}) = Blocks.
Proof. split; vm_compute; reflexivity. Qed.

(** C5. With a positive concurrency, when the task of one candidate
    ends with an exception, the call still returns; for every other
    candidate, membership in the two returned sets is what a scan
    without the faulty candidate returns, and what a scan returns on
    any network that differs only in its answers about the faulty
    candidate; the faulty candidate is not reported HTTPS-alive; and
    every schedule of the loop ends with the same two sets. *)
Theorem scan_subdomains_batch_isolation (self : SubdomainScanner)
    (net : network) (subdomains : gset string) (bad : string)
    (e : exn_class) :
  (0 < concurrency self)%Z →
  bad ∈ subdomains →
  task_exception self net bad = Some e →
  ∃ h d h0 d0 : gset string,
    result (scan_subdomains self net subdomains) = Returns (h, d)
    ∧ result (scan_subdomains self net (subdomains ∖ {[bad]}))
      = Returns (h0, d0)
    ∧ (∀ s, s ≠ bad → (s ∈ h ↔ s ∈ h0) ∧ (s ∈ d ↔ s ∈ d0))
    ∧ (bad ∉ h)
    ∧ (∀ st, reachable self net subdomains st →
             all_finished st = true →
             https_alive st = h ∧ dns_resolved st = d)
    ∧ (∀ net', agree_except bad net net' →
         ∃ h' d' : gset string,
           result (scan_subdomains self net' subdomains)
           = Returns (h', d')
           ∧ ∀ s, s ≠ bad → (s ∈ h ↔ s ∈ h') ∧ (s ∈ d ↔ s ∈ d')).
Proof.
  intros Hc Hbad Hexc.
  exists (https_alive_of self net subdomains),
         (dns_resolved_of self net subdomains),
         (https_alive_of self net (subdomains ∖ {[bad]})),
         (dns_resolved_of self net (subdomains ∖ {[bad]})).
  split; [by apply scan_subdomains_positive |].
  split; [by apply scan_subdomains_positive |].
  split; [| split; [| split]].
  - intros s Hs. unfold https_alive_of, dns_resolved_of.
    rewrite !elem_of_filter, elem_of_difference, elem_of_singleton.
    tauto.
  - unfold https_alive_of. rewrite elem_of_filter.
    intros [H _]. by eapply task_exception_not_alive.
  - intros st Hreach Hfin.
    apply consistent_finished; [| done]. by apply consistent_reachable.
  - intros net' Hagree.
    exists (https_alive_of self net' subdomains),
           (dns_resolved_of self net' subdomains).
    split; [by apply scan_subdomains_positive |].
    intros s Hs. unfold https_alive_of, dns_resolved_of.
    rewrite !elem_of_filter.
    rewrite (resolves_agree self net bad s net') by done.
    rewrite (answers_https_agree self net bad s net') by done.
    tauto.
Qed.

Lemma scan_subdomains_batch_isolation_example :
  ∃ h d h0 d0 : gset string,
    result (scan_subdomains (get_scanner_for_mode "normal")
              faulty_network
              {[ "bad.example.com"; "api.example.com" ]})
    = Returns (h, d)
    ∧ result (scan_subdomains (get_scanner_for_mode "normal")
                faulty_network
                ({[ "bad.example.com"; "api.example.com" ]}
                 ∖ {[ "bad.example.com" ]}))
      = Returns (h0, d0)
    ∧ (∀ s, s ≠ "bad.example.com" →
            (s ∈ h ↔ s ∈ h0) ∧ (s ∈ d ↔ s ∈ d0))
    ∧ ("bad.example.com" ∉ h)
    ∧ (∀ st, reachable (get_scanner_for_mode "normal") faulty_network
               {[ "bad.example.com"; "api.example.com" ]} st →
             all_finished st = true →
             https_alive st = h ∧ dns_resolved st = d)
    ∧ (∀ net', agree_except "bad.example.com" faulty_network net' →
         ∃ h' d' : gset string,
           result (scan_subdomains (get_scanner_for_mode "normal") net'
                     {[ "bad.example.com"; "api.example.com" ]})
           = Returns (h', d')
           ∧ ∀ s, s ≠ "bad.example.com" →
                  (s ∈ h ↔ s ∈ h') ∧ (s ∈ d ↔ s ∈ d')).
Proof.
  apply (scan_subdomains_batch_isolation
           (get_scanner_for_mode "normal") faulty_network
           {[ "bad.example.com"; "api.example.com" ]}
           "bad.example.com" RuntimeError).
  - reflexivity.
  - apply elem_of_union. left. by apply elem_of_singleton.
  - reflexivity.
Defined.

(** What the scan of the faulty batch returns: the other candidate in
    both sets, the faulty one DNS-resolved only. *)
Lemma scan_faulty_batch :
  result (scan_subdomains (get_scanner_for_mode "normal") faulty_network
            {[ "bad.example.com"; "api.example.com" ]})
  = Returns ({[ "api.example.com" ]},
             {[ "bad.example.com"; "api.example.com" ]}).
Proof. vm_compute. reflexivity. Qed.

End ConfigurationClaims.


(** * Further properties of the scanner *)

(** ** The requests of a scan *)

Section Accounting.
Import PyExc Net Coro Scanner ScannerSpec TraceSpec.
Variables (self : SubdomainScanner) (net : network).

Lemma occurrences_app (ev : net_event) (l1 l2 : list net_event) :
  occurrences ev (l1 ++ l2) = (occurrences ev l1 + occurrences ev l2)%nat.
Proof. unfold occurrences. by rewrite filter_app, length_app. Qed.

Lemma occurrences_nil (ev : net_event) : occurrences ev [] = 0%nat.
Proof. reflexivity. Qed.

Lemma occurrences_cons (ev x : net_event) (l : list net_event) :
  occurrences ev (x :: l)
  = ((if decide (x = ev) then 1 else 0) + occurrences ev l)%nat.
Proof.
  unfold occurrences. rewrite filter_cons.
  by destruct (decide (x = ev)).
Qed.

Lemma occurrences_zero (ev : net_event) (l : list net_event) :
  ev ∉ l → occurrences ev l = 0%nat.
Proof.
  induction l as [|x l IH]; [done |].
  rewrite not_elem_of_cons, occurrences_cons. intros [Hne Hl].
  rewrite IH by done. by rewrite decide_False.
Qed.

Lemma total_insert_fresh (f : string → task_state → nat)
    (m : gmap string task_state) (s : string) (t : task_state) :
  m !! s = None → total f (<[s := t]> m) = (f s t + total f m)%nat.
Proof.
  intros Hs. unfold total.
  rewrite map_fold_insert_L; [done | | done].
  intros. lia.
Qed.

Lemma total_insert (f : string → task_state → nat)
    (m : gmap string task_state) (s : string) (t t' : task_state) :
  m !! s = Some t →
  (total f (<[s := t']> m) + f s t = total f m + f s t')%nat.
Proof.
  intros Hs.
  rewrite <- (insert_delete_id m s t) at 2 by done.
  rewrite <- (insert_delete_eq m).
  rewrite !total_insert_fresh by apply lookup_delete_eq. lia.
Qed.

(** A sum to which only the task of [s] can contribute. *)
Lemma total_only (f : string → task_state → nat)
    (m : gmap string task_state) (s : string) :
  (∀ k t, k ≠ s → f k t = 0%nat) →
  total f m = from_option (f s) 0%nat (m !! s).
Proof.
  intros Hf. induction m as [|k t m Hk IH] using map_ind; [done |].
  rewrite total_insert_fresh by done. rewrite IH.
  destruct (decide (k = s)) as [->|Hne].
  - rewrite lookup_insert_eq, Hk. simpl. lia.
  - rewrite lookup_insert_ne by done. by rewrite Hf.
Qed.

Lemma total_nonzero (f : string → task_state → nat)
    (m : gmap string task_state) :
  total f m ≠ 0%nat → ∃ s t, m !! s = Some t ∧ f s t ≠ 0%nat.
Proof.
  induction m as [|k t m Hk IH] using map_ind; [done |].
  rewrite total_insert_fresh by done. intros Hne.
  destruct (decide (f k t = 0%nat)) as [H0|H0].
  - destruct IH as (s & t' & Hs & Hst); [lia |].
    exists s, t'. split; [| done].
    rewrite lookup_insert_ne; [done |]. intros ->. congruence.
  - exists k, t. by rewrite lookup_insert_eq.
Qed.

Lemma total_zero (f : string → task_state → nat)
    (m : gmap string task_state) :
  (∀ k t, f k t = 0%nat) → total f m = 0%nat.
Proof.
  intros Hf. rewrite (total_only f m "") by (intros; apply Hf).
  destruct (m !! ""); [apply Hf | done].
Qed.

Lemma total_lookup_le (f : string → task_state → nat)
    (m : gmap string task_state) (s : string) (t : task_state) :
  m !! s = Some t → (f s t ≤ total f m)%nat.
Proof.
  intros Hs. rewrite <- (insert_delete_id m s t) by done.
  rewrite total_insert_fresh by apply lookup_delete_eq. lia.
Qed.

Lemma occurrences_pos (ev : net_event) (l : list net_event) :
  ev ∈ l ↔ (0 < occurrences ev l)%nat.
Proof.
  split.
  - intros Hin.
    destruct (occurrences ev l) eqn:H0; [| lia].
    unfold occurrences in H0. apply length_zero_iff_nil in H0.
    assert (Hf : ev ∈ filter (λ x, x = ev) l)
      by (by apply list_elem_of_filter).
    rewrite H0 in Hf. by apply elem_of_nil in Hf.
  - intros Hpos. destruct (decide (ev ∈ l)); [done |].
    rewrite occurrences_zero in Hpos by done. lia.
Qed.

(** What one task sends is a request of that task's candidate. *)
Lemma sent_by_task_shape (s : string) (t : task_state) (ev : net_event) :
  ev ∈ sent_by_task self net s t → request_of self net s ev.
Proof.
  assert (Hr : ev ∈ (resolve_dns self s net).1 → ev = Query s A).
  { rewrite resolve_dns_unfold. simpl.
    by intros ->%list_elem_of_singleton. }
  assert (Hc : ev ∈ (check_https self s net).1 →
               ev = Head ("https://" +:+ s) (timeout self)
               ∨ ∃ u, u ∈ redirects (head net ("https://" +:+ s))
                      ∧ ev = Follow u (timeout self)).
  { rewrite check_https_requests, elem_of_cons, list_elem_of_fmap.
    intros [->|(u & -> & Hu)]; eauto. }
  unfold request_of. destruct t as [| | |exc]; simpl.
  - by intros ?%elem_of_nil.
  - by intros ?%elem_of_nil.
  - intros H. left. by apply Hr.
  - rewrite elem_of_app. intros [H|H]; [left; by apply Hr |].
    destruct (resolves self net s) eqn:Hres;
      [| by apply elem_of_nil in H].
    right. split; [by apply resolves_spec in Hres | by apply Hc].
Qed.

Lemma https_url_inj (s k : string) :
  "https://" +:+ s = "https://" +:+ k → s = k.
Proof. rewrite !append_cons, !append_nil_l. by intros [= ->]. Qed.

Lemma sent_by_task_other_query (s k : string) (t : task_state)
    (rd : rdtype) :
  k ≠ s → occurrences (Query s rd) (sent_by_task self net k t) = 0%nat.
Proof.
  intros Hne. apply occurrences_zero.
  intros [H|(_ & [H|(u & _ & H)])]%sent_by_task_shape; congruence.
Qed.

(** No task sends a CNAME query. *)
Lemma sent_by_task_no_cname (s k : string) (t : task_state) :
  occurrences (Query s CNAME) (sent_by_task self net k t) = 0%nat.
Proof.
  apply occurrences_zero.
  intros [H|(_ & [H|(u & _ & H)])]%sent_by_task_shape; congruence.
Qed.

Lemma sent_by_task_other_head (s k : string) (t : task_state)
    (tmo : Z) :
  k ≠ s →
  occurrences (Head ("https://" +:+ s) tmo) (sent_by_task self net k t)
  = 0%nat.
Proof.
  intros Hne. apply occurrences_zero.
  intros [H|(_ & [H|(u & _ & H)])]%sent_by_task_shape; try congruence.
  assert (Hu : "https://" +:+ s = "https://" +:+ k) by congruence.
  apply https_url_inj in Hu. congruence.
Qed.

(** Under every schedule, what has been sent is what the tasks have
    sent, each according to where it stands. *)
Lemma requests_accounted (subdomains : gset string) (st : loop_state)
    (ev : net_event) :
  reachable self net subdomains st →
  occurrences ev (requests st)
  = total (λ s t, occurrences ev (sent_by_task self net s t)) (tasks st).
Proof.
  unfold reachable. intros Hrtc.
  apply rtc_ind_r
    with (x := start (concurrency self) subdomains)
         (P := λ st, occurrences ev (requests st)
                     = total (λ s t, occurrences ev
                                       (sent_by_task self net s t))
                         (tasks st)) in Hrtc; [done | |].
  - simpl. rewrite occurrences_nil.
    generalize subdomains. intros X.
    induction X as [|s X Hs IH] using set_ind_L.
    + by rewrite gset_to_gmap_empty.
    + rewrite gset_to_gmap_union_singleton.
      rewrite total_insert_fresh by (by apply lookup_gset_to_gmap_None).
      by rewrite <- IH.
  - intros y z Hy [s Hfire] IH.
    pose proof (consistent_reachable _ _ _ _ Hy) as (_ & Htasks & _ & _).
    set (f := λ s t, occurrences ev (sent_by_task self net s t)) in *.
    apply fire_inv in Hfire
      as [(Ht & _ & ->)|[(Ht & Hr & ->)|[(Ht & Hr & ->)|(Ht & exc & _ & ->)]]];
      simpl;
      match goal with
      | |- context [<[s := ?t']> (tasks y)] =>
          pose proof (total_insert f (tasks y) s _ t' Ht) as H
      end;
      rewrite ?occurrences_app, IH; unfold f in H; simpl in H.
    + rewrite occurrences_nil in H. unfold f. lia.
    + rewrite occurrences_nil in H. unfold f. lia.
    + rewrite Hr, app_nil_r, occurrences_nil in H. unfold f. lia.
    + apply Htasks in Ht. destruct Ht as (Hres & _).
      rewrite Hres, occurrences_app in H. unfold f. lia.
Qed.

End Accounting.

Ltac count_tac :=
  rewrite ?occurrences_cons, ?occurrences_nil;
  repeat case_decide; try congruence; done.

Section ScannerExtras.
Import PyExc Net Coro Scanner ScannerSpec TraceSpec.

(** X1. The semaphore bounds the checks in flight: under every schedule
    and at every moment of a scan, the number of tasks between
    [async with semaphore] and its end is at most the concurrency, and
    together with the free slots it is the concurrency. *)
Theorem semaphore_bounds_in_flight (self : SubdomainScanner)
    (net : network) (subdomains : gset string) (st : loop_state) :
  (0 ≤ concurrency self)%Z →
  reachable self net subdomains st →
  (Z.of_nat (in_flight st) ≤ concurrency self)%Z
  ∧ (semaphore st + Z.of_nat (in_flight st) = concurrency self)%Z.
Proof.
  intros Hc Hreach. split.
  - by eapply in_flight_bounded.
  - by eapply slots_reachable.
Qed.

Lemma semaphore_bounds_in_flight_example :
  (Z.of_nat
     (in_flight
        (fire_if_able (init 1 5) example_network "api.example.com"
           (start 1 {[ "api.example.com"; "old.example.com" ]})))
   ≤ concurrency (init 1 5))%Z
  ∧ (semaphore
       (fire_if_able (init 1 5) example_network "api.example.com"
          (start 1 {[ "api.example.com"; "old.example.com" ]}))
     + Z.of_nat
         (in_flight
            (fire_if_able (init 1 5) example_network "api.example.com"
               (start 1 {[ "api.example.com"; "old.example.com" ]})))
     = concurrency (init 1 5))%Z.
Proof.
  apply (semaphore_bounds_in_flight (init 1 5) example_network
           {[ "api.example.com"; "old.example.com" ]}).
  - simpl. lia.
  - apply fire_if_able_rtc.
Defined.

(** X2. No schedule runs for ever: a scan of [n] candidates takes at most
    [3 * n] steps, one per suspension point of [check_subdomain]. *)
Theorem every_schedule_is_finite (self : SubdomainScanner)
    (net : network) (subdomains : gset string) (n : nat)
    (st : loop_state) :
  nsteps (step self net) n (start (concurrency self) subdomains) st →
  (n ≤ 3 * size subdomains)%nat.
Proof. intros Hn%schedule_bounded. lia. Qed.

Lemma every_schedule_is_finite_example :
  (1 ≤ 3 * size ({[ "api.example.com"; "old.example.com" ]} : gset string))%nat.
Proof.
  apply (every_schedule_is_finite (init 1 5) example_network
           {[ "api.example.com"; "old.example.com" ]} 1
           (fire_if_able (init 1 5) example_network "api.example.com"
              (start 1 {[ "api.example.com"; "old.example.com" ]}))).
  apply nsteps_once. exists "api.example.com". vm_compute. reflexivity.
Defined.

(** X3. A scan of no candidates returns two empty sets and sends
    nothing, provided the concurrency is not negative. *)
Theorem scan_subdomains_empty (self : SubdomainScanner) (net : network) :
  (0 ≤ concurrency self)%Z →
  scan_subdomains self net ∅
  = {| self_after := self; result := Returns (∅, ∅); sent := [] |}.
Proof.
  intros Hc. unfold scan_subdomains.
  rewrite Semaphore_nonnegative by done.
  rewrite elements_empty. simpl.
  by rewrite (proj2 (all_finished_true _)).
Qed.

Lemma scan_subdomains_empty_example :
  scan_subdomains (init 0 5) example_network ∅
  = {| self_after := init 0 5; result := Returns (∅, ∅); sent := [] |}.
Proof.
  apply (scan_subdomains_empty (init 0 5) example_network).
  simpl. lia.
Defined.

(** X4. A scan reports only candidates it was given: under every
    schedule both sets stay inside the candidate set, and so do the two
    sets that [scan_subdomains] returns. *)
Theorem scan_reports_only_candidates (self : SubdomainScanner)
    (net : network) (subdomains : gset string) :
  (∀ st, reachable self net subdomains st →
         dns_resolved st ⊆ subdomains ∧ https_alive st ⊆ subdomains)
  ∧ (∀ h d,
       result (scan_subdomains self net subdomains) = Returns (h, d) →
       d ⊆ subdomains ∧ h ⊆ subdomains).
Proof.
  assert (Hall : ∀ st, reachable self net subdomains st →
            dns_resolved st ⊆ subdomains ∧ https_alive st ⊆ subdomains).
  { intros st (_ & _ & Hd & Hh)%consistent_reachable.
    split; intros s Hs; auto. }
  split; [done |].
  intros h d (st & Hreach & _ & -> & ->)%scan_subdomains_result_reachable.
  by apply Hall.
Qed.

(** X5. With a positive concurrency every schedule can be brought to an
    end: from any state a scan can be in, the loop can go on until
    [gather] is over, and it then holds the same two sets whatever the
    schedule was: in [dns_resolved] the candidates whose address lookup
    answers, in [https_alive] those of them whose HTTPS request ends
    with a status below 400. *)
Theorem every_schedule_completes (self : SubdomainScanner)
    (net : network) (subdomains : gset string) (st : loop_state) :
  (0 < concurrency self)%Z →
  reachable self net subdomains st →
  ∃ st', rtc (step self net) st st'
         ∧ all_finished st' = true
         ∧ https_alive st' = https_alive_of self net subdomains
         ∧ dns_resolved st' = dns_resolved_of self net subdomains
         ∧ (∀ s, s ∈ dns_resolved st' ↔
                 s ∈ subdomains ∧ resolve net s A = Answer)
         ∧ (∀ s, s ∈ https_alive st' ↔
                 s ∈ subdomains ∧ resolve net s A = Answer
                 ∧ ∃ status,
                     final (head net ("https://" +:+ s)) = Response status
                     ∧ (status < 400)%Z).
Proof.
  intros Hc.
  remember (work (tasks st)) as w eqn:Hw.
  revert st Hw.
  induction w as [w IH] using lt_wf_ind. intros st -> Hreach.
  destruct (all_finished st) eqn:Hfin.
  - exists st. split; [done |]. split; [done |].
    destruct (consistent_finished self net subdomains st) as [Hh Hd];
      [by apply consistent_reachable | done |].
    split; [done |]. split; [done |]. rewrite Hh, Hd. split.
    + apply dns_resolved_of_spec.
    + apply https_alive_of_spec.
  - destruct (progress self net subdomains st Hc Hreach Hfin)
      as [st1 Hstep].
    assert (Hreach1 : reachable self net subdomains st1)
      by (by eapply rtc_r).
    destruct (IH (work (tasks st1)) (work_step self net _ _ Hstep)
                st1 eq_refl Hreach1)
      as (st' & Hrtc & Hrest).
    exists st'. split; [| done]. by eapply rtc_l.
Qed.

Lemma every_schedule_completes_example :
  ∃ st',
    rtc (step (init 1 5) example_network)
      (fire_if_able (init 1 5) example_network "old.example.com"
         (start 1 {[ "api.example.com"; "old.example.com";
                     "alias.example.com" ]}))
      st'
    ∧ all_finished st' = true
    ∧ https_alive st'
      = https_alive_of (init 1 5) example_network
          {[ "api.example.com"; "old.example.com"; "alias.example.com" ]}
    ∧ dns_resolved st'
      = dns_resolved_of (init 1 5) example_network
          {[ "api.example.com"; "old.example.com"; "alias.example.com" ]}
    ∧ (∀ s, s ∈ dns_resolved st' ↔
            s ∈ ({[ "api.example.com"; "old.example.com";
                    "alias.example.com" ]} : gset string)
            ∧ resolve example_network s A = Answer)
    ∧ (∀ s, s ∈ https_alive st' ↔
            s ∈ ({[ "api.example.com"; "old.example.com";
                    "alias.example.com" ]} : gset string)
            ∧ resolve example_network s A = Answer
            ∧ ∃ status,
                final (head example_network ("https://" +:+ s))
                = Response status
                ∧ (status < 400)%Z).
Proof.
  apply (every_schedule_completes (init 1 5) example_network
           {[ "api.example.com"; "old.example.com";
              "alias.example.com" ]}).
  - simpl. lia.
  - apply fire_if_able_rtc.
Defined.

(** X6. When [gather] is over, under whatever schedule, the scan has
    sent exactly one address query for each candidate and for no other
    name; no CNAME query at all; exactly one HEAD request to
    [https://] followed by the name, with the scanner's timeout, for
    each candidate in [dns_resolved] and for no other name; and beyond
    these exactly the requests to the redirects followed from the HEAD
    requests of the candidates in [dns_resolved]. *)
Theorem scan_requests_counted (self : SubdomainScanner) (net : network)
    (subdomains : gset string) (st : loop_state) (s : string) :
  reachable self net subdomains st →
  all_finished st = true →
  occurrences (Query s A) (requests st)
  = (if bool_decide (s ∈ subdomains) then 1 else 0)%nat
  ∧ occurrences (Query s CNAME) (requests st) = 0%nat
  ∧ occurrences (Head ("https://" +:+ s) (timeout self)) (requests st)
    = (if bool_decide (s ∈ dns_resolved st) then 1 else 0)%nat
  ∧ (∀ u t, Follow u t ∈ requests st ↔
       t = timeout self
       ∧ ∃ c, c ∈ dns_resolved st
              ∧ u ∈ redirects (head net ("https://" +:+ c))).
Proof.
  intros Hreach Hfin.
  pose proof (consistent_reachable _ _ _ _ Hreach)
    as (Hdom & Htasks & Hsub & _).
  rewrite all_finished_true in Hfin.
  split; [| split; [| split]].
  - rewrite (requests_accounted self net subdomains st) by done.
    rewrite (total_only _ _ s)
      by (intros; by apply sent_by_task_other_query).
    destruct (tasks st !! s) as [t|] eqn:Hs; simpl.
    + assert (Hin : s ∈ subdomains).
      { rewrite <- Hdom. apply elem_of_dom. eauto. }
      pose proof (Hfin _ _ Hs) as Ht.
      destruct t as [| | |exc]; try discriminate.
      simpl. rewrite occurrences_app.
      rewrite bool_decide_eq_true_2 by done.
      rewrite resolve_dns_unfold. simpl.
      assert (H0 : occurrences (Query s A)
                     (if resolves self net s
                      then (check_https self s net).1 else []) = 0%nat).
      { apply occurrences_zero.
        destruct (resolves self net s); [| by intros ?%elem_of_nil].
        rewrite check_https_requests, elem_of_cons, list_elem_of_fmap.
        by intros [?|(u & ? & _)]. }
      rewrite H0. count_tac.
    + rewrite bool_decide_eq_false_2; [done |].
      rewrite <- Hdom. by apply not_elem_of_dom.
  - rewrite (requests_accounted self net subdomains st) by done.
    apply total_zero. intros k t. apply sent_by_task_no_cname.
  - rewrite (requests_accounted self net subdomains st) by done.
    rewrite (total_only _ _ s)
      by (intros; by apply sent_by_task_other_head).
    destruct (tasks st !! s) as [t|] eqn:Hs; simpl.
    + pose proof (Hfin _ _ Hs) as Ht.
      destruct t as [| | |exc]; try discriminate.
      apply Htasks in Hs. destruct Hs as (_ & Hd & _).
      simpl. rewrite occurrences_app.
      rewrite resolve_dns_unfold at 1. simpl.
      destruct (resolves self net s) eqn:Hres.
      * rewrite bool_decide_eq_true_2 by (by apply Hd).
        rewrite check_https_requests.
        assert (H0 : occurrences (Head ("https://" +:+ s) (timeout self))
                       ((λ u, Follow u (timeout self))
                          <$> redirects (head net ("https://" +:+ s)))
                     = 0%nat).
        { apply occurrences_zero. rewrite list_elem_of_fmap.
          by intros (u & ? & _). }
        rewrite ?occurrences_cons, H0, ?occurrences_nil.
        repeat case_decide; try congruence; done.
      * rewrite bool_decide_eq_false_2
          by (intros H%Hd; congruence).
        count_tac.
    + rewrite bool_decide_eq_false_2; [done |].
      intros H%Hsub. rewrite <- Hdom in H.
      by apply not_elem_of_dom in Hs.
  - intros u t. split.
    + intros Hev. apply occurrences_pos in Hev.
      rewrite (requests_accounted self net subdomains st) in Hev by done.
      match type of Hev with
      | (0 < ?X)%nat => assert (Hne : X ≠ 0%nat) by lia
      end.
      apply total_nonzero in Hne as (c & tc & Hc & Hocc).
      assert (Hin : Follow u t ∈ sent_by_task self net c tc).
      { apply occurrences_pos. lia. }
      apply sent_by_task_shape in Hin
        as [H|(HA & [H|(u' & Hu' & H)])]; try discriminate.
      injection H as -> ->. split; [done |].
      exists c. split; [| done].
      pose proof (Hfin _ _ Hc) as Ht.
      destruct tc as [| | |exc]; try discriminate.
      apply Htasks in Hc. destruct Hc as (_ & Hd & _).
      by apply Hd, resolves_spec.
    + intros (-> & c & Hc & Hu).
      assert (Hin : c ∈ subdomains) by (by apply Hsub).
      rewrite <- Hdom in Hin. apply elem_of_dom in Hin as [tc Htc].
      pose proof (Hfin _ _ Htc) as Ht.
      destruct tc as [| | |exc]; try discriminate.
      pose proof (Htasks _ _ Htc) as (_ & Hd & _).
      apply Hd in Hc.
      apply occurrences_pos.
      rewrite (requests_accounted self net subdomains st) by done.
      eapply Nat.lt_le_trans;
        [| exact (total_lookup_le
                    (λ s t, occurrences (Follow u (timeout self))
                              (sent_by_task self net s t))
                    (tasks st) c _ Htc)].
      apply occurrences_pos. simpl. rewrite Hc.
      rewrite elem_of_app, check_https_requests. right.
      rewrite elem_of_cons, list_elem_of_fmap. right. eauto.
Qed.

Lemma scan_requests_counted_example :
  occurrences (Query "go.example.com" A)
    (requests
       (run_all (init 20 5) example_network
          (elements ({[ "go.example.com"; "alias.example.com" ]}
                     : gset string))
          (start 20 {[ "go.example.com"; "alias.example.com" ]})))
  = (if bool_decide
          ("go.example.com"
           ∈ ({[ "go.example.com"; "alias.example.com" ]} : gset string))
     then 1 else 0)%nat
  ∧ occurrences (Query "go.example.com" CNAME)
      (requests
         (run_all (init 20 5) example_network
            (elements ({[ "go.example.com"; "alias.example.com" ]}
                       : gset string))
            (start 20 {[ "go.example.com"; "alias.example.com" ]})))
    = 0%nat
  ∧ occurrences
      (Head ("https://" +:+ "go.example.com") (timeout (init 20 5)))
      (requests
         (run_all (init 20 5) example_network
            (elements ({[ "go.example.com"; "alias.example.com" ]}
                       : gset string))
            (start 20 {[ "go.example.com"; "alias.example.com" ]})))
    = (if bool_decide
            ("go.example.com"
             ∈ dns_resolved
                 (run_all (init 20 5) example_network
                    (elements ({[ "go.example.com"; "alias.example.com" ]}
                               : gset string))
                    (start 20 {[ "go.example.com"; "alias.example.com" ]})))
       then 1 else 0)%nat
  ∧ (∀ u t,
       Follow u t
       ∈ requests
           (run_all (init 20 5) example_network
              (elements ({[ "go.example.com"; "alias.example.com" ]}
                         : gset string))
              (start 20 {[ "go.example.com"; "alias.example.com" ]})) ↔
       t = timeout (init 20 5)
       ∧ ∃ c, c ∈ dns_resolved
                    (run_all (init 20 5) example_network
                       (elements
                          ({[ "go.example.com"; "alias.example.com" ]}
                           : gset string))
                       (start 20
                          {[ "go.example.com"; "alias.example.com" ]}))
              ∧ u ∈ redirects (head example_network ("https://" +:+ c))).
Proof.
  apply (scan_requests_counted (init 20 5) example_network
           {[ "go.example.com"; "alias.example.com" ]}).
  - apply (run_all_reachable (init 20 5)).
  - vm_compute. reflexivity.
Defined.

(** What the scan of these two names sends: the CNAME-only name gets
    its address query and nothing more. *)
Lemma scan_alias_and_redirect :
  sent (scan_subdomains (init 20 5) example_network
          {[ "go.example.com"; "alias.example.com" ]})
  = [ Query "go.example.com" A;
      Head "https://go.example.com" 5;
      Follow "https://www.example.org/" 5;
      Query "alias.example.com" A ].
Proof. vm_compute. reflexivity. Qed.

Lemma requests_name_candidates (self : SubdomainScanner) (net : network)
    (subdomains : gset string) (st : loop_state) (ev : net_event) :
  reachable self net subdomains st → ev ∈ requests st →
  ∃ s, s ∈ subdomains ∧ request_of self net s ev.
Proof.
  intros Hreach Hev.
  apply occurrences_pos in Hev.
  rewrite (requests_accounted self net subdomains st) in Hev by done.
  match type of Hev with
  | (0 < ?X)%nat => assert (Hne : X ≠ 0%nat) by lia
  end.
  apply total_nonzero in Hne as (s & t & Hs & Hst).
  exists s. split.
  - apply consistent_reachable in Hreach as (<- & _).
    apply elem_of_dom. eauto.
  - apply (sent_by_task_shape self net s t).
    apply occurrences_pos. lia.
Qed.

Lemma sent_names_candidates (self : SubdomainScanner) (net : network)
    (subdomains : gset string) (ev : net_event) :
  ev ∈ sent (scan_subdomains self net subdomains) →
  ∃ s, s ∈ subdomains ∧ request_of self net s ev.
Proof.
  unfold scan_subdomains.
  destruct (Semaphore (concurrency self)) as [value|e] eqn:Hsem; simpl.
  - unfold Semaphore in Hsem.
    destruct (concurrency self <? 0)%Z; [done |].
    injection Hsem as <-.
    intros Hev.
    exact (requests_name_candidates self net subdomains _ ev
             (run_all_reachable self net subdomains) Hev).
  - by intros ?%elem_of_nil.
Qed.

(** X7. What a scan sends by itself names a candidate: under every
    schedule each request is the address query for a candidate, or,
    for a candidate whose address lookup answered, the HEAD request to
    [https://] followed by the candidate, with the scanner's timeout,
    or a request to one of the redirects followed from that HEAD
    request. So the scan reaches a host that is no candidate only
    through a redirect, and where the network redirects nowhere every
    request names a candidate. The same holds of the requests of a call
    of [scan_subdomains]. *)
Theorem scan_addresses_only_candidates (self : SubdomainScanner)
    (net : network) (subdomains : gset string) :
  (∀ st ev, reachable self net subdomains st → ev ∈ requests st →
     ∃ s, s ∈ subdomains
          ∧ (ev = Query s A
             ∨ (resolve net s A = Answer
                ∧ (ev = Head ("https://" +:+ s) (timeout self)
                   ∨ ∃ u, u ∈ redirects (head net ("https://" +:+ s))
                          ∧ ev = Follow u (timeout self)))))
  ∧ (∀ ev, ev ∈ sent (scan_subdomains self net subdomains) →
     ∃ s, s ∈ subdomains ∧ request_of self net s ev)
  ∧ ((∀ url, redirects (head net url) = []) →
     ∀ ev, ev ∈ sent (scan_subdomains self net subdomains) →
     ∃ s, s ∈ subdomains
          ∧ (ev = Query s A
             ∨ ev = Head ("https://" +:+ s) (timeout self))).
Proof.
  split; [| split].
  - intros st ev. apply requests_name_candidates.
  - intros ev. apply sent_names_candidates.
  - intros Hnone ev (s & Hs & Hev)%sent_names_candidates.
    exists s. split; [done |].
    destruct Hev as [->|(_ & [->|(u & Hu & _)])]; [by left | by right |].
    rewrite Hnone in Hu. by apply elem_of_nil in Hu.
Qed.

(** X8. [check_https] makes one [session.head] call: it sends the HEAD
    request to [https://] followed by the name, and then a request to
    each redirect the client follows. It returns [True] exactly when
    the call ends with a response of a status below 400; and an
    exception of the call leaves it exactly when it is an instance of
    none of [ClientError], [TimeoutError], [OSError] and
    [UnicodeDecodeError]. *)
Theorem check_https_outcome (self : SubdomainScanner) (net : network)
    (s : string) :
  (check_https self s net).1
  = Head ("https://" +:+ s) (timeout self)
      :: ((λ u, Follow u (timeout self))
            <$> redirects (head net ("https://" +:+ s)))
  ∧ ((check_https self s net).2 = inl true ↔
     ∃ status, final (head net ("https://" +:+ s)) = Response status
               ∧ (status < 400)%Z)
  ∧ (∀ e, (check_https self s net).2 = inr e ↔
       final (head net ("https://" +:+ s)) = HeadRaises e
       ∧ isinstance e ClientError = false
       ∧ isinstance e TimeoutError = false
       ∧ isinstance e OSError = false
       ∧ isinstance e UnicodeDecodeError = false).
Proof.
  rewrite check_https_unfold. simpl. split; [done |].
  destruct (final (head net ("https://" +:+ s))) as [status|e0].
  - split.
    + split.
      * intros [= H%Z.ltb_lt]. eauto.
      * intros (status' & [= <-] & H%Z.ltb_lt). by rewrite H.
    + intros e. split; [done | by intros [? _]].
  - split.
    + split.
      * by destruct e0.
      * by intros (status' & ? & _).
    + intros e. split.
      * by destruct e0; intros [= <-].
      * intros ([= ->] & H1 & H2 & H3 & H4).
        by destruct e.
Qed.

(** X9. [resolve_dns] sends the address query and nothing else, never a
    CNAME query. It returns [True] exactly when the address lookup
    answers, and never [False]: when the address lookup raises,
    whatever it raises, [resolve_dns] raises [AttributeError], and it
    raises nothing in any other case. *)
Theorem resolve_dns_outcome (self : SubdomainScanner) (net : network)
    (s : string) :
  (resolve_dns self s net).1 = [Query s A]
  ∧ ((resolve_dns self s net).2 = inl true ↔ resolve net s A = Answer)
  ∧ (resolve_dns self s net).2 ≠ inl false
  ∧ (∀ e, (resolve_dns self s net).2 = inr e ↔
       e = AttributeError ∧ ∃ e0, resolve net s A = LookupRaises e0).
Proof.
  rewrite resolve_dns_unfold. simpl.
  destruct (resolve net s A) as [|e0] eqn:HA.
  - split; [done |]. split; [done |]. split; [done |].
    intros e. split; [done | by intros (_ & e1 & ?)].
  - split; [done |]. split; [done |]. split; [done |].
    intros e. split; [intros [= <-]; eauto | by intros [-> _]].
Qed.

(** X10. [quick_scan] returns whatever concurrency the scanner was built
    with, also one with which [scan_subdomains] raises or blocks: first
    the candidates whose address lookup answers and whose HTTPS request
    ends with a status below 400, then the candidates whose address
    lookup answers. *)
Theorem quick_scan_always_returns (self : SubdomainScanner)
    (net : network) (subdomains : gset string) :
  ∃ h d : gset string,
    result (quick_scan self net subdomains) = Returns (h, d)
    ∧ h = https_alive_of self net subdomains
    ∧ d = dns_resolved_of self net subdomains
    ∧ (∀ s, s ∈ d ↔ s ∈ subdomains ∧ resolve net s A = Answer)
    ∧ (∀ s, s ∈ h ↔
            s ∈ subdomains ∧ resolve net s A = Answer
            ∧ ∃ status,
                final (head net ("https://" +:+ s)) = Response status
                ∧ (status < 400)%Z).
Proof.
  exists (https_alive_of self net subdomains),
         (dns_resolved_of self net subdomains).
  split; [| split; [done | split; [done | split]]].
  - unfold quick_scan.
    rewrite scan_subdomains_positive by (simpl; lia).
    reflexivity.
  - apply dns_resolved_of_spec.
  - apply https_alive_of_spec.
Qed.

End ScannerExtras.

(** * The scan started by [confirm_scan] *)

Section HandlerExtras.
Import PyExc Net Coro Scanner ScannerSpec SubdomainGenerator GeneratorSpec.
Import Handlers.

Lemma get_scanner_for_mode_positive (mode : string) :
  (0 < concurrency (get_scanner_for_mode mode))%Z.
Proof.
  unfold get_scanner_for_mode.
  destruct (String.eqb mode "normal"); [simpl; lia |].
  destruct (String.eqb mode "medium"); simpl; lia.
Qed.

(** X11. Whatever the domain, the mode and the network, the scan that
    [confirm_scan] starts returns; each name it reports DNS-resolved is
    one of the generated candidates, and so a non-empty label, a dot and
    the domain without its leading [www.]; each name it reports
    HTTPS-alive is reported DNS-resolved as well. *)
Theorem confirm_scan_reports_subdomains (domain mode : string)
    (net : network) :
  ∃ h d : gset string,
    result (generate_and_scan domain mode net) = Returns (h, d)
    ∧ h ⊆ d
    ∧ d ⊆ generate_candidates domain mode
    ∧ all_in (is_subdomain_of (strip_www domain)) d.
Proof.
  unfold generate_and_scan.
  set (G := generate_candidates domain mode).
  set (scanner := get_scanner_for_mode mode).
  exists (https_alive_of scanner net G), (dns_resolved_of scanner net G).
  split; [apply scan_subdomains_positive, get_scanner_for_mode_positive |].
  split; [apply https_alive_of_subset |].
  assert (Hsub : dns_resolved_of scanner net G ⊆ G).
  { intros c. unfold dns_resolved_of. rewrite elem_of_filter. tauto. }
  split; [done |].
  intros c Hc.
  by apply (generate_candidates_all_subdomains domain mode), Hsub.
Qed.

(** X12. What the scan that [confirm_scan] starts sends by itself
    names a subdomain of the domain it was given: each request is the
    address query for, or the HEAD request to [https://] followed by, a
    non-empty label, a dot and the domain without its leading [www.],
    or a request to a redirect followed from such a HEAD request. *)
Theorem confirm_scan_addresses_only_subdomains (domain mode : string)
    (net : network) :
  Forall
    (λ ev, ∃ c, is_subdomain_of (strip_www domain) c
                ∧ (ev = Query c A
                   ∨ (resolve net c A = Answer
                      ∧ (ev = Head ("https://" +:+ c)
                                (timeout (get_scanner_for_mode mode))
                         ∨ ∃ u,
                             u ∈ redirects (head net ("https://" +:+ c))
                             ∧ ev = Follow u
                                      (timeout
                                         (get_scanner_for_mode mode))))))
    (sent (generate_and_scan domain mode net)).
Proof.
  apply Forall_forall. unfold generate_and_scan. intros ev Hev.
  apply sent_names_candidates in Hev as (c & Hc & Hshape).
  exists c. split; [| done].
  by apply (generate_candidates_all_subdomains domain mode).
Qed.

End HandlerExtras.


(** * Further properties of the generator *)

(** ** The labels do not depend on the domain *)

Section Retargeting.
Import PyStr PySet Itertools SubdomainGenerator LabelSpec.
Variables (d : string) (T : gset string).

Lemma append_nil_r (a : string) : a +:+ "" = a.
Proof.
  induction a as [|x a IH]; [done |]. rewrite append_cons. by f_equal.
Qed.

Lemma append_cancel_r (a b c : string) : a +:+ c = b +:+ c → a = b.
Proof.
  revert b. induction a as [|x a IH]; intros [|y b] H.
  - done.
  - apply (f_equal String.length) in H.
    rewrite append_nil_l, append_cons in H. simpl in H.
    rewrite length_append in H. lia.
  - apply (f_equal String.length) in H.
    rewrite append_nil_l, append_cons in H. simpl in H.
    rewrite length_append in H. lia.
  - rewrite !append_cons in H. injection H as -> H. f_equal. by apply IH.
Qed.

#[local] Instance at_domain_inj : Inj (=) (=) (at_domain d).
Proof. intros a b H. by eapply append_cancel_r. Qed.

Lemma retarget_empty : retarget d ∅ = ∅.
Proof. apply set_map_empty. Qed.

Lemma retarget_union (X Y : gset string) :
  retarget d (X ∪ Y) = retarget d X ∪ retarget d Y.
Proof. apply set_map_union_L. Qed.

Lemma retarget_singleton (x : string) :
  retarget d {[x]} = {[at_domain d x]}.
Proof. apply set_map_singleton_L. Qed.

Lemma retarget_list_to_set (xs : list string) :
  retarget d (list_to_set xs) = list_to_set (map (at_domain d) xs).
Proof. symmetry. apply (list_to_set_fmap_L (at_domain d) xs). Qed.

Lemma retarget_size (X : gset string) : size (retarget d X) = size X.
Proof.
  induction X as [|x X Hx IH] using set_ind_L.
  - by rewrite retarget_empty.
  - rewrite retarget_union, retarget_singleton.
    rewrite !size_union, !size_singleton, IH; [done | |].
    + apply disjoint_singleton_l. done.
    + apply disjoint_singleton_l. unfold retarget.
      rewrite elem_of_map. intros (y & Hy%at_domain_inj & Hin). congruence.
Qed.

Lemma tracks_add (x0 x : string) :
  at_domain d x0 = x → tracks d T (add x0) (add x).
Proof.
  intros <- S0. unfold add.
  rewrite retarget_union, retarget_singleton.
  rewrite !(assoc_L (∪)). by rewrite (comm_L (∪) _ T).
Qed.

Lemma tracks_update (xs0 xs : list string) :
  map (at_domain d) xs0 = xs → tracks d T (update xs0) (update xs).
Proof.
  intros <- S0. unfold update.
  rewrite retarget_union, retarget_list_to_set.
  rewrite !(assoc_L (∪)). by rewrite (comm_L (∪) _ T).
Qed.

Lemma tracks_seq2 (f0 f g0 g : gset string → gset string) :
  tracks d T f0 f → tracks d T g0 g → tracks d T (f0 ;> g0) (f ;> g).
Proof. intros Hf Hg S0. unfold seq2. by rewrite Hf, Hg. Qed.

Lemma tracks_id : tracks d T id id.
Proof. by intros S0. Qed.

Lemma tracks_for_each {X} (xs : list X)
    (body0 body : X → gset string → gset string) :
  (∀ x, x ∈ xs → tracks d T (body0 x) (body x)) →
  tracks d T (for_each xs body0) (for_each xs body).
Proof.
  unfold for_each.
  induction xs as [|x xs IH]; intros Hbody S0; simpl; [done |].
  rewrite Hbody by (by left).
  apply IH. intros y Hy. apply Hbody. by right.
Qed.

End Retargeting.

Ltac dom_tac :=
  unfold LabelSpec.at_domain; rewrite ?append_assoc; reflexivity.

Ltac track_tac :=
  repeat lazymatch goal with
         | |- LabelSpec.tracks _ _ (PySet.seq2 _ _) (PySet.seq2 _ _) =>
             apply tracks_seq2
         | |- LabelSpec.tracks _ _ (PySet.add _) (PySet.add _) =>
             apply tracks_add; dom_tac
         | |- LabelSpec.tracks _ _ (PySet.for_each _ _)
                (PySet.for_each _ _) =>
             apply tracks_for_each; intros ? ?
         | |- LabelSpec.tracks _ _ (if ?c then _ else _)
                (if ?c then _ else _) =>
             destruct c
         | |- LabelSpec.tracks _ _ id id => apply tracks_id
         end.

Section GeneratorLabels.
Import PyStr PySet Itertools SubdomainGenerator LabelSpec GeneratorSpec.

Lemma base_candidates_tracks (d : string) (T : gset string) :
  tracks d T (update (base_candidates "")) (update (base_candidates d)).
Proof. apply tracks_update. reflexivity. Qed.

Lemma common_prefixes_tracks (d : string) (T : gset string) :
  tracks d T
    (for_each COMMON_PREFIXES (λ prefix, add (prefix +:+ "." +:+ "")))
    (for_each COMMON_PREFIXES (λ prefix, add (prefix +:+ "." +:+ d))).
Proof. track_tac. Qed.

Lemma normal_branch_tracks (d : string) (T : gset string) :
  tracks d T (normal_branch "") (normal_branch d).
Proof. unfold normal_branch. track_tac. Qed.

Lemma medium_branch_tracks (d : string) (T : gset string) :
  tracks d T (medium_branch "") (medium_branch d).
Proof. unfold medium_branch. track_tac. Qed.

Lemma ultimate_loops_tracks (d : string) (T : gset string) :
  tracks d T (ultimate_loops "") (ultimate_loops d).
Proof. unfold ultimate_loops. track_tac. Qed.

Lemma permutation_block_tracks (d mode : string) (T : gset string) :
  tracks d T (permutation_block "" mode) (permutation_block d mode).
Proof. unfold permutation_block. track_tac. Qed.

Lemma ultimate_branch_loops (d : string) :
  ultimate_branch d = ultimate_loops d ;> update (special_patterns d).
Proof. reflexivity. Qed.

Lemma tracks_empty_apply (d : string)
    (f0 f : gset string → gset string) (S0 : gset string) :
  tracks d ∅ f0 f → f (retarget d S0) = retarget d (f0 S0).
Proof. intros H. specialize (H S0). by rewrite !(left_id_L ∅ (∪)) in H. Qed.

(** The candidates of the two base layers, at [d] and at the empty
    domain. *)
Lemma base_layers_labels (d : string) :
  for_each COMMON_PREFIXES (λ prefix, add (prefix +:+ "." +:+ d))
    (update (base_candidates d) ∅)
  = retarget d
      (for_each COMMON_PREFIXES (λ prefix, add (prefix +:+ "." +:+ ""))
         (update (base_candidates "") ∅)).
Proof.
  rewrite <- (tracks_empty_apply d _ _ _ (common_prefixes_tracks d ∅)).
  f_equal.
  rewrite <- (tracks_empty_apply d _ _ _ (base_candidates_tracks d ∅)).
  by rewrite retarget_empty.
Qed.

(** What [generate_candidates] comes to for each mode. *)
Lemma generate_candidates_normal (domain : string) :
  generate_candidates domain "normal"
  = normal_branch (strip_www domain)
      (for_each COMMON_PREFIXES
         (λ prefix, add (prefix +:+ "." +:+ strip_www domain))
         (update (base_candidates (strip_www domain)) ∅)).
Proof. reflexivity. Qed.

Lemma generate_candidates_medium (domain : string) :
  generate_candidates domain "medium"
  = permutation_block (strip_www domain) "medium"
      (medium_branch (strip_www domain)
         (for_each COMMON_PREFIXES
            (λ prefix, add (prefix +:+ "." +:+ strip_www domain))
            (update (base_candidates (strip_www domain)) ∅))).
Proof. reflexivity. Qed.

Lemma generate_candidates_ultimate (domain : string) :
  generate_candidates domain "ultimate"
  = permutation_block (strip_www domain) "ultimate"
      (update (special_patterns (strip_www domain))
         (ultimate_loops (strip_www domain)
            (for_each COMMON_PREFIXES
               (λ prefix, add (prefix +:+ "." +:+ strip_www domain))
               (update (base_candidates (strip_www domain)) ∅)))).
Proof. reflexivity. Qed.

Lemma generate_candidates_other (domain mode : string) :
  mode ≠ "normal" → mode ≠ "medium" → mode ≠ "ultimate" →
  generate_candidates domain mode
  = for_each COMMON_PREFIXES
      (λ prefix, add (prefix +:+ "." +:+ strip_www domain))
      (update (base_candidates (strip_www domain)) ∅).
Proof.
  intros Hn%String.eqb_neq Hm%String.eqb_neq Hu%String.eqb_neq.
  unfold generate_candidates. cbn [existsb]. by rewrite Hn, Hm, Hu.
Qed.

Lemma mode_cases (mode : string) :
  mode = "normal" ∨ mode = "medium" ∨ mode = "ultimate"
  ∨ (mode ≠ "normal" ∧ mode ≠ "medium" ∧ mode ≠ "ultimate").
Proof.
  destruct (decide (mode = "normal")); [tauto |].
  destruct (decide (mode = "medium")); [tauto |].
  destruct (decide (mode = "ultimate")); tauto.
Qed.

Lemma generate_candidates_retarget (domain mode : string) :
  mode ≠ "ultimate" →
  generate_candidates domain mode
  = retarget (strip_www domain) (generate_candidates "" mode).
Proof.
  intros Hu.
  destruct (mode_cases mode) as [->|[->|[->|(Hn & Hm & _)]]];
    [| | exfalso; apply Hu; reflexivity |].
  - rewrite (generate_candidates_normal domain).
    rewrite (generate_candidates_normal "").
    change (strip_www "") with "". set (d := strip_www domain).
    rewrite (base_layers_labels d).
    exact (tracks_empty_apply d (normal_branch "") (normal_branch d) _
             (normal_branch_tracks d ∅)).
  - rewrite (generate_candidates_medium domain).
    rewrite (generate_candidates_medium "").
    change (strip_www "") with "". set (d := strip_www domain).
    rewrite (base_layers_labels d).
    rewrite (tracks_empty_apply d (medium_branch "") (medium_branch d) _
               (medium_branch_tracks d ∅)).
    exact (tracks_empty_apply d (permutation_block "" "medium")
             (permutation_block d "medium") _
             (permutation_block_tracks d "medium" ∅)).
  - rewrite (generate_candidates_other domain mode Hn Hm Hu).
    rewrite (generate_candidates_other "" mode Hn Hm Hu).
    change (strip_www "") with "".
    exact (base_layers_labels (strip_www domain)).
Qed.

Lemma generate_candidates_size (domain mode : string) :
  mode ≠ "ultimate" →
  size (generate_candidates domain mode)
  = (if String.eqb mode "normal" then 96
     else if String.eqb mode "medium" then 195 else 80)%nat.
Proof.
  intros Hu.
  rewrite (generate_candidates_retarget domain mode Hu), retarget_size.
  destruct (mode_cases mode) as [->|[->|[->|(Hn & Hm & _)]]];
    [| | exfalso; apply Hu; reflexivity |].
  - vm_compute. reflexivity.
  - vm_compute. reflexivity.
  - rewrite (generate_candidates_other "" mode Hn Hm Hu).
    apply String.eqb_neq in Hn, Hm. rewrite Hn, Hm.
    vm_compute. reflexivity.
Qed.

(** The list [special_patterns], at [d] and at the empty domain. *)
Lemma special_patterns_labels (d : string) :
  (list_to_set (special_patterns d) : gset string)
  = {[domain_token d]}
    ∪ retarget d (list_to_set (special_patterns "") ∖ {[ "prod-." ]}).
Proof.
  assert (H0 : (list_to_set (special_patterns "") ∖ {[ "prod-." ]}
                : gset string)
               = list_to_set
                   [ "alpha."; "beta."; "gamma."; "internal."; "external.";
                     "legacy."; "modern."; "cloud."; "aws."; "azure.";
                     "office."; "home."; "remote." ]).
  { vm_compute. reflexivity. }
  rewrite H0. clear H0. rewrite retarget_list_to_set.
  unfold special_patterns, domain_token.
  cbn [map list_to_set foldr].
  cbv [at_domain String.append].
  apply set_eq. intros x. rewrite !elem_of_union, !elem_of_singleton.
  rewrite elem_of_empty. tauto.
Qed.

Lemma retarget_nil (X : gset string) : retarget "" X = X.
Proof.
  apply set_eq. intros c. unfold retarget. rewrite elem_of_map. split.
  - intros (c0 & -> & Hc0). unfold at_domain. by rewrite append_nil_r.
  - intros Hc. exists c. unfold at_domain. by rewrite append_nil_r.
Qed.

(** [permutation_block] leaves alone what is in the set already. *)
Lemma permutation_block_beside (mode : string) (T S0 : gset string) :
  permutation_block "" mode (T ∪ S0) = T ∪ permutation_block "" mode S0.
Proof.
  pose proof (permutation_block_tracks "" mode T S0) as H.
  by rewrite !retarget_nil in H.
Qed.

(** Mode ["ultimate"], at any domain and at the empty one, in terms of
    the candidates [Z] that the empty domain has besides ["prod-."]. *)
Lemma generate_candidates_ultimate_split (domain : string) :
  ∃ Z : gset string,
    generate_candidates domain "ultimate"
    = {[domain_token (strip_www domain)]} ∪ retarget (strip_www domain) Z
    ∧ generate_candidates "" "ultimate" = {[ "prod-." ]} ∪ Z.
Proof.
  set (Y0 := ultimate_loops ""
               (for_each COMMON_PREFIXES
                  (λ prefix, add (prefix +:+ "." +:+ ""))
                  (update (base_candidates "") ∅))).
  set (R := (list_to_set (special_patterns "") ∖ {[ "prod-." ]}
             : gset string)).
  exists (permutation_block "" "ultimate" (R ∪ Y0)). split.
  - rewrite (generate_candidates_ultimate domain).
    set (d := strip_www domain).
    rewrite (base_layers_labels d).
    rewrite (tracks_empty_apply d (ultimate_loops "") (ultimate_loops d) _
               (ultimate_loops_tracks d ∅)).
    fold Y0. unfold update at 1. rewrite (special_patterns_labels d).
    fold R. rewrite <- (assoc_L (∪)), <- retarget_union.
    exact (permutation_block_tracks d "ultimate" {[domain_token d]}
             (R ∪ Y0)).
  - rewrite (generate_candidates_ultimate "").
    change (strip_www "") with "". fold Y0. unfold update at 1.
    assert (Hsp : (list_to_set (special_patterns "") : gset string)
                  = {[ "prod-." ]} ∪ R).
    { unfold R. apply set_eq. intros x.
      rewrite elem_of_union, elem_of_difference, elem_of_singleton.
      split; [| intros [->|[? _]]; [| done]].
      - destruct (decide (x = "prod-.")); tauto.
      - apply elem_of_list_to_set. unfold special_patterns.
        rewrite !elem_of_cons. do 3 right. by left. }
    rewrite Hsp, <- (assoc_L (∪)).
    exact (permutation_block_beside "ultimate" {[ "prod-." ]} (R ∪ Y0)).
Qed.

(** X13. In every mode but ["ultimate"] the labels do not depend on the
    domain: the candidates are those of the empty domain with the
    domain, less one leading [www.], put after the dot. So there are 96
    of them in mode ["normal"], 195 in mode ["medium"] and 80 in every
    mode without a branch of its own, whatever the domain. *)
Theorem generate_candidates_labels (domain mode : string) :
  mode ≠ "ultimate" →
  generate_candidates domain mode
  = retarget (strip_www domain) (generate_candidates "" mode)
  ∧ size (generate_candidates domain mode)
    = (if String.eqb mode "normal" then 96
       else if String.eqb mode "medium" then 195 else 80)%nat.
Proof.
  intros Hu. split.
  - exact (generate_candidates_retarget domain mode Hu).
  - exact (generate_candidates_size domain mode Hu).
Qed.

Lemma generate_candidates_labels_example :
  generate_candidates "www.example.com" "medium"
  = retarget (strip_www "www.example.com") (generate_candidates "" "medium")
  ∧ size (generate_candidates "www.example.com" "medium")
    = (if String.eqb "medium" "normal" then 96
       else if String.eqb "medium" "medium" then 195 else 80)%nat.
Proof.
  apply (generate_candidates_labels "www.example.com" "medium").
  discriminate.
Defined.

(** X14. In mode ["ultimate"] one candidate is made from the domain,
    [prod-] followed by the domain with hyphens for its dots; every
    other candidate is one of the empty domain with the domain put
    after it, and every candidate of the empty domain but ["prod-."]
    gives one. *)
Theorem generate_candidates_ultimate_labels (domain : string) :
  domain_token (strip_www domain) ∈ generate_candidates domain "ultimate"
  ∧ generate_candidates domain "ultimate"
    ⊆ {[domain_token (strip_www domain)]}
      ∪ retarget (strip_www domain) (generate_candidates "" "ultimate")
  ∧ retarget (strip_www domain)
      (generate_candidates "" "ultimate" ∖ {[ "prod-." ]})
    ⊆ generate_candidates domain "ultimate".
Proof.
  destruct (generate_candidates_ultimate_split domain) as (Z & -> & ->).
  set (d := strip_www domain). set (tok := domain_token d).
  clearbody tok. split; [| split].
  - apply elem_of_union. left. by apply elem_of_singleton.
  - intros c. rewrite !elem_of_union. intros [Hc|Hc]; [by left | right].
    unfold retarget in *. rewrite elem_of_map in *.
    destruct Hc as (c0 & -> & Hc0). exists c0. split; [done |].
    apply elem_of_union. by right.
  - intros c. unfold retarget. rewrite elem_of_map.
    intros (c0 & -> & Hc0). apply elem_of_union. right.
    rewrite elem_of_map. exists c0. split; [done |].
    apply elem_of_difference in Hc0 as [Hc0 Hbad].
    apply elem_of_union in Hc0 as [Hc0|Hc0]; [done | done].
Qed.

(** X15. In every mode but ["ultimate"], [estimate_count] is below the
    number of candidates that [generate_candidates] returns, for every
    domain. *)
Theorem estimate_count_below_actual (domain mode : string) :
  mode ≠ "ultimate" →
  (estimate_count mode < size (generate_candidates domain mode))%nat.
Proof.
  intros Hu. unfold estimate_count.
  rewrite (generate_candidates_size domain mode Hu).
  apply String.eqb_neq in Hu. rewrite Hu.
  destruct (String.eqb mode "normal"); [lia |].
  destruct (String.eqb mode "medium"); lia.
Qed.

Lemma estimate_count_below_actual_example :
  (estimate_count "normal"
   < size (generate_candidates "example.com" "normal"))%nat.
Proof.
  apply (estimate_count_below_actual "example.com" "normal").
  discriminate.
Defined.

End GeneratorLabels.


(** ** Every mode keeps the base layers *)

Section Extensive.
Import PySet LabelSpec.

Lemma extensive_add (x : string) : extensive (add x).
Proof. intros S y Hy. unfold add. apply elem_of_union. by right. Qed.

Lemma extensive_update (xs : list string) : extensive (update xs).
Proof. intros S y Hy. unfold update. apply elem_of_union. by right. Qed.

Lemma extensive_seq2 (f g : gset string → gset string) :
  extensive f → extensive g → extensive (f ;> g).
Proof. intros Hf Hg S y Hy. unfold seq2. by apply Hg, Hf. Qed.

Lemma extensive_id : extensive id.
Proof. by intros S y Hy. Qed.

Lemma extensive_for_each {X} (xs : list X)
    (body : X → gset string → gset string) :
  (∀ x, extensive (body x)) → extensive (for_each xs body).
Proof.
  intros Hbody. unfold for_each.
  induction xs as [|x xs IH]; intros S y Hy; simpl; [done |].
  by apply IH, Hbody.
Qed.

End Extensive.

Ltac ext_tac :=
  repeat lazymatch goal with
         | |- LabelSpec.extensive (PySet.seq2 _ _) => apply extensive_seq2
         | |- LabelSpec.extensive (PySet.add _) => apply extensive_add
         | |- LabelSpec.extensive (PySet.update _) => apply extensive_update
         | |- LabelSpec.extensive (PySet.for_each _ _) =>
             apply extensive_for_each; intros ?
         | |- LabelSpec.extensive (if ?c then _ else _) => destruct c
         | |- LabelSpec.extensive id => apply extensive_id
         end.

Section BaseLayers.
Import PyStr PySet Itertools SubdomainGenerator LabelSpec GeneratorSpec.

Lemma normal_branch_extensive (d : string) : extensive (normal_branch d).
Proof. unfold normal_branch. ext_tac. Qed.

Lemma medium_branch_extensive (d : string) : extensive (medium_branch d).
Proof. unfold medium_branch. ext_tac. Qed.

Lemma ultimate_loops_extensive (d : string) : extensive (ultimate_loops d).
Proof. unfold ultimate_loops. ext_tac. Qed.

Lemma permutation_block_extensive (d mode : string) :
  extensive (permutation_block d mode).
Proof. unfold permutation_block. ext_tac. Qed.

(** X16. Every mode returns at least the candidates of the two base
    layers, the list [base_candidates] and [COMMON_PREFIXES], which are
    all that a mode without a branch of its own returns. *)
Theorem base_layers_in_every_mode (domain mode other : string) :
  other ≠ "normal" → other ≠ "medium" → other ≠ "ultimate" →
  generate_candidates domain other ⊆ generate_candidates domain mode.
Proof.
  intros Hn Hm Hu.
  rewrite (generate_candidates_other domain other Hn Hm Hu).
  set (d := strip_www domain).
  destruct (mode_cases mode) as [->|[->|[->|(Hn' & Hm' & Hu')]]].
  - rewrite (generate_candidates_normal domain). fold d.
    exact (normal_branch_extensive d _).
  - rewrite (generate_candidates_medium domain). fold d.
    intros c Hc.
    exact (permutation_block_extensive d "medium" _ c
             (medium_branch_extensive d _ c Hc)).
  - rewrite (generate_candidates_ultimate domain). fold d.
    intros c Hc.
    exact (permutation_block_extensive d "ultimate" _ c
             (extensive_update (special_patterns d) _ c
                (ultimate_loops_extensive d _ c Hc))).
  - rewrite (generate_candidates_other domain mode Hn' Hm' Hu'). fold d.
    intros c Hc. exact Hc.
Qed.

Lemma base_layers_in_every_mode_example :
  generate_candidates "example.com" "none"
  ⊆ generate_candidates "example.com" "ultimate".
Proof.
  apply (base_layers_in_every_mode "example.com" "ultimate" "none");
    discriminate.
Defined.

End BaseLayers.

(** ** Candidates are one label below the domain and match the pattern *)

Section LabelFacts.
Import PyStr PySet Itertools SubdomainGenerator LabelSpec GeneratorSpec Utils.

Lemma all_chars_mono (p q : ascii → bool) (s : string) :
  (∀ c, p c = true → q c = true) →
  all_chars p s = true → all_chars q s = true.
Proof.
  intros Hpq. induction s as [|c s IH]; [done |]. simpl.
  intros [Hc Hs]%andb_true_iff. by rewrite (Hpq c Hc), IH.
Qed.

Lemma all_chars_app (p : ascii → bool) (a b : string) :
  all_chars p (a +:+ b) = all_chars p a && all_chars p b.
Proof.
  induction a as [|c a IH]; [done |].
  rewrite append_cons. simpl. by rewrite IH, andb_assoc.
Qed.

Lemma is_label_char_host (c : ascii) :
  is_label_char c = true → is_host_char c = true.
Proof.
  unfold is_label_char, is_host_char.
  destruct (is_lower c), (is_digit c), (Ascii.eqb c "-"),
    (Ascii.eqb c "."); done.
Qed.

Lemma is_label_char_not_dot (c : ascii) :
  is_label_char c = true → negb (Ascii.eqb c ".") = true.
Proof.
  destruct (Ascii.eqb_spec c ".") as [->|]; [| done].
  vm_compute. discriminate.
Qed.

Lemma is_lower_host (c : ascii) : is_lower c = true → is_host_char c = true.
Proof. unfold is_host_char. by intros ->. Qed.

Lemma elem_label (l : list string) (x : string) :
  forallb (all_chars is_label_char) l = true → x ∈ l →
  all_chars is_label_char x = true.
Proof.
  intros Hall Hx. apply list_elem_of_In in Hx.
  rewrite forallb_forall in Hall. by apply Hall.
Qed.

Lemma fmt_label (a b i : nat) :
  forallb (all_chars is_label_char) (map fmt_02d (range a b)) = true →
  i ∈ range a b → all_chars is_label_char (fmt_02d i) = true.
Proof.
  intros Hall Hi. apply (elem_label _ _ Hall).
  apply list_elem_of_fmap. by exists i.
Qed.

Lemma label_tail_last (d : string) : label_tail d ("." +:+ d).
Proof. by exists "". Qed.

Lemma label_tail_app (d a r : string) :
  all_chars is_label_char a = true →
  label_tail d r → label_tail d (a +:+ r).
Proof.
  intros Ha (l & Hl & ->). exists (a +:+ l). split.
  - by rewrite all_chars_app, Ha, Hl.
  - by rewrite append_assoc.
Qed.

Lemma labelled_app_nonempty (d a r : string) :
  a ≠ "" → all_chars is_label_char a = true →
  label_tail d r → labelled d (a +:+ r).
Proof.
  intros Hne Ha (l & Hl & ->). exists (a +:+ l). split; [| split].
  - by apply append_nonempty_l.
  - by rewrite all_chars_app, Ha, Hl.
  - by rewrite append_assoc.
Qed.

Lemma labelled_app (d a r : string) :
  all_chars is_label_char a = true →
  labelled d r → labelled d (a +:+ r).
Proof.
  intros Ha (l & Hne & Hl & ->). exists (a +:+ l). split; [| split].
  - by apply append_nonempty_r.
  - by rewrite all_chars_app, Ha, Hl.
  - by rewrite append_assoc.
Qed.

(** *** The words joined by [permutation_block] *)

Lemma combinations_elem {X} (l : list X) : ∀ k c,
  c ∈ combinations l k → ∀ x, x ∈ c → x ∈ l.
Proof.
  induction l as [|y l IH]; intros [|k] c; simpl.
  - intros ->%list_elem_of_singleton x Hx. by apply elem_of_nil in Hx.
  - intros H. by apply elem_of_nil in H.
  - intros ->%list_elem_of_singleton x Hx. by apply elem_of_nil in Hx.
  - rewrite elem_of_app. intros [H|H] x Hx.
    + apply list_elem_of_fmap in H as (c' & -> & Hc').
      apply elem_of_cons in Hx as [->|Hx]; [by left |].
      right. by eapply IH.
    + right. by eapply IH.
Qed.

Lemma selects_elem {X} (l : list X) : ∀ y r,
  (y, r) ∈ selects l → ∀ x, x ∈ y :: r → x ∈ l.
Proof.
  induction l as [|z l IH]; intros y r; simpl.
  - intros H. by apply elem_of_nil in H.
  - rewrite elem_of_cons. intros [H|H] x Hx.
    + by inversion H; subst.
    + apply list_elem_of_fmap in H as ([y' r'] & Heq & Hin).
      simpl in Heq. inversion Heq; subst.
      apply elem_of_cons in Hx as [->|Hx].
      * right. eapply IH; [done |]. by left.
      * apply elem_of_cons in Hx as [->|Hx]; [by left |].
        right. eapply IH; [done |]. by right.
Qed.

Lemma arrangements_elem {X} (n : nat) : ∀ (l p : list X),
  p ∈ arrangements n l → ∀ x, x ∈ p → x ∈ l.
Proof.
  induction n as [|n IH]; intros l p; simpl.
  - intros ->%list_elem_of_singleton x Hx. by apply elem_of_nil in Hx.
  - rewrite list_elem_of_In, in_flat_map.
    intros ([y r] & Hsel%list_elem_of_In & Hin) x Hx. simpl in Hin.
    apply list_elem_of_In, list_elem_of_fmap in Hin as (p' & -> & Hp').
    apply (selects_elem l y r Hsel).
    apply elem_of_cons in Hx as [->|Hx]; [by left |].
    right. by eapply IH.
Qed.

Lemma join_label (parts : list string) :
  (∀ x, x ∈ parts → all_chars is_label_char x = true) →
  all_chars is_label_char (join "-" parts) = true.
Proof.
  induction parts as [|a [|b rest] IH]; intros Hall; [done | |].
  - apply Hall. by left.
  - rewrite join_two_or_more, !all_chars_app.
    rewrite (Hall a) by (by left).
    rewrite IH; [done |]. intros x Hx. apply Hall. by right.
Qed.

Lemma join_arrangement_label (i : nat) (combo perm : list string) :
  combo ∈ combinations common_words i →
  perm ∈ permutations combo →
  all_chars is_label_char (join "-" perm) = true.
Proof.
  intros Hcombo Hperm. apply join_label. intros x Hx.
  apply (elem_label common_words x eq_refl).
  apply (combinations_elem _ _ _ Hcombo).
  by apply (arrangements_elem _ _ _ Hperm).
Qed.

End LabelFacts.

Ltac label_tac :=
  first [ reflexivity
        | match goal with
          | H : ?i ∈ PyStr.range ?a ?b
            |- Utils.all_chars _ (PyStr.fmt_02d ?i) = true =>
              exact (fmt_label a b i eq_refl H)
          | H : ?x ∈ ?l |- Utils.all_chars _ ?x = true =>
              exact (elem_label l x eq_refl H)
          end ].

Ltac tail_tac :=
  first [ apply label_tail_last
        | apply label_tail_app; [label_tac | tail_tac] ].

Ltac shape_tac :=
  first [ apply labelled_app_nonempty; [nonempty_tac | label_tac | tail_tac]
        | apply labelled_app; [label_tac | shape_tac] ].

Ltac form_tac :=
  repeat lazymatch goal with
         | |- GeneratorSpec.preserves _ (PySet.seq2 _ _) =>
             apply preserves_seq2
         | |- GeneratorSpec.preserves _ (PySet.add _) =>
             apply preserves_add; left; shape_tac
         | |- GeneratorSpec.preserves _ (PySet.for_each _ _) =>
             apply preserves_for_each; intros ? ?
         end.

Section Labels.
Import PyStr PySet Itertools SubdomainGenerator LabelSpec GeneratorSpec Utils.

Lemma replace_no_dot (s : string) :
  all_chars (λ x, negb (Ascii.eqb x ".")) (replace "." "-" s) = true.
Proof.
  induction s as [|c s IH]; [done |]. simpl. rewrite IH.
  destruct (Ascii.eqb c ".") eqn:E; [reflexivity |].
  by rewrite E.
Qed.

Lemma replace_label_chars (s : string) :
  all_chars is_host_char s = true →
  all_chars is_label_char (replace "." "-" s) = true.
Proof.
  induction s as [|c s IH]; [done |]. simpl.
  intros [Hc Hs]%andb_true_iff. rewrite (IH Hs), andb_true_r.
  destruct (Ascii.eqb c ".") eqn:E; [reflexivity |].
  unfold is_host_char in Hc. unfold is_label_char.
  rewrite E in Hc.
  by destruct (is_lower c), (is_digit c), (Ascii.eqb c "-").
Qed.

(** Every candidate is a label of [[a-z0-9-]] in front of the domain, or
    the candidate of mode ["ultimate"] made from the domain. *)
Lemma base_candidates_form (d : string) :
  Forall (candidate_form d) (base_candidates d).
Proof.
  unfold base_candidates.
  repeat (apply Forall_cons_2; [left; shape_tac |]). apply Forall_nil_2.
Qed.

Lemma special_patterns_form (d : string) :
  Forall (candidate_form d) (special_patterns d).
Proof.
  unfold special_patterns.
  do 3 (apply Forall_cons_2; [left; shape_tac |]).
  apply Forall_cons_2; [by right |].
  repeat (apply Forall_cons_2; [left; shape_tac |]). apply Forall_nil_2.
Qed.

Lemma common_prefixes_form (d : string) :
  preserves (candidate_form d)
    (for_each COMMON_PREFIXES (λ prefix, add (prefix +:+ "." +:+ d))).
Proof. form_tac. Qed.

Lemma normal_branch_form (d : string) :
  preserves (candidate_form d) (normal_branch d).
Proof. unfold normal_branch. form_tac. Qed.

Lemma medium_branch_form (d : string) :
  preserves (candidate_form d) (medium_branch d).
Proof. unfold medium_branch. form_tac. Qed.

Lemma ultimate_branch_form (d : string) :
  preserves (candidate_form d) (ultimate_branch d).
Proof.
  unfold ultimate_branch. form_tac.
  apply preserves_update, special_patterns_form.
Qed.

Lemma permutation_block_form (d mode : string) :
  preserves (candidate_form d) (permutation_block d mode).
Proof.
  unfold permutation_block.
  apply preserves_for_each. intros i Hi%range_lower.
  apply preserves_for_each. intros combo Hcombo.
  apply preserves_for_each. intros perm Hperm.
  destruct (_ || _); [| apply preserves_id].
  apply preserves_add. left.
  apply labelled_app_nonempty; [| | apply label_tail_last].
  - by eapply join_arrangement_nonempty.
  - by eapply join_arrangement_label.
Qed.

Lemma candidate_shape (domain mode : string) :
  all_in (candidate_form (strip_www domain))
    (generate_candidates domain mode).
Proof.
  unfold generate_candidates.
  set (d := strip_www domain).
  assert (H1 : all_in (candidate_form d)
                 (update (base_candidates d) ∅)).
  { apply preserves_update, all_in_empty. apply base_candidates_form. }
  apply common_prefixes_form in H1.
  set (c1 := for_each COMMON_PREFIXES _ _) in *.
  assert (H2 : all_in (candidate_form d)
                 (if String.eqb mode "normal" then normal_branch d c1
                  else if String.eqb mode "medium" then medium_branch d c1
                  else if String.eqb mode "ultimate"
                       then ultimate_branch d c1
                  else c1)).
  { destruct (String.eqb mode "normal");
      [by apply normal_branch_form |].
    destruct (String.eqb mode "medium");
      [by apply medium_branch_form |].
    destruct (String.eqb mode "ultimate");
      [by apply ultimate_branch_form | done]. }
  destruct (existsb _ _); [| done].
  by apply permutation_block_form.
Qed.

(** X17. Whatever the domain and the mode, every candidate is exactly one
    label below the domain (less one leading [www.]): a non-empty string
    without a dot, a dot, and the domain. *)
Theorem generate_candidates_one_label (domain mode : string) :
  all_in (one_label_below (strip_www domain))
    (generate_candidates domain mode).
Proof.
  intros c Hc.
  destruct (candidate_shape domain mode c Hc)
    as [(l & Hl & Hchars & ->)| ->].
  - exists l. split; [done |]. split; [| done].
    eapply all_chars_mono; [| exact Hchars].
    apply is_label_char_not_dot.
  - exists ("prod-" +:+ replace "." "-" (strip_www domain)).
    split; [by rewrite append_cons |]. split.
    + rewrite all_chars_app, replace_no_dot. reflexivity.
    + unfold domain_token. by rewrite append_assoc.
Qed.

Lemma generate_candidates_one_label_example :
  all_in (one_label_below (strip_www "www.example.com"))
    (generate_candidates "www.example.com" "ultimate").
Proof.
  apply (generate_candidates_one_label "www.example.com" "ultimate").
Defined.

(** *** The pattern of [validate_domain] *)

Lemma matches_from_mono (s : string) :
  matches_from false s = true → matches_from true s = true.
Proof.
  destruct s as [|c s]; [done |]. simpl.
  intros ->. by rewrite orb_true_r.
Qed.

Lemma matches_from_app (l t : string) :
  all_chars is_host_char l = true →
  matches_from true t = true →
  matches_from true (l +:+ t) = true.
Proof.
  induction l as [|c l IH]; [done |].
  rewrite append_cons. simpl.
  intros [Hc Hl]%andb_true_iff Ht.
  rewrite Hc, (IH Hl Ht). by rewrite orb_true_r.
Qed.

Lemma matches_from_dot (t : string) :
  matches_tld ("." +:+ t) = true ∨ matches_from true t = true →
  matches_from true ("." +:+ t) = true.
Proof.
  rewrite append_cons, append_nil_l.
  change (matches_from true (String "." t))
    with (true && matches_tld (String "." t)
          || is_host_char "." && matches_from true t).
  intros [->| ->]; [done |].
  by rewrite orb_true_r.
Qed.

Lemma matches_label (l t : string) :
  l ≠ "" → all_chars is_host_char l = true →
  matches_tld ("." +:+ t) = true ∨ matches_from true t = true →
  matches_domain_pattern (l +:+ "." +:+ t) = true.
Proof.
  intros Hne Hl Ht. destruct l as [|c l]; [done |].
  simpl in Hl. apply andb_true_iff in Hl as [Hc Hl].
  unfold matches_domain_pattern. rewrite append_cons.
  change (matches_from false (String c (l +:+ "." +:+ t)))
    with (false && matches_tld (String c (l +:+ "." +:+ t))
          || is_host_char c && matches_from true (l +:+ "." +:+ t)).
  rewrite Hc. simpl.
  apply matches_from_app; [done |]. by apply matches_from_dot.
Qed.

Lemma matches_host_chars (s : string) : ∀ seen,
  matches_from seen s = true → all_chars is_host_char s = true.
Proof.
  induction s as [|c s IH]; [done |]. intros seen.
  change (matches_from seen (String c s))
    with (seen && matches_tld (String c s)
          || is_host_char c && matches_from true s).
  intros [[_ H]%andb_true_iff|[Hc H]%andb_true_iff]%orb_true_iff.
  - unfold matches_tld in H.
    destruct (Ascii.eqb_spec c ".") as [->|Hne].
    + apply andb_true_iff in H as [_ H]. simpl.
      eapply all_chars_mono; [| exact H]. apply is_lower_host.
    + destruct c as [[] [] [] [] [] [] [] []]; try discriminate H.
      by destruct Hne.
  - simpl. by rewrite Hc, (IH true H).
Qed.

Lemma startswith_split (p d : string) :
  startswith d p = true → d = p +:+ slice_from (String.length p) d.
Proof.
  unfold startswith. revert d.
  induction p as [|x p IH]; intros d H; [done |].
  destruct d as [|y d]; [done |]. simpl in H.
  destruct (ascii_dec x y) as [->|]; [| done].
  rewrite append_cons. simpl. f_equal. by apply IH.
Qed.

Lemma startswith_www (d : string) :
  startswith d "www." = true → d = "www." +:+ slice_from 4 d.
Proof. apply (startswith_split "www." d). Qed.

Lemma strip_www_tail (d : string) :
  Domain d →
  matches_tld ("." +:+ strip_www d) = true
  ∨ matches_from true (strip_www d) = true.
Proof.
  unfold Domain, matches_domain_pattern, strip_www. intros Hd.
  destruct (startswith d "www.") eqn:Hw.
  - apply startswith_www in Hw. set (t := slice_from 4 d) in *.
    rewrite Hw in Hd. clearbody t. clear Hw.
    rewrite !append_cons, append_nil_l in Hd.
    rewrite append_cons, append_nil_l.
    simpl in Hd. apply orb_true_iff in Hd. tauto.
  - right. by apply matches_from_mono.
Qed.

Lemma strip_www_host_chars (d : string) :
  all_chars is_host_char d = true →
  all_chars is_host_char (strip_www d) = true.
Proof.
  unfold strip_www. destruct (startswith d "www.") eqn:Hw; [| done].
  apply startswith_www in Hw. intros H. rewrite Hw in H.
  rewrite all_chars_app in H. by apply andb_true_iff in H as [_ H].
Qed.

(** X18. If the domain matches the pattern of [validate_domain], so does
    every candidate generated for it, in every mode. *)
Theorem generate_candidates_match_pattern (domain mode : string) :
  Domain domain → all_in Domain (generate_candidates domain mode).
Proof.
  intros Hd c Hc. unfold Domain.
  pose proof (strip_www_tail domain Hd) as Htail.
  destruct (candidate_shape domain mode c Hc)
    as [(l & Hl & Hchars & ->)| ->].
  - apply matches_label; [done | | done].
    eapply all_chars_mono; [| exact Hchars]. apply is_label_char_host.
  - unfold domain_token. rewrite <- append_assoc.
    apply matches_label; [by rewrite append_cons | | done].
    rewrite all_chars_app. apply andb_true_iff. split; [done |].
    eapply all_chars_mono; [apply is_label_char_host |].
    apply replace_label_chars, strip_www_host_chars.
    by apply (matches_host_chars domain false).
Qed.

Lemma generate_candidates_match_pattern_example :
  all_in Domain (generate_candidates "www.example.com" "ultimate").
Proof.
  apply (generate_candidates_match_pattern "www.example.com" "ultimate").
  vm_compute. reflexivity.
Defined.

End Labels.

(** ** The domain the candidates are built on *)

Section StrippedDomain.
Import PyStr PySet SubdomainGenerator GeneratorSpec LabelSpec Utils.

Lemma candidate_one_label (domain mode c : string) :
  c ∈ generate_candidates domain mode →
  one_label_below (strip_www domain) c.
Proof.
  intros Hc.
  destruct (candidate_shape domain mode c Hc)
    as [(l & Hl & Hchars & ->)| ->].
  - exists l. split; [done |]. split; [| done].
    eapply all_chars_mono; [| exact Hchars].
    apply is_label_char_not_dot.
  - exists ("prod-" +:+ replace "." "-" (strip_www domain)).
    split; [by rewrite append_cons |]. split.
    + rewrite all_chars_app, replace_no_dot. reflexivity.
    + unfold domain_token. by rewrite append_assoc.
Qed.

(** One label in front of [t] does not end with [.www.] and [t]. *)
Lemma one_label_not_below_www (t c : string) :
  one_label_below t c → ¬ ends_with_dot ("www." +:+ t) c.
Proof.
  intros (l & _ & Hdots & ->) [front Heq].
  assert (H1 : (l +:+ ".") +:+ t = (front +:+ ".www.") +:+ t).
  { rewrite !append_assoc, Heq. reflexivity. }
  apply append_cancel_r in H1.
  assert (H2 : l +:+ "." = (front +:+ ".www") +:+ ".").
  { rewrite H1, append_assoc. f_equal. }
  apply append_cancel_r in H2. subst l.
  rewrite all_chars_app in Hdots.
  apply andb_true_iff in Hdots as [_ H]. discriminate H.
Qed.

(** C3 (as amended). For every domain string [d], valid or not, and
    every mode string [m]: each element of [generate_candidates d m] is
    a non-empty label, a dot, and [d'], where [d'] is [d] with one
    leading [www.] removed; [d'] is itself never an element. When [d]
    does not start with [www.], [d'] is [d], so that every candidate
    ends with a dot followed by [d] and [d] is not returned. When [d]
    starts with [www.], [d] is [www.] followed by [d'], and no candidate
    ends with a dot followed by [d]. *)
Theorem generate_candidates_suffix_of_stripped_domain (d m : string) :
  (∀ c, c ∈ generate_candidates d m →
        is_subdomain_of (strip_www d) c ∧ ends_with_dot (strip_www d) c)
  ∧ (strip_www d ∉ generate_candidates d m)
  ∧ (startswith d "www." = false → strip_www d = d)
  ∧ (startswith d "www." = true →
       d = "www." +:+ strip_www d
       ∧ ∀ c, c ∈ generate_candidates d m → ¬ ends_with_dot d c).
Proof.
  split; [| split; [| split]].
  - intros c Hc%generate_candidates_all_subdomains.
    split; [done | by apply subdomain_ends].
  - apply domain_not_candidate.
  - apply strip_www_id.
  - intros Hw.
    assert (Hd : d = "www." +:+ strip_www d).
    { unfold strip_www. rewrite Hw. by apply startswith_www. }
    split; [done |].
    intros c Hc%candidate_one_label.
    remember (strip_www d) as t eqn:Ht. clear Ht. subst d.
    by apply one_label_not_below_www.
Qed.

Lemma generate_candidates_suffix_witness :
  (is_subdomain_of "example.com" "mail.example.com"
   ∧ ends_with_dot "example.com" "mail.example.com")
  ∧ ("example.com" ∉ generate_candidates "www.example.com" "normal")
  ∧ "www.example.com" = "www." +:+ "example.com"
  ∧ ¬ ends_with_dot "www.example.com" "mail.example.com"
  ∧ strip_www "example.com" = "example.com".
Proof.
  destruct (generate_candidates_suffix_of_stripped_domain
              "www.example.com" "normal") as (Hall & Hnot & _ & Hwww).
  destruct (generate_candidates_suffix_of_stripped_domain
              "example.com" "normal") as (_ & _ & Hid & _).
  assert (Hmail : "mail.example.com"
                  ∈ generate_candidates "www.example.com" "normal").
  { rewrite (generate_candidates_strip_www "www.example.com" "example.com")
      by reflexivity.
    apply member_example_normal. do 3 right. left. }
  destruct (Hwww eq_refl) as [Hd Hno].
  split; [exact (Hall _ Hmail) |].
  split; [exact Hnot |].
  split; [exact Hd |].
  split; [exact (Hno _ Hmail) |].
  exact (Hid eq_refl).
Defined.

End StrippedDomain.


(** * The sessions of the bot *)

Section Sessions.
Import UserSession.

Lemma store_eq (st st' : store) :
  objects st = objects st' → sessions st = sessions st' → st = st'.
Proof. destruct st, st'. simpl. by intros -> ->. Qed.

Lemma create_fresh (user_id : Z) (st : store) :
  objects st !! (create user_id st).1 = None.
Proof. simpl. apply not_elem_of_dom, is_fresh. Qed.

Lemma session_of_Some (user_id : Z) (st : store) (d : dict) :
  session_of user_id st = Some d ↔
  ∃ r, sessions st !! user_id = Some r ∧ objects st !! r = Some d.
Proof.
  unfold session_of, get.
  destruct (sessions st !! user_id) as [r|]; simpl.
  - split; [eauto |]. by intros (r' & [= <-] & ?).
  - split; [done |]. by intros (r' & ? & _).
Qed.

(** X19. [create] stores the very dict it returns: right after
    [create], [get] gives that dict, it is a new object holding the six
    initial entries, and an assignment made through it is what [get]
    shows afterwards. A session the user had before is replaced. *)
Theorem create_returns_stored_dict (user_id : Z) (st : store) :
  get user_id (create user_id st).2 = Some (create user_id st).1
  ∧ objects st !! (create user_id st).1 = None
  ∧ session_of user_id (create user_id st).2 = Some new_session
  ∧ ∀ key v,
      session_of user_id
        (setitem (create user_id st).1 key v (create user_id st).2)
      = Some (<[key := v]> new_session).
Proof.
  split; [| split; [| split]].
  - unfold get. simpl. by rewrite lookup_insert_eq.
  - apply create_fresh.
  - unfold session_of, get. simpl.
    rewrite lookup_insert_eq. simpl. by rewrite lookup_insert_eq.
  - intros key v. unfold session_of, get. simpl.
    rewrite lookup_insert_eq. simpl.
    by rewrite lookup_alter_eq, lookup_insert_eq.
Qed.

(** X20. For a user without a session, [get] gives [None], and [update]
    and [delete] do nothing at all; neither fails. *)
Theorem no_session_no_effect (user_id : Z) (kwargs : dict) (st : store) :
  get user_id st = None →
  session_of user_id st = None
  ∧ update user_id kwargs st = st
  ∧ delete user_id st = st.
Proof.
  unfold get. intros Hnone. split; [| split].
  - unfold session_of, get. by rewrite Hnone.
  - unfold update. by rewrite Hnone.
  - apply store_eq; [done |]. simpl. by apply delete_id.
Qed.

Lemma no_session_no_effect_example :
  session_of 7 init = None
  ∧ update 7 {[ "mode" := VStr "normal" ]} init = init
  ∧ delete 7 init = init.
Proof.
  apply (no_session_no_effect 7 {[ "mode" := VStr "normal" ]} init).
  reflexivity.
Defined.

(** X21. After [delete] the user has no session; the sessions of the
    other users stay as they were, and so does every dict object,
    also the one just dropped, for whoever still holds it. *)
Theorem delete_forgets_one_user (user_id : Z) (st : store) :
  get user_id (delete user_id st) = None
  ∧ (∀ other, other ≠ user_id →
       get other (delete user_id st) = get other st
       ∧ session_of other (delete user_id st) = session_of other st)
  ∧ objects (delete user_id st) = objects st.
Proof.
  split; [| split; [| done]].
  - unfold get. simpl. apply lookup_delete_eq.
  - intros other Hne. unfold session_of, get. simpl.
    by rewrite lookup_delete_ne.
Qed.

(** X22. [update] on a user with a session overwrites the entries named
    in [kwargs] and keeps the others. *)
Theorem update_overwrites_named_keys (user_id : Z) (kwargs d : dict)
    (st : store) (r : ref) :
  get user_id st = Some r →
  objects st !! r = Some d →
  get user_id (update user_id kwargs st) = Some r
  ∧ ∀ key,
      getitem r key (update user_id kwargs st)
      = match kwargs !! key with
        | Some v => Some v
        | None => d !! key
        end.
Proof.
  unfold get. intros Hr Hd. unfold update. rewrite Hr. simpl.
  split; [done |]. intros key. unfold getitem. simpl.
  rewrite lookup_alter_eq, Hd. simpl.
  destruct (kwargs !! key) as [v|] eqn:Hk.
  - by apply (lookup_union_Some_l (M := gmap string)).
  - by apply (lookup_union_r (M := gmap string)).
Qed.

Lemma update_overwrites_named_keys_example :
  get 7 (update 7 {[ "mode" := VStr "normal" ]} (create 7 init).2)
  = Some (create 7 init).1
  ∧ ∀ key,
      getitem (create 7 init).1 key
        (update 7 {[ "mode" := VStr "normal" ]} (create 7 init).2)
      = match ({[ "mode" := VStr "normal" ]} : dict) !! key with
        | Some v => Some v
        | None => new_session !! key
        end.
Proof.
  apply (update_overwrites_named_keys 7 {[ "mode" := VStr "normal" ]}
           new_session (create 7 init).2 (create 7 init).1).
  - unfold get. simpl. by rewrite lookup_insert_eq.
  - simpl. by rewrite lookup_insert_eq.
Defined.

(** *** Sessions never share a dict *)

Lemma well_formed_init : well_formed init.
Proof. split; [intros u r H | intros u u' r H]; by simpl in H. Qed.

Lemma well_formed_create (user_id : Z) (st : store) :
  well_formed st → well_formed (create user_id st).2.
Proof.
  intros [Hlive Hinj]. simpl.
  set (r0 := fresh (dom (objects st))).
  assert (Hfresh : objects st !! r0 = None)
    by apply not_elem_of_dom, is_fresh.
  assert (Hother : ∀ u r, sessions st !! u = Some r → r ≠ r0).
  { intros u r Hu ->. apply Hlive in Hu as [d Hd]. congruence. }
  split; simpl; fold r0.
  - intros u r. destruct (decide (u = user_id)) as [->|Hne].
    + rewrite lookup_insert_eq. intros [= <-].
      rewrite lookup_insert_eq. eauto.
    + rewrite lookup_insert_ne by done. intros Hu.
      rewrite lookup_insert_ne by (intros ->; by eapply Hother).
      by eapply Hlive.
  - intros u u' r.
    destruct (decide (u = user_id)) as [->|Hne],
      (decide (u' = user_id)) as [->|Hne']; [done | | |].
    + rewrite lookup_insert_eq, lookup_insert_ne by done.
      intros [= <-] Hu'. by apply Hother in Hu'.
    + rewrite lookup_insert_eq, lookup_insert_ne by done.
      intros Hu [= <-]. by apply Hother in Hu.
    + rewrite !lookup_insert_ne by done. apply Hinj.
Qed.

Lemma well_formed_alter (f : dict → dict) (r : ref) (st : store) :
  well_formed st →
  well_formed {| objects := alter f r (objects st);
                 sessions := sessions st |}.
Proof.
  intros [Hlive Hinj]. split; [| done]. simpl. intros u r' Hu.
  apply Hlive in Hu as [d Hd].
  destruct (decide (r' = r)) as [->|Hne].
  - rewrite lookup_alter_eq, Hd. simpl. eauto.
  - rewrite lookup_alter_ne by done. eauto.
Qed.

Lemma well_formed_apply (st : store) (o : op) :
  well_formed st → well_formed (apply_op st o).
Proof.
  intros Hwf. destruct o as [u|u kwargs|u|u key v]; simpl.
  - by apply well_formed_create.
  - unfold update. destruct (sessions st !! u); [| done].
    by apply well_formed_alter.
  - destruct Hwf as [Hlive Hinj]. split; simpl.
    + intros u' r [_ Hu']%lookup_delete_Some. by eapply Hlive.
    + intros u1 u2 r [_ H1]%lookup_delete_Some [_ H2]%lookup_delete_Some.
      by eapply Hinj.
  - unfold assign, get. destruct (sessions st !! u); [| done].
    by apply well_formed_alter.
Qed.

Lemma well_formed_run (ops : list op) : well_formed (run ops).
Proof.
  unfold run. induction ops as [|o ops IH] using rev_ind.
  - apply well_formed_init.
  - rewrite foldl_app. simpl. by apply well_formed_apply.
Qed.

Lemma apply_op_other (st : store) (o : op) (other : Z) :
  well_formed st → other ≠ op_user o →
  session_of other (apply_op st o) = session_of other st.
Proof.
  intros [Hlive Hinj] Hne.
  assert (Halter : ∀ f r,
            sessions st !! op_user o = Some r →
            session_of other
              {| objects := alter f r (objects st);
                 sessions := sessions st |}
            = session_of other st).
  { intros f r Hr. unfold session_of, get. simpl.
    destruct (sessions st !! other) as [r'|] eqn:Hother; [| done]. simpl.
    rewrite lookup_alter_ne; [done |].
    intros ->. apply Hne. by eapply Hinj. }
  destruct o as [u|u kwargs|u|u key v]; simpl in *.
  - unfold session_of, get. simpl.
    rewrite lookup_insert_ne by done.
    destruct (sessions st !! other) as [r'|] eqn:Hother; [| done]. simpl.
    rewrite lookup_insert_ne; [done |].
    intros Heq. apply Hlive in Hother as [d Hd].
    rewrite <- Heq in Hd.
    pose proof (is_fresh (dom (objects st))) as Hf.
    apply not_elem_of_dom in Hf. congruence.
  - unfold update. destruct (sessions st !! u) eqn:Hu; [| done].
    by apply Halter.
  - unfold session_of, get. simpl. by rewrite lookup_delete_ne.
  - unfold assign, get. destruct (sessions st !! u) eqn:Hu; [| done].
    by apply Halter.
Qed.

(** X23. Whatever calls were made on [user_session] before, no two
    users share a session dict, and a call for one user ([create],
    [update], [delete], or an assignment to the dict that [get] gives)
    leaves what [get] shows for every other user as it was. *)
Theorem sessions_are_isolated (ops : list op) (o : op) (other : Z) :
  other ≠ op_user o →
  well_formed (run ops)
  ∧ session_of other (apply_op (run ops) o) = session_of other (run ops).
Proof.
  intros Hne. split; [apply well_formed_run |].
  apply apply_op_other; [apply well_formed_run | done].
Qed.

Lemma sessions_are_isolated_example :
  well_formed (run [Create 1; Assign 1 "domain" (VStr "example.com")])
  ∧ session_of 1
      (apply_op (run [Create 1; Assign 1 "domain" (VStr "example.com")])
         (Create 2))
    = session_of 1
        (run [Create 1; Assign 1 "domain" (VStr "example.com")]).
Proof.
  apply (sessions_are_isolated
           [Create 1; Assign 1 "domain" (VStr "example.com")]
           (Create 2) 1).
  discriminate.
Defined.

End Sessions.


(** * What [validate_domain] accepts *)

Ltac by_cases_on_char c :=
  destruct c as [[] [] [] [] [] [] [] []];
  intros H; vm_compute in H; try discriminate H; vm_compute; reflexivity.

Section ValidateFacts.
Import PyStr Utils Validate GeneratorSpec.

Lemma host_lower (c : ascii) :
  is_host_char c = true → lower_char c = c.
Proof. by_cases_on_char c. Qed.

Lemma host_not_space (c : ascii) :
  is_host_char c = true → is_space c = false.
Proof. by_cases_on_char c. Qed.

Lemma host_not_blank (c : ascii) :
  is_host_char c = true → Ascii.eqb c " " = false.
Proof. by_cases_on_char c. Qed.

Lemma host_not_slash (c : ascii) :
  is_host_char c = true → negb (Ascii.eqb c "/") = true.
Proof. by_cases_on_char c. Qed.

Lemma host_not_colon (c : ascii) :
  is_host_char c = true → negb (Ascii.eqb c ":") = true.
Proof. by_cases_on_char c. Qed.

Lemma lower_app (a b : string) : lower (a +:+ b) = lower a +:+ lower b.
Proof.
  induction a as [|c a IH]; [done |].
  rewrite append_cons. simpl. rewrite IH. by rewrite append_cons.
Qed.

Lemma lower_host (s : string) :
  all_chars is_host_char s = true → lower s = s.
Proof.
  induction s as [|c s IH]; [done |]. simpl.
  intros [Hc Hs]%andb_true_iff. by rewrite (host_lower c Hc), IH.
Qed.

Lemma contains_char_app (c : ascii) (a b : string) :
  contains_char c (a +:+ b) = contains_char c a || contains_char c b.
Proof.
  induction a as [|x a IH]; [done |].
  rewrite append_cons. simpl. by rewrite IH, orb_assoc.
Qed.

Lemma contains_blank_host (s : string) :
  all_chars is_host_char s = true → contains_char " " s = false.
Proof.
  induction s as [|c s IH]; [done |]. simpl.
  intros [Hc Hs]%andb_true_iff. by rewrite (host_not_blank c Hc), IH.
Qed.

Lemma contains_blank_lower (s : string) :
  contains_char " " s = false → contains_char " " (lower s) = false.
Proof.
  induction s as [|c s IH]; [done |]. simpl.
  intros [Hc Hs]%orb_false_iff. rewrite (IH Hs), orb_false_r.
  revert Hc. clear.
  destruct c as [[] [] [] [] [] [] [] []];
    intros H; vm_compute in H; try discriminate H; vm_compute; reflexivity.
Qed.

Lemma rstrip_nonspace (s : string) :
  all_chars (λ c, negb (is_space c)) s = true → rstrip s = s.
Proof.
  induction s as [|c s IH]; [done |]. simpl.
  intros [Hc Hs]%andb_true_iff. rewrite (IH Hs).
  apply negb_true_iff in Hc. by rewrite Hc, andb_false_r.
Qed.

Lemma rstrip_app_nonspace (a q : string) (c : ascii) :
  is_space c = false →
  rstrip (a +:+ String c q) = a +:+ String c (rstrip q).
Proof.
  intros Hc. induction a as [|x a IH].
  - rewrite !append_nil_l. simpl. by rewrite Hc, andb_false_r.
  - rewrite !append_cons. simpl. rewrite IH.
    assert (Hne : String.eqb (a +:+ String c (rstrip q)) "" = false).
    { apply String.eqb_neq. by apply append_nonempty_r. }
    by rewrite Hne.
Qed.

Lemma lstrip_cons (c : ascii) (s : string) :
  is_space c = false → lstrip (String c s) = String c s.
Proof. simpl. by intros ->. Qed.

(** *** [split] *)

Lemma split_go_skip (sep : string) (k : nat) (cur : string) (c : ascii)
    (s : string) :
  split_go sep (S k) cur (String c s) = split_go sep k cur s.
Proof. reflexivity. Qed.

Lemma split_go_unfold (sep cur : string) (c : ascii) (s : string) :
  split_go sep 0 cur (String c s)
  = if String.prefix sep (String c s)
    then cur :: split_go sep (String.length sep - 1) "" s
    else split_go sep 0 (cur +:+ String c "") s.
Proof. reflexivity. Qed.

Lemma prefix_cons (a x : ascii) (p s : string) :
  String.prefix (String a p) (String x s)
  = if ascii_dec a x then String.prefix p s else false.
Proof. reflexivity. Qed.

Lemma prefix_nil (s : string) : String.prefix "" s = true.
Proof. by destruct s. Qed.

Lemma split_go_cons (sep : string) (s : string) : ∀ k cur,
  ∃ x l, split_go sep k cur s = x :: l.
Proof.
  induction s as [|c s IH]; intros k cur; [simpl; eauto |].
  destruct k as [|k]; [| rewrite split_go_skip; apply IH].
  rewrite split_go_unfold.
  destruct (String.prefix sep (String c s)); [eauto | apply IH].
Qed.

(** Until a separator is found, the part being read grows. *)
Lemma split_go_head (sep : string) (s : string) : ∀ cur,
  ∃ t l, split_go sep 0 cur s = (cur +:+ t) :: l.
Proof.
  induction s as [|c s IH]; intros cur.
  - exists "", []. simpl. by rewrite append_nil_r.
  - rewrite split_go_unfold.
    destruct (String.prefix sep (String c s)).
    + exists "". eexists. by rewrite append_nil_r.
    + destruct (IH (cur +:+ String c "")) as (t & l & ->).
      exists (String c t), l. by rewrite append_assoc.
Qed.

(** Characters other than the first one of the separator are read
    into the current part. *)
Lemma split_go_pass (c : ascii) (sep' a rest : string) : ∀ cur,
  all_chars (λ x, negb (Ascii.eqb x c)) a = true →
  split_go (String c sep') 0 cur (a +:+ rest)
  = split_go (String c sep') 0 (cur +:+ a) rest.
Proof.
  induction a as [|x a IH]; intros cur.
  - intros _. by rewrite append_nil_l, append_nil_r.
  - intros Hall. simpl in Hall.
    apply andb_true_iff in Hall as [Hx Ha].
    rewrite append_cons, split_go_unfold, prefix_cons.
    destruct (ascii_dec c x) as [->|Hne].
    + by rewrite Ascii.eqb_refl in Hx.
    + rewrite (IH _ Ha). by rewrite append_assoc.
Qed.

Lemma split_slash (cur q : string) :
  split_go "/" 0 cur (String "/" q) = cur :: split_go "/" 0 "" q.
Proof.
  rewrite split_go_unfold, prefix_cons, prefix_nil.
  by destruct (ascii_dec "/" "/").
Qed.

Lemma split_scheme_sep (cur r : string) :
  split_go "://" 0 cur ("://" +:+ r) = cur :: split_go "://" 0 "" r.
Proof.
  rewrite !append_cons, append_nil_l.
  rewrite split_go_unfold, !prefix_cons, prefix_nil.
  destruct (ascii_dec ":" ":") as [_|Hne]; [| done].
  destruct (ascii_dec "/" "/") as [_|Hne]; [| done].
  reflexivity.
Qed.

Lemma split_http (r : string) :
  split "://" ("http://" +:+ r) = "http" :: split_go "://" 0 "" r.
Proof.
  unfold split.
  change ("http://" +:+ r) with ("http" +:+ "://" +:+ r).
  rewrite (split_go_pass ":" "//" "http" _ "" eq_refl).
  apply split_scheme_sep.
Qed.

Lemma split_https (r : string) :
  split "://" ("https://" +:+ r) = "https" :: split_go "://" 0 "" r.
Proof.
  unfold split.
  change ("https://" +:+ r) with ("https" +:+ "://" +:+ r).
  rewrite (split_go_pass ":" "//" "https" _ "" eq_refl).
  apply split_scheme_sep.
Qed.

(** *** Strings that match the pattern *)

Lemma Domain_nonempty (d : string) : Domain d → d ≠ "".
Proof. by intros H ->. Qed.

Lemma Domain_host_chars (d : string) :
  Domain d → all_chars is_host_char d = true.
Proof. apply matches_host_chars. Qed.

Lemma matches_count (s : string) : ∀ seen,
  matches_from seen s = true → (1 ≤ count_char "." s)%nat.
Proof.
  induction s as [|c s IH]; [by intros [] |]. intros seen.
  change (matches_from seen (String c s))
    with (seen && matches_tld (String c s)
          || is_host_char c && matches_from true s).
  intros [[_ H]%andb_true_iff|[_ H]%andb_true_iff]%orb_true_iff.
  - simpl. destruct (Ascii.eqb_spec c ".") as [->|Hne]; [lia |].
    unfold matches_tld in H.
    destruct c as [[] [] [] [] [] [] [] []]; try discriminate H.
    by destruct Hne.
  - simpl. apply IH in H. lia.
Qed.

End ValidateFacts.

Section ValidateTheorems.
Import PyStr Utils Validate ValidateSpec GeneratorSpec.

Lemma first_mark_host (d r : string) :
  all_chars is_host_char d = true → first_mark (d +:+ r) = first_mark r.
Proof.
  induction d as [|c d IH]; [done |]. intros Hall. simpl in Hall.
  apply andb_true_iff in Hall as [Hc Hd].
  rewrite append_cons. simpl. rewrite (IH Hd).
  pose proof (host_not_slash c Hc) as Hs%negb_true_iff.
  pose proof (host_not_colon c Hc) as Hcol%negb_true_iff.
  by rewrite Hs, Hcol.
Qed.

(** A host name, followed by nothing or by a slash, does not begin with
    a scheme. *)
Lemma no_scheme (d r : string) (q : string) :
  all_chars is_host_char d = true →
  r = "" ∨ r = String "/" q →
  startswith (d +:+ r) "http://" = false
  ∧ startswith (d +:+ r) "https://" = false.
Proof.
  intros Hd Hr.
  assert (Hmark : first_mark (d +:+ r) ≠ Some ":"%char).
  { rewrite (first_mark_host d r Hd). by destruct Hr as [->| ->]. }
  split.
  - destruct (startswith (d +:+ r) "http://") eqn:H; [| done].
    apply startswith_split in H. rewrite H in Hmark. by destruct Hmark.
  - destruct (startswith (d +:+ r) "https://") eqn:H; [| done].
    apply startswith_split in H. rewrite H in Hmark. by destruct Hmark.
Qed.

Lemma host_nonspace (d : string) :
  all_chars is_host_char d = true →
  all_chars (λ c, negb (is_space c)) d = true.
Proof.
  apply all_chars_mono. intros c Hc.
  by rewrite (host_not_space c Hc).
Qed.

(** What [strip] and [lower] leave of an input made of a scheme, a host
    name and a path. *)
Lemma normal_form (sch d r : string) :
  scheme_part sch → d ≠ "" → all_chars is_host_char d = true →
  path_part r →
  ∃ r', strip (lower (sch +:+ d +:+ r)) = sch +:+ d +:+ r'
        ∧ (r' = "" ∨ ∃ q, r' = String "/" q).
Proof.
  intros Hsch Hne Hd Hr.
  assert (Hlow : ∃ r0, lower (sch +:+ d +:+ r) = sch +:+ d +:+ r0
                       ∧ (r0 = "" ∨ ∃ q, r0 = String "/" q)).
  { rewrite !lower_app, (lower_host d Hd).
    assert (Hs : lower sch = sch) by (by destruct Hsch as [->|[->| ->]]).
    rewrite Hs. destruct Hr as [->|(p & -> & _)].
    - exists "". by split; [| left].
    - exists (String "/" (lower p)). split; [done | right; eauto]. }
  destruct Hlow as (r0 & -> & Hr0). unfold strip.
  assert (Hl : lstrip (sch +:+ d +:+ r0) = sch +:+ d +:+ r0).
  { destruct Hsch as [->|[->| ->]].
    - rewrite append_nil_l. destruct d as [|c d]; [done |].
      simpl in Hd. apply andb_true_iff in Hd as [Hc _].
      rewrite append_cons. apply lstrip_cons. by apply host_not_space.
    - rewrite append_cons. by apply lstrip_cons.
    - rewrite append_cons. by apply lstrip_cons. }
  rewrite Hl.
  assert (Hsd : all_chars (λ c, negb (is_space c)) (sch +:+ d) = true).
  { rewrite all_chars_app, (host_nonspace d Hd), andb_true_r.
    by destruct Hsch as [->|[->| ->]]. }
  destruct Hr0 as [->|(q & ->)].
  - exists "". split; [| by left].
    rewrite append_nil_r. by apply rstrip_nonspace.
  - exists (String "/" (rstrip q)). split; [| right; eauto].
    rewrite <- !append_assoc. by apply rstrip_app_nonspace.
Qed.

(** After the scheme is taken off: the host name, followed by nothing
    or by a slash. *)
Lemma scheme_removed (sch d r' : string) :
  scheme_part sch → all_chars is_host_char d = true →
  (r' = "" ∨ ∃ q, r' = String "/" q) →
  ∃ u, (if startswith (sch +:+ d +:+ r') "http://"
           || startswith (sch +:+ d +:+ r') "https://"
        then split "://" (sch +:+ d +:+ r') !! 1%nat
        else Some (sch +:+ d +:+ r'))
       = Some (d +:+ u)
       ∧ (u = "" ∨ ∃ t, u = String "/" t).
Proof.
  intros Hsch Hd Hr'.
  assert (Hcolon : all_chars (λ x, negb (Ascii.eqb x ":")) d = true).
  { eapply all_chars_mono; [| exact Hd]. apply host_not_colon. }
  assert (Hrest : ∃ u l, split_go "://" 0 "" (d +:+ r') = (d +:+ u) :: l
                         ∧ (u = "" ∨ ∃ t, u = String "/" t)).
  { rewrite (split_go_pass ":" "//" d r' "" Hcolon), append_nil_l.
    destruct Hr' as [->|(q & ->)].
    - exists "", []. split; [by rewrite append_nil_r | by left].
    - rewrite split_go_unfold, prefix_cons.
      destruct (ascii_dec ":" "/") as [Heq|_]; [discriminate Heq |].
      destruct (split_go_head "://" q (d +:+ String "/" "")) as (t & l & ->).
      exists (String "/" t), l. split; [| right; eauto].
      by rewrite append_assoc. }
  destruct Hrest as (u & l & Hsplit & Hu).
  destruct Hsch as [->|[->| ->]].
  - rewrite !append_nil_l.
    assert (Hr'' : r' = "" ∨ r' = String "/" (match r' with
                                             | String _ q => q
                                             | _ => ""
                                             end)).
    { destruct Hr' as [->|(q & ->)]; [by left | by right]. }
    destruct (no_scheme d r' _ Hd Hr'') as [-> ->].
    exists r'. by split.
  - rewrite startswith_append. simpl orb. cbv iota.
    rewrite split_http, Hsplit. exists u. by split.
  - rewrite (startswith_append "https://"), orb_true_r.
    rewrite split_https, Hsplit. exists u. by split.
Qed.

(** The part before the first slash is the host name. *)
Lemma path_removed (d u : string) :
  all_chars is_host_char d = true →
  (u = "" ∨ ∃ t, u = String "/" t) →
  split "/" (d +:+ u) !! 0%nat = Some d.
Proof.
  intros Hd Hu. unfold split.
  assert (Hslash : all_chars (λ x, negb (Ascii.eqb x "/")) d = true).
  { eapply all_chars_mono; [| exact Hd]. apply host_not_slash. }
  rewrite (split_go_pass "/" "" d u "" Hslash), append_nil_l.
  destruct Hu as [->|(t & ->)]; [done |].
  by rewrite split_slash.
Qed.

Lemma validate_domain_unfold (s : string) :
  s ≠ "" → contains_char " " s = false →
  validate_domain s
  = (domain ← (if startswith (strip (lower s)) "http://"
                  || startswith (strip (lower s)) "https://"
               then split "://" (strip (lower s)) !! 1%nat
               else Some (strip (lower s)));
     domain ← split "/" domain !! 0%nat;
     Some (re_match_pattern domain
           && (1 <=? count_char "." domain)%nat)).
Proof.
  intros Hne%String.eqb_neq Hblank. unfold validate_domain.
  by rewrite Hne, Hblank.
Qed.

(** An input made of a scheme or none, a host name that matches the
    pattern, and a path or none, is accepted. *)
Lemma validate_url (sch d r : string) :
  scheme_part sch → Domain d → path_part r →
  validate_domain (sch +:+ d +:+ r) = Some true.
Proof.
  intros Hsch Hdom Hr.
  pose proof (Domain_host_chars d Hdom) as Hd.
  pose proof (Domain_nonempty d Hdom) as Hne.
  rewrite validate_domain_unfold.
  - destruct (normal_form sch d r Hsch Hne Hd Hr) as (r' & -> & Hr').
    destruct (scheme_removed sch d r' Hsch Hd Hr') as (u & -> & Hu).
    cbn [mbind option_bind]. rewrite (path_removed d u Hd Hu).
    cbn [mbind option_bind]. f_equal.
    unfold re_match_pattern. unfold Domain in Hdom. rewrite Hdom.
    apply matches_count, Nat.leb_le in Hdom. by rewrite Hdom.
  - by apply append_nonempty_r, append_nonempty_l.
  - rewrite !contains_char_app, (contains_blank_host d Hd).
    assert (Hs : contains_char " " sch = false)
      by (by destruct Hsch as [->|[->| ->]]).
    rewrite Hs. simpl orb.
    destruct Hr as [->|(p & -> & Hp)]; [done |].
    by rewrite contains_char_app, Hp.
Qed.

(** X24. [validate_domain] returns a boolean for every input: neither of
    its two index expressions, [split('://')[1]] and [split('/')[0]],
    can fail. *)
Theorem validate_domain_never_raises (domain : string) :
  ∃ b, validate_domain domain = Some b.
Proof.
  unfold validate_domain.
  destruct (String.eqb domain "" || contains_char " " domain); [eauto |].
  set (N := strip (lower domain)).
  assert (H1 : ∃ d1, (if startswith N "http://" || startswith N "https://"
                      then split "://" N !! 1%nat
                      else Some N) = Some d1).
  { destruct (startswith N "http://") eqn:Hhttp.
    - apply startswith_split in Hhttp. rewrite Hhttp, split_http.
      destruct (split_go_cons "://" (slice_from (String.length "http://") N)
                  0 "") as (x & l & ->).
      simpl. eauto.
    - destruct (startswith N "https://") eqn:Hhttps; [| simpl; eauto].
      apply startswith_split in Hhttps. simpl orb. cbv iota.
      rewrite Hhttps, split_https.
      destruct (split_go_cons "://"
                  (slice_from (String.length "https://") N) 0 "")
        as (x & l & ->).
      simpl. eauto. }
  destruct H1 as (d1 & ->). cbn [mbind option_bind].
  unfold split. destruct (split_go_cons "/" d1 0 "") as (x & l & ->).
  simpl. eauto.
Qed.

(** X25. Every string that matches the pattern
    [^[a-z0-9.-]+\.[a-z]{2,}$] is accepted. *)
Theorem validate_domain_accepts_pattern (d : string) :
  Domain d → validate_domain d = Some true.
Proof.
  intros Hd.
  pose proof (validate_url "" d "" (or_introl eq_refl) Hd
                (or_introl eq_refl)) as H.
  by rewrite append_nil_l, append_nil_r in H.
Qed.

Lemma validate_domain_accepts_pattern_example :
  validate_domain "example.com" = Some true.
Proof.
  apply (validate_domain_accepts_pattern "example.com").
  vm_compute. reflexivity.
Defined.

(** X26. A host name that matches the pattern is also accepted with
    [http://] or [https://] in front and with a slash and any path
    without a blank behind, although such an input does not match the
    pattern itself. *)
Theorem validate_domain_accepts_urls (sch d p : string) :
  scheme_part sch → Domain d → contains_char " " p = false →
  validate_domain (sch +:+ d) = Some true
  ∧ validate_domain (sch +:+ d +:+ "/" +:+ p) = Some true
  ∧ ¬ Domain (sch +:+ d +:+ "/" +:+ p).
Proof.
  intros Hsch Hd Hp. split; [| split].
  - pose proof (validate_url sch d "" Hsch Hd (or_introl eq_refl)) as H.
    by rewrite append_nil_r in H.
  - apply validate_url; [done | done |]. right. by exists p.
  - intros Hbad%Domain_host_chars.
    rewrite !all_chars_app in Hbad.
    apply andb_true_iff in Hbad as [_ Hbad].
    apply andb_true_iff in Hbad as [_ Hbad].
    by apply andb_true_iff in Hbad as [Hbad _].
Qed.

Lemma validate_domain_accepts_urls_example :
  validate_domain ("https://" +:+ "example.com") = Some true
  ∧ validate_domain ("https://" +:+ "example.com" +:+ "/" +:+ "a?b=C")
    = Some true
  ∧ ¬ Domain ("https://" +:+ "example.com" +:+ "/" +:+ "a?b=C").
Proof.
  apply (validate_domain_accepts_urls "https://" "example.com" "a?b=C").
  - right. by right.
  - vm_compute. reflexivity.
  - vm_compute. reflexivity.
Defined.

Lemma lower_char_idem (c : ascii) : lower_char (lower_char c) = lower_char c.
Proof. destruct c as [[] [] [] [] [] [] [] []]; vm_compute; reflexivity. Qed.

Lemma lower_idem (s : string) : lower (lower s) = lower s.
Proof.
  induction s as [|c s IH]; [done |]. simpl.
  by rewrite lower_char_idem, IH.
Qed.

Lemma lower_empty (s : string) :
  String.eqb (lower s) "" = String.eqb s "".
Proof. by destruct s. Qed.

Lemma lower_char_blank (c : ascii) :
  Ascii.eqb (lower_char c) " " = Ascii.eqb c " ".
Proof. destruct c as [[] [] [] [] [] [] [] []]; vm_compute; reflexivity. Qed.

Lemma lower_blank (s : string) :
  contains_char " " (lower s) = contains_char " " s.
Proof.
  induction s as [|c s IH]; [done |]. simpl.
  by rewrite IH, lower_char_blank.
Qed.

(** X27. Upper-case letters in the input make no difference:
    [validate_domain] gives for an input what it gives for the input in
    lower case. *)
Theorem validate_domain_ignores_case (domain : string) :
  validate_domain domain = validate_domain (lower domain).
Proof.
  unfold validate_domain.
  by rewrite lower_empty, lower_blank, lower_idem.
Qed.

End ValidateTheorems.


(** * From the message typed to the candidates generated *)

Section TypedInput.
Import PyStr PySet Utils Validate ValidateSpec GeneratorSpec LabelSpec.
Import SubdomainGenerator UserSession Handlers Conversation.

Lemma session_of_setitem (user_id : Z) (r : ref) (key : string) (v : value)
    (d : dict) (st : store) :
  get user_id st = Some r → objects st !! r = Some d →
  session_of user_id (setitem r key v st) = Some (<[key := v]> d).
Proof.
  unfold get. intros Hr Hd. unfold session_of, get. simpl.
  rewrite Hr. simpl. by rewrite lookup_alter_eq, Hd.
Qed.

Lemma not_session_insert (key : string) (v : value) (d : dict) :
  not_session (Some (<[key := v]> d)) = false.
Proof. simpl. apply bool_decide_eq_false, insert_non_empty. Qed.

Lemma dict_lookup_insert (d : dict) (key : string) (v : value) :
  (<[key := v]> d : dict) !! key = Some v.
Proof. apply (lookup_insert_eq (M := gmap string)). Qed.

Lemma dict_lookup_insert_ne (d : dict) (key key' : string) (v : value) :
  key ≠ key' → (<[key := v]> d : dict) !! key' = d !! key'.
Proof. apply (lookup_insert_ne (M := gmap string)). Qed.

(** X28. The string that reaches [generate_candidates] is the message as
    typed, stripped: when [validate_domain] accepts the stripped message,
    [receive_domain] stores it, [select_mode] adds the mode of the button
    pressed, and [confirm_scan] then reads this very string and mode from
    the session, whatever was in the store before. *)
Theorem typed_input_reaches_generator (user_id : Z)
    (text data data' mode : string) (st : store) :
  validate_domain (strip text) = Some true →
  mode_map data = Some mode →
  data' ≠ CONFIRM_CANCEL →
  ∃ st1 st2,
    receive_domain user_id text st = Some (AWAITING_MODE, st1)
    ∧ select_mode user_id data st1 = Some (AWAITING_CONFIRMATION, st2)
    ∧ confirm_scan_inputs user_id data' st2
      = Some (VStr (strip text), VStr mode).
Proof.
  intros Hvalid Hmode Hdata.
  set (r := (create user_id st).1).
  set (st0 := (create user_id st).2).
  set (d1 := <["domain" := VStr (strip text)]> new_session).
  set (st1 := setitem r "domain" (VStr (strip text)) st0).
  assert (Hget0 : get user_id st0 = Some r)
    by (unfold get; simpl; by rewrite lookup_insert_eq).
  assert (Hobj0 : objects st0 !! r = Some new_session)
    by (simpl; by rewrite lookup_insert_eq).
  assert (Hs1 : session_of user_id st1 = Some d1)
    by (by apply session_of_setitem).
  assert (Hget1 : get user_id st1 = Some r) by done.
  assert (Hobj1 : objects st1 !! r = Some d1).
  { simpl. by rewrite lookup_alter_eq, lookup_insert_eq. }
  set (st2 := setitem r "mode" (VStr mode) st1).
  assert (Hs2 : session_of user_id st2
                = Some (<["mode" := VStr mode]> d1))
    by (by apply session_of_setitem).
  exists st1, st2. split; [| split].
  - unfold receive_domain. by rewrite Hvalid.
  - unfold select_mode. rewrite Hs1. unfold d1 at 1.
    rewrite not_session_insert, Hmode.
    unfold assign. rewrite Hget1. fold st2. rewrite Hs2.
    cbn [mbind option_bind]. unfold d1.
    by rewrite dict_lookup_insert_ne, dict_lookup_insert.
  - unfold confirm_scan_inputs.
    apply String.eqb_neq in Hdata. rewrite Hdata, Hs2.
    rewrite not_session_insert. cbn [mbind option_bind]. unfold d1.
    by rewrite dict_lookup_insert_ne, !dict_lookup_insert.
Qed.

Lemma typed_input_reaches_generator_example :
  ∃ st1 st2,
    receive_domain 7 " https://example.com/a " init
    = Some (AWAITING_MODE, st1)
    ∧ select_mode 7 "medium_mode" st1 = Some (AWAITING_CONFIRMATION, st2)
    ∧ confirm_scan_inputs 7 "confirm_start" st2
      = Some (VStr (strip " https://example.com/a "), VStr "medium").
Proof.
  apply (typed_input_reaches_generator 7 " https://example.com/a "
           "medium_mode" "confirm_start" "medium" init).
  - vm_compute. reflexivity.
  - reflexivity.
  - discriminate.
Defined.

(** *** Candidates of a string that is no host name *)

Lemma candidate_ends_with_domain (d c : string) :
  candidate_form d c → ∃ a, c = a +:+ d.
Proof.
  intros [(l & _ & _ & ->)| ->].
  - exists (l +:+ "."). by rewrite append_assoc.
  - exists ("prod-" +:+ replace "." "-" d +:+ ".").
    unfold domain_token. by rewrite !append_assoc.
Qed.

(** *** What [re.match] sees of a string that may end with a newline *)

Lemma without_final_newline_cons (x : ascii) (rest : string) :
  rest ≠ "" →
  without_final_newline (String x rest)
  = String x (without_final_newline rest).
Proof.
  intros Hne. unfold without_final_newline.
  destruct rest as [|y rest]; [done |].
  change (chop_newline (String x (String y rest)))
    with (String x <$> chop_newline (String y rest)).
  by destruct (chop_newline (String y rest)).
Qed.

Lemma without_final_newline_one (x : ascii) :
  without_final_newline (String x "") = "" 
  ∨ without_final_newline (String x "") = String x "".
Proof.
  unfold without_final_newline. simpl.
  destruct (Ascii.eqb x "010"); [by left | by right].
Qed.

Lemma without_final_newline_host (s : string) :
  all_chars is_host_char s = true →
  all_chars is_host_char (without_final_newline s) = true.
Proof.
  induction s as [|x s IH]; [done |]. simpl.
  intros [Hx Hs]%andb_true_iff.
  destruct s as [|y s].
  - destruct (without_final_newline_one x) as [-> | ->]; [done |].
    simpl. by rewrite Hx.
  - rewrite without_final_newline_cons by done.
    simpl. rewrite Hx. by apply IH.
Qed.

Lemma without_final_newline_suffix (a b : string) :
  all_chars is_host_char (without_final_newline (a +:+ b)) = true →
  all_chars is_host_char (without_final_newline b) = true.
Proof.
  induction a as [|x a IH]; [by rewrite append_nil_l |].
  rewrite append_cons.
  destruct (a +:+ b) as [|y r] eqn:Hab.
  - destruct a; [| by rewrite append_cons in Hab].
    rewrite append_nil_l in Hab. by subst b.
  - rewrite without_final_newline_cons by done. simpl.
    intros [_ H]%andb_true_iff. by apply IH.
Qed.

Lemma without_final_newline_prefix (a b : string) :
  all_chars is_host_char a = true →
  all_chars is_host_char (without_final_newline b) = true →
  all_chars is_host_char (without_final_newline (a +:+ b)) = true.
Proof.
  induction a as [|x a IH]; [by rewrite append_nil_l |]. simpl.
  intros [Hx Ha]%andb_true_iff Hb. rewrite append_cons.
  destruct (a +:+ b) as [|y r] eqn:Hab.
  - destruct (without_final_newline_one x) as [-> | ->]; [done |].
    simpl. by rewrite Hx.
  - rewrite without_final_newline_cons by done.
    simpl. rewrite Hx. by apply IH.
Qed.

(** What [re.match] accepts consists of host characters, a newline at
    the end apart. *)
Lemma re_match_host_chars (c : string) :
  re_match_pattern c = true →
  all_chars is_host_char (without_final_newline c) = true.
Proof.
  unfold re_match_pattern. intros [H|H]%orb_true_iff.
  - by apply without_final_newline_host, Domain_host_chars.
  - unfold without_final_newline.
    destruct (chop_newline c) as [c0|]; [| done].
    by apply Domain_host_chars.
Qed.

Lemma strip_www_host (domain : string) :
  all_chars is_host_char (without_final_newline (strip_www domain)) = true →
  all_chars is_host_char (without_final_newline domain) = true.
Proof.
  unfold strip_www. destruct (startswith domain "www.") eqn:Hw; [| done].
  apply startswith_www in Hw. intros H. rewrite Hw.
  by apply without_final_newline_prefix.
Qed.

(** X29. If the string given to [generate_candidates] has a character
    outside [[a-z0-9.-]] (a scheme, a path, an upper-case letter), one
    newline at its end apart, then in every mode [re.match] with the
    pattern of [validate_domain] accepts none of the candidates; in
    particular none of them is a host name. *)
Theorem candidates_of_no_host_name (domain mode : string) :
  all_chars is_host_char (without_final_newline domain) = false →
  all_in (λ c, re_match_pattern c = false ∧ ¬ Domain c)
    (generate_candidates domain mode).
Proof.
  intros Hbad c Hc.
  assert (Hno : re_match_pattern c = false).
  { apply not_true_is_false. intros Hm%re_match_host_chars.
    apply candidate_shape, candidate_ends_with_domain in Hc as [a ->].
    apply without_final_newline_suffix, strip_www_host in Hm.
    congruence. }
  split; [done |]. intros Hdom. unfold re_match_pattern in Hno.
  unfold Domain in Hdom. by rewrite Hdom in Hno.
Qed.

Lemma candidates_of_no_host_name_example :
  validate_domain "https://example.com/a" = Some true
  ∧ all_in (λ c, re_match_pattern c = false ∧ ¬ Domain c)
      (generate_candidates "https://example.com/a" "ultimate").
Proof.
  split; [vm_compute; reflexivity |].
  apply (candidates_of_no_host_name "https://example.com/a" "ultimate").
  vm_compute. reflexivity.
Defined.

(** A newline at the end of the domain is the one character outside
    the class that does not have this effect: [re.match] accepts the
    candidate. *)
Lemma candidate_with_final_newline :
  re_match_pattern ("www." +:+ "example.com" +:+ String "010" "") = true.
Proof. vm_compute. reflexivity. Qed.

End TypedInput.
